(** * Portfolio balance report of a brokerage account (package [tinkoff])

    A shallow embedding of the balance aggregation pipeline: the operation
    filter and aggregator, the price resolver, the balance item builder, the
    fan-out collector and the currency roll-up, with the properties the
    specification states about them.

    Conventions of the embedding:
    - [float64] is Rocq's primitive binary64 [float]; [math.Abs] is
      [PrimFloat.abs] and [math.Round] is [Round] below;
    - Go's [int] is a 64-bit two's complement integer, carried as a [Z]
      with the wrap-around written out ([wrap64]);
    - [time.Time] and [time.Duration] are counts of nanoseconds in [Z];
    - the brokerage client ([sdk.RestClient]) and the wall clock are
      oracles gathered in the record [Client];
    - a Go map is a [gmap]; dereferencing the nil pointer a missing key
      yields is the outcome [Panic]. *)

From Stdlib Require Import ZArith List String Bool Lia Floats Sorted.
From stdpp Require Import base option list gmap strings.

Local Open Scope Z_scope.

(** ** Data model *)

(** The fields of [sdk.Operation] the package reads.  [CommissionValue] is
    [Commission.Value]. *)
Module Operation.
Record t := mk {
    FIGI : string;
    Status : string;
    OperationType : string;
    Currency : string;
    Payment : float;
    CommissionValue : float;
    Quantity : Z
}.
End Operation.

Module Candle.
Record t := mk {
    TS : Z;
    ClosePrice : float
}.
End Candle.

Module SearchInstrument.
Record t := mk {
    FIGI : string;
    Ticker : string;
    Name : string;
    Currency : string
}.
End SearchInstrument.

Module TcfBalanceItem.
Record t := mk {
    FIGI : string;
    Name : string;
    Ticker : string;
    Currency : string;
    OperationAmount : float;
    BrokerCommissionAmount : float;
    CurrentPrice : float;
    PortfolioAmount : float;
    PortfolioQuantity : Z;
    DividendAmount : float;
    DividendTaxAmount : float;
    ServiceCommissionAmount : float;
    BalanceAmount : float
}.
End TcfBalanceItem.

Module TcfTotal.
Record t := mk {
    BalanceAmount : float;
    ServiceCommissionAmount : float;
    TaxBack : float;
    PortfolioAmount : float
}.
End TcfTotal.

(** [TcfBalanceTotal] has the one field [Currencies], so [Total] holds that
    map directly. *)
Module TcfPortfolioBalance.
Record t := mk {
    Items : list TcfBalanceItem.t;
    Total : gmap string TcfTotal.t
}.
End TcfPortfolioBalance.

(** ** Operation filter *)

Fixpoint contains (slice : list string) (item : string) : bool :=
  match slice with
  | [] => false
  | elem :: rest => if String.eqb elem item then true else contains rest item
  end.

Record filterOperationsCriteria := mkCriteria {
  FIGIs : list string;
  Status : string;
  OperationTypes : list string;
  ExcludeFIGIs : list string
}.

(** The condition of the [if] in the loop of [filterOperations]. *)
Definition criteriaMatch (criteria : filterOperationsCriteria) (oper : Operation.t) : bool :=
  (Nat.eqb (length (FIGIs criteria)) 0 || contains (FIGIs criteria) (Operation.FIGI oper))
  && (String.eqb (Status criteria) EmptyString
      || String.eqb (Operation.Status oper) (Status criteria))
  && (Nat.eqb (length (OperationTypes criteria)) 0
      || contains (OperationTypes criteria) (Operation.OperationType oper))
  && (Nat.eqb (length (ExcludeFIGIs criteria)) 0
      || negb (contains (ExcludeFIGIs criteria) (Operation.FIGI oper))).

(** [criteria] is a pointer in the source: [None] is [nil]. *)
Definition filterOperations (operations : list Operation.t)
    (criteria : option filterOperationsCriteria) : list Operation.t :=
  match criteria with
  | None => []
  | Some c =>
      fold_left (fun res oper => if criteriaMatch c oper then res ++ [oper] else res)
                operations []
  end.

(** Criteria literals of the source, which set a single field. *)
Definition byFIGIs (figis : list string) : filterOperationsCriteria :=
  mkCriteria figis EmptyString [] [].
Definition byOperationTypes (types : list string) : filterOperationsCriteria :=
  mkCriteria [] EmptyString types [].

(** ** Operation aggregator *)

Definition aggOperationsByFigi (operations : list Operation.t)
    : gmap string (list Operation.t) :=
  fold_left
    (fun agg oper =>
       if String.eqb (Operation.FIGI oper) EmptyString then agg
       else <[Operation.FIGI oper := default [] (agg !! Operation.FIGI oper) ++ [oper]]> agg)
    operations ∅.

(** ** Numbers *)

(** Go's [int] on a 64-bit platform: results wrap modulo [2^64]. *)
Definition wrap64 (z : Z) : Z := (z + 2 ^ 63) mod 2 ^ 64 - 2 ^ 63.

(** The conversion [float64(n)] of an integer: the nearest binary64 value. *)
Definition float64_of_int (n : Z) : float :=
  SF2Prim (binary_normalize prec emax n 0 false).

(** The conversion [int(x)] of a float: truncation toward zero.  The source
    applies it to [1.0] and [-1.0] only; Go leaves the result for NaN, the
    infinities and values outside the range of [int] to the platform, and
    this model gives [0] for the first two. *)
Definition int_of_float64 (x : float) : Z :=
  match Prim2SF x with
  | S754_finite s m e =>
      wrap64 (cond_Zopp s (if 0 <=? e then Zpos m * 2 ^ e else Zpos m / 2 ^ (- e)))
  | _ => 0
  end.

(** [math.Round]: the nearest integer, halfway cases away from zero; zeros,
    infinities and NaN are returned unchanged.  A finite [x] is
    [m * 2^e] up to sign: for [0 <= e] it is an integer already. *)
Definition Round (x : float) : float :=
  match Prim2SF x with
  | S754_finite s m e =>
      if 0 <=? e then x
      else
        let d := 2 ^ (- e) in
        let n := Zpos m / d + (if d <=? 2 * (Zpos m mod d) then 1 else 0) in
        SF2Prim (binary_normalize prec emax (cond_Zopp s n) 0 s)
  | _ => x
  end.

(** The rounding to two decimals the source writes out at every use:
    [math.Round(100*x) / 100]. *)
Definition round2 (x : float) : float := (Round (100 * x) / 100)%float.

(** ** Time *)

Definition Nanosecond : Z := 1.
Definition Second : Z := 1000000000 * Nanosecond.
Definition Minute : Z := 60 * Second.
Definition Hour : Z := 60 * Minute.

(** [t.Truncate(d)]: [t] rounded down to a multiple of [d] since the zero
    time; [t] itself when [d <= 0]. *)
Definition Truncate (t d : Z) : Z := if d <=? 0 then t else t - t mod d.

(** ** Errors and the brokerage client *)

(** [sdk.CandleInterval], with the three constants the package uses.
    [CandleIntervalZero] is the zero value of the type, which the local
    variable [interval] of [GetCurrentPrice] holds before the first
    request. *)
Inductive CandleInterval :=
  | CandleIntervalZero
  | CandleInterval1Min
  | CandleInterval1Hour
  | CandleInterval1Day.

(** The errors of the package.  [ClientError] stands for whatever the
    client returns; [PriceUnavailable] keeps the four arguments of the
    message [GetCurrentPrice] formats (["Current price cannot be determined
    for FIGI %s and period (%v %v %v). Candles aren't available"]);
    [TimeoutError] is [fmt.Errorf("Timeout error")]. *)
Inductive error :=
  | ClientError (msg : string)
  | PriceUnavailable (figi : string) (from to : Z) (interval : CandleInterval)
  | TimeoutError.

(** One call of [Client.Candles]. *)
Record candlesCall := mkCall {
  callFrom : Z;
  callTo : Z;
  callInterval : CandleInterval;
  callFigi : string
}.

Module Request.
Record t := mk {
    PeriodFrom : Z;
    PeriodTo : Z;
    Figi : string;
    ForPortfolio : bool;
    ExcludeFIGIs : list string
}.
End Request.

(** What [TcfAccount] reaches outside the package: the four calls of the
    REST client, each returning a value or an error, and [time.Now], whose
    [i]-th reading inside one run of [GetCurrentPrice] is [Now i]. *)
Record TcfAccount := mkAccount {
  Now : nat -> Z;
  Candles : Z -> Z -> CandleInterval -> string -> error + list Candle.t;
  SearchInstrumentByFIGI : string -> error + SearchInstrument.t;
  Operations : Z -> Z -> string -> error + list Operation.t;
  Portfolio : error + list string
}.

(** ** Price resolver *)

(** [sort.SliceStable] with [less i j := candles[i].TS.After(candles[j].TS)]:
    a stable sort by decreasing timestamp, as an insertion sort.  A candle
    goes before the first one that is not strictly later than it. *)
Fixpoint insertCandle (c : Candle.t) (sorted : list Candle.t) : list Candle.t :=
  match sorted with
  | [] => [c]
  | d :: rest =>
      if Candle.TS c <? Candle.TS d then d :: insertCandle c rest
      else c :: d :: rest
  end.

Definition sortStable (candles : list Candle.t) : list Candle.t :=
  fold_right insertCandle [] candles.

(** The loop of [candleLatest] returns at its first iteration. *)
Definition candleLatest (candles : list Candle.t) : option Candle.t :=
  match sortStable candles with
  | candle :: _ => Some candle
  | [] => None
  end.

Record candleRq := mkRq {
  Interval : CandleInterval;
  DurationFn : Z;
  TruncateFn : Z
}.

Definition requests : list candleRq :=
  [ mkRq CandleInterval1Min (- 60 * Minute) Minute;
    mkRq CandleInterval1Hour (- 24 * Hour) Hour;
    mkRq CandleInterval1Day (- 24 * 7 * Hour) Hour ].

(** The loop of [GetCurrentPrice] over the requests left, [i] of them
    already made; [from], [to] and [interval] are the local variables of the
    function.  The result is paired with the calls made to the client, in
    order. *)
Fixpoint priceLoop (acc : TcfAccount) (figi : string) (rqs : list candleRq)
    (i : nat) (from to : Z) (interval : CandleInterval)
    : list candlesCall * (error + float) :=
  match rqs with
  | [] => ([], inl (PriceUnavailable figi from to interval))
  | rq :: rest =>
      let now := Truncate (Now acc i) (TruncateFn rq) in
      let from := now + DurationFn rq in
      let to := now in
      let interval := Interval rq in
      let call := mkCall from to interval figi in
      match Candles acc from to interval figi with
      | inl err => ([call], inl err)
      | inr candles =>
          match candleLatest candles with
          | Some candle =>
              if negb (PrimFloat.eqb (Candle.ClosePrice candle) 0)
              then ([call], inr (Candle.ClosePrice candle))
              else
                let '(calls, res) := priceLoop acc figi rest (S i) from to interval in
                (call :: calls, res)
          | None =>
              let '(calls, res) := priceLoop acc figi rest (S i) from to interval in
              (call :: calls, res)
          end
      end
  end.

Definition GetCurrentPriceCalls (acc : TcfAccount) (figi : string)
    : list candlesCall * (error + float) :=
  priceLoop acc figi requests 0 0 0 CandleIntervalZero.

Definition GetCurrentPrice (acc : TcfAccount) (figi : string) : error + float :=
  snd (GetCurrentPriceCalls acc figi).

Definition GetByFigi (acc : TcfAccount) (figi : string) : error + SearchInstrument.t :=
  SearchInstrumentByFIGI acc figi.

(** ** Balance item builder *)

Definition createEmptyBalance : TcfPortfolioBalance.t :=
  TcfPortfolioBalance.mk []
    (<["EUR" := TcfTotal.mk 0 0 0 0]>
       (<["USD" := TcfTotal.mk 0 0 0 0]>
          (<["RUB" := TcfTotal.mk 0 0 0 0]> ∅))).

Definition createBalanceItem (instrument : SearchInstrument.t) : TcfBalanceItem.t :=
  {| TcfBalanceItem.FIGI := SearchInstrument.FIGI instrument;
     TcfBalanceItem.Ticker := SearchInstrument.Ticker instrument;
     TcfBalanceItem.Name := SearchInstrument.Name instrument;
     TcfBalanceItem.Currency := SearchInstrument.Currency instrument;
     TcfBalanceItem.BalanceAmount := 0;
     TcfBalanceItem.OperationAmount := 0;
     TcfBalanceItem.BrokerCommissionAmount := 0;
     TcfBalanceItem.CurrentPrice := 0;
     TcfBalanceItem.PortfolioQuantity := 0;
     TcfBalanceItem.PortfolioAmount := 0;
     TcfBalanceItem.DividendAmount := 0;
     TcfBalanceItem.DividendTaxAmount := 0;
     TcfBalanceItem.ServiceCommissionAmount := 0 |}.

(** The accumulators of the builder, as the fields of the balance item it
    mutates while it runs. *)
Record accumulators := mkAcc {
  accBrokerCommission : float;
  accOperation : float;
  accQuantity : Z;
  accDividend : float;
  accDividendTax : float
}.

(** The local variable [sign] of the first loop. *)
Definition sign (operation : Operation.t) : float :=
  if String.eqb (Operation.OperationType operation) "Sell" then (-1)%float else 1%float.

(** The body of the loop over the buy and sell operations. *)
Definition addTrade (a : accumulators) (operation : Operation.t) : accumulators :=
  mkAcc
    (accBrokerCommission a + abs (Operation.CommissionValue operation))%float
    (accOperation a + sign operation * abs (Operation.Payment operation))%float
    (wrap64 (accQuantity a
             + wrap64 (int_of_float64 (sign operation) * Operation.Quantity operation)))
    (accDividend a)
    (accDividendTax a).

Definition addDividend (a : accumulators) (operation : Operation.t) : accumulators :=
  mkAcc (accBrokerCommission a) (accOperation a) (accQuantity a)
        (accDividend a + abs (Operation.Payment operation))%float
        (accDividendTax a).

Definition addDividendTax (a : accumulators) (operation : Operation.t) : accumulators :=
  mkAcc (accBrokerCommission a) (accOperation a) (accQuantity a)
        (accDividend a)
        (accDividendTax a + abs (Operation.Payment operation))%float.

(** [if balanceItem.PortfolioQuantity < 0 { balanceItem.PortfolioQuantity = 0 }] *)
Definition clampQuantity (q : Z) : Z := if q <? 0 then 0 else q.

Definition tradeTypes : list string := ["Buy"; "BuyCard"; "Sell"].

(** The accumulators after the three loops of the builder; the quantity is
    the one the first loop leaves, before it is clamped. *)
Definition accumulate (figiOperations : list Operation.t) : accumulators :=
  let a1 := fold_left addTrade
              (filterOperations figiOperations (Some (byOperationTypes tradeTypes)))
              (mkAcc 0 0 0 0 0) in
  let a2 := fold_left addDividend
              (filterOperations figiOperations (Some (byOperationTypes ["Dividend"]))) a1 in
  fold_left addDividendTax
    (filterOperations figiOperations (Some (byOperationTypes ["TaxDividend"]))) a2.

(** The balance item the goroutine of [balanceItemToCh] builds once the
    price and the instrument are known. *)
Definition buildBalanceItem (instrument : SearchInstrument.t) (currentPrice : float)
    (figiOperations : list Operation.t) : TcfBalanceItem.t :=
  let a := accumulate figiOperations in
  let quantity := clampQuantity (accQuantity a) in
  let portfolioAmount := (float64_of_int quantity * currentPrice)%float in
  let brokerCommissionAmount := round2 (accBrokerCommission a) in
  let operationAmount := round2 (accOperation a) in
  let portfolioAmount := round2 portfolioAmount in
  let dividendAmount := round2 (accDividend a) in
  let dividendTaxAmount := round2 (accDividendTax a) in
  let b := createBalanceItem instrument in
  {| TcfBalanceItem.FIGI := TcfBalanceItem.FIGI b;
     TcfBalanceItem.Name := TcfBalanceItem.Name b;
     TcfBalanceItem.Ticker := TcfBalanceItem.Ticker b;
     TcfBalanceItem.Currency := TcfBalanceItem.Currency b;
     TcfBalanceItem.OperationAmount := operationAmount;
     TcfBalanceItem.BrokerCommissionAmount := brokerCommissionAmount;
     TcfBalanceItem.CurrentPrice := currentPrice;
     TcfBalanceItem.PortfolioAmount := portfolioAmount;
     TcfBalanceItem.PortfolioQuantity := quantity;
     TcfBalanceItem.DividendAmount := dividendAmount;
     TcfBalanceItem.DividendTaxAmount := dividendTaxAmount;
     TcfBalanceItem.ServiceCommissionAmount := TcfBalanceItem.ServiceCommissionAmount b;
     TcfBalanceItem.BalanceAmount :=
       round2 (portfolioAmount + dividendAmount - dividendTaxAmount
               - operationAmount - brokerCommissionAmount)%float |}.

(** What the goroutine sends, and on which channel. *)
Inductive message :=
  | ToBalanceItemCh (balanceItem : TcfBalanceItem.t)
  | ToErrorCh (err : error).

Definition balanceItemToCh (acc : TcfAccount) (figi : string)
    (operations : list Operation.t) : message :=
  let figiOperations := filterOperations operations (Some (byFIGIs [figi])) in
  match GetCurrentPrice acc figi with
  | inl err => ToErrorCh err
  | inr currentPrice =>
      match GetByFigi acc figi with
      | inl err => ToErrorCh err
      | inr instrument =>
          ToBalanceItemCh (buildBalanceItem instrument currentPrice figiOperations)
      end
  end.

(** ** Fetching the operations *)

Definition GetOperations (acc : TcfAccount) (request : Request.t)
    : error + list Operation.t :=
  match Operations acc (Request.PeriodFrom request) (Request.PeriodTo request)
                   (Request.Figi request) with
  | inl err => inl err
  | inr operations =>
      let criteria := mkCriteria [] "Done" [] (Request.ExcludeFIGIs request) in
      if Request.ForPortfolio request then
        match Portfolio acc with
        | inl err => inl err
        | inr positions =>
            let criteria :=
              mkCriteria ((FIGIs criteria ++ [EmptyString]) ++ positions)
                         (Status criteria) (OperationTypes criteria)
                         (ExcludeFIGIs criteria) in
            inr (filterOperations operations (Some criteria))
        end
      else inr (filterOperations operations (Some criteria))
  end.

(** ** Fan-out collector and roll-up *)

(** The result of [GetPortfolioBalance]: the pair [(balance, nil)], the pair
    [(nil, err)], or the run-time panic of a nil pointer dereference. *)
Inductive outcome :=
  | Report (balance : TcfPortfolioBalance.t)
  | Failure (err : error)
  | Panic.

(** A loop whose body may panic. *)
Fixpoint foldPanic {A B : Type} (f : A -> B -> option A) (l : list B) (a : A) : option A :=
  match l with
  | [] => Some a
  | x :: rest =>
      match f a x with
      | Some a' => foldPanic f rest a'
      | None => None
      end
  end.

(** [balance.Total.Currencies[c]] followed by a field access: the map
    yields a nil pointer for a missing key, and the access panics. *)
Definition addBalanceItem (balance : TcfPortfolioBalance.t) (balanceItem : TcfBalanceItem.t)
    : option TcfPortfolioBalance.t :=
  let currency := TcfBalanceItem.Currency balanceItem in
  match TcfPortfolioBalance.Total balance !! currency with
  | None => None
  | Some total =>
      Some (TcfPortfolioBalance.mk
              (TcfPortfolioBalance.Items balance ++ [balanceItem])
              (<[currency :=
                   TcfTotal.mk
                     (TcfTotal.BalanceAmount total + TcfBalanceItem.BalanceAmount balanceItem)%float
                     (TcfTotal.ServiceCommissionAmount total)
                     (TcfTotal.TaxBack total)
                     (TcfTotal.PortfolioAmount total + TcfBalanceItem.PortfolioAmount balanceItem)%float]>
                 (TcfPortfolioBalance.Total balance)))
  end.

Definition addServiceCommission (totals : gmap string TcfTotal.t) (operation : Operation.t)
    : option (gmap string TcfTotal.t) :=
  let currency := Operation.Currency operation in
  match totals !! currency with
  | None => None
  | Some total =>
      Some (<[currency :=
                TcfTotal.mk
                  (TcfTotal.BalanceAmount total - abs (Operation.Payment operation))%float
                  (TcfTotal.ServiceCommissionAmount total + abs (Operation.Payment operation))%float
                  (TcfTotal.TaxBack total)
                  (TcfTotal.PortfolioAmount total)]> totals)
  end.

Definition addTaxBack (totals : gmap string TcfTotal.t) (operation : Operation.t)
    : option (gmap string TcfTotal.t) :=
  let currency := Operation.Currency operation in
  match totals !! currency with
  | None => None
  | Some total =>
      Some (<[currency :=
                TcfTotal.mk
                  (TcfTotal.BalanceAmount total + abs (Operation.Payment operation))%float
                  (TcfTotal.ServiceCommissionAmount total)
                  (TcfTotal.TaxBack total + abs (Operation.Payment operation))%float
                  (TcfTotal.PortfolioAmount total)]> totals)
  end.

Definition roundTotal (total : TcfTotal.t) : TcfTotal.t :=
  TcfTotal.mk (round2 (TcfTotal.BalanceAmount total))
              (round2 (TcfTotal.ServiceCommissionAmount total))
              (round2 (TcfTotal.TaxBack total))
              (round2 (TcfTotal.PortfolioAmount total)).

(** What one [select] of the collection loop takes. *)
Inductive received :=
  | FromBalanceItemsCh (balanceItem : TcfBalanceItem.t)
  | FromErrorCh (err : error)
  | AfterTimeout.

(** The goroutines run concurrently and the channels are unbuffered, so
    which sender a [select] takes is not fixed by the program.  A schedule
    resolves it: [Some k] lets the [k]-th sender still pending through,
    [None] (or a [k] with no such sender) lets the 20 second timer fire. *)
Definition select (pick : option nat) (pending : list message) : received * list message :=
  match pick with
  | Some k =>
      match pending !! k with
      | Some (ToBalanceItemCh balanceItem) => (FromBalanceItemsCh balanceItem, delete k pending)
      | Some (ToErrorCh err) => (FromErrorCh err, delete k pending)
      | None => (AfterTimeout, pending)
      end
  | None => (AfterTimeout, pending)
  end.

(** The loop [for i := 0; i < len(aggOperations); i++ { select ... }] with
    [n] iterations left.  [inr] is the balance the code after the loop goes
    on with, [inl] an early return or a panic. *)
Fixpoint collect (n : nat) (sched : list (option nat)) (pending : list message)
    (balance : TcfPortfolioBalance.t) : outcome + TcfPortfolioBalance.t :=
  match n with
  | O => inr balance
  | S n' =>
      match select (hd None sched) pending with
      | (FromBalanceItemsCh balanceItem, pending') =>
          match addBalanceItem balance balanceItem with
          | Some balance' => collect n' (tl sched) pending' balance'
          | None => inl Panic
          end
      | (FromErrorCh err, _) => inl (Failure err)
      | (AfterTimeout, _) => inl (Failure TimeoutError)
      end
  end.

(** The code of [GetPortfolioBalance] after the collection loop. *)
Definition rollUp (operations : list Operation.t) (balance : TcfPortfolioBalance.t) : outcome :=
  match foldPanic addServiceCommission
          (filterOperations operations (Some (byOperationTypes ["ServiceCommission"])))
          (TcfPortfolioBalance.Total balance) with
  | None => Panic
  | Some totals =>
      match foldPanic addTaxBack
              (filterOperations operations (Some (byOperationTypes ["TaxBack"]))) totals with
      | None => Panic
      | Some totals =>
          Report (TcfPortfolioBalance.mk (TcfPortfolioBalance.Items balance)
                                         (roundTotal <$> totals))
      end
  end.

(** One goroutine per entry of the aggregated map. *)
Definition launch (acc : TcfAccount) (aggOperations : gmap string (list Operation.t))
    : list message :=
  (fun entry => balanceItemToCh acc (fst entry) (snd entry)) <$> map_to_list aggOperations.

(** The aggregation from the operations on. *)
Definition aggregate (acc : TcfAccount) (sched : list (option nat))
    (operations : list Operation.t) : outcome :=
  let aggOperations := aggOperationsByFigi operations in
  let balance := createEmptyBalance in
  match collect (size aggOperations) sched (launch acc aggOperations) balance with
  | inl early => early
  | inr balance => rollUp operations balance
  end.

Definition GetPortfolioBalance (acc : TcfAccount) (sched : list (option nat))
    (request : Request.t) : outcome :=
  match GetOperations acc request with
  | inl err => Failure err
  | inr operations => aggregate acc sched operations
  end.

(** ** The properties, as predicates *)

(** The conjunction of the criteria fields that are set (section 4.1 of the
    specification), for one operation. *)
Definition satisfies (criteria : filterOperationsCriteria) (oper : Operation.t) : Prop :=
  (FIGIs criteria = [] \/ Operation.FIGI oper ∈ FIGIs criteria)
  /\ (Status criteria = EmptyString \/ Operation.Status oper = Status criteria)
  /\ (OperationTypes criteria = []
      \/ Operation.OperationType oper ∈ OperationTypes criteria)
  /\ (ExcludeFIGIs criteria = [] \/ Operation.FIGI oper ∉ ExcludeFIGIs criteria).


(** The exact value of [c] is the whole number [k], with the sign [s]. *)
Definition wholeValue (c : float) (s : bool) (k : Z) : Prop :=
  match Prim2SF c with
  | S754_zero s' => s' = s /\ k = 0
  | S754_finite s' m e => s' = s /\ e <= 0 /\ Zpos m = k * 2 ^ (- e)
  | _ => False
  end.

(** [c] is [y] rounded to the nearest whole number, a value halfway between
    two going to the one away from zero; a [y] with no fractional part, an
    infinity or NaN is left as it is.  A finite [y] is [m * 2^e] up to its
    sign. *)
Definition nearestInteger (y c : float) : Prop :=
  match Prim2SF y with
  | S754_finite s m e =>
      if 0 <=? e then c = y
      else exists k : Z,
             (2 * k - 1) * 2 ^ (- e) <= 2 * Zpos m < (2 * k + 1) * 2 ^ (- e)
             /\ wholeValue c s k
  | _ => c = y
  end.

(** [v] is [raw] rounded to two decimals: the binary64 quotient by 100 of
    the whole number of cents nearest to the binary64 product [100 * raw]. *)
Definition roundsTo2 (raw v : float) : Prop :=
  exists cents : float, nearestInteger (100 * raw) cents /\ v = (cents / 100)%float.

(** A value that is some value rounded to two decimals. *)
Definition rounded (x : float) : Prop := exists raw, roundsTo2 raw x.

(** The invariant of a balance line (section 3 of the specification): the
    balance amount is the combination of the five amounts rounded to two
    decimals, by the expression of the source and by what that expression
    computes; the portfolio amount is the rounded value of the holding, and
    the four other amounts are rounded values. *)
Definition balanceInvariant (b : TcfBalanceItem.t) : Prop :=
  let combination :=
    (TcfBalanceItem.PortfolioAmount b + TcfBalanceItem.DividendAmount b
     - TcfBalanceItem.DividendTaxAmount b - TcfBalanceItem.OperationAmount b
     - TcfBalanceItem.BrokerCommissionAmount b)%float in
  TcfBalanceItem.BalanceAmount b = round2 combination
  /\ roundsTo2 combination (TcfBalanceItem.BalanceAmount b)
  /\ roundsTo2 (float64_of_int (TcfBalanceItem.PortfolioQuantity b)
                * TcfBalanceItem.CurrentPrice b)%float
               (TcfBalanceItem.PortfolioAmount b)
  /\ rounded (TcfBalanceItem.DividendAmount b)
  /\ rounded (TcfBalanceItem.DividendTaxAmount b)
  /\ rounded (TcfBalanceItem.OperationAmount b)
  /\ rounded (TcfBalanceItem.BrokerCommissionAmount b).

(** The signed quantity of a buy or a sell, and the net signed quantity of
    the buys and sells of a list, as integers without bound. *)
Definition signedQuantity (operation : Operation.t) : Z :=
  if String.eqb (Operation.OperationType operation) "Sell"
  then - Operation.Quantity operation
  else Operation.Quantity operation.

Definition netQuantity (figiOperations : list Operation.t) : Z :=
  fold_right Z.add 0
    (signedQuantity <$> filterOperations figiOperations (Some (byOperationTypes tradeTypes))).

(** A float that is neither NaN nor an infinity. *)
Definition finite64 (x : float) : Prop :=
  match Prim2SF x with
  | S754_zero _ | S754_finite _ _ _ => True
  | S754_infinity _ | S754_nan => False
  end.

(** ** A run: one instrument bought once

    The scenario of section 8 of the specification: ten units bought for
    1000 with a commission of 5, the price now 120. *)
Module Scenario.

Definition buyA : Operation.t :=
  Operation.mk "FIGI-A" "Done" "Buy" "USD" (-1000) (-5) 10.

Definition sellA : Operation.t :=
  Operation.mk "FIGI-A" "Done" "Sell" "USD" 700 (-3) 6.

Definition sellHuge : Operation.t :=
  Operation.mk "FIGI-A" "Done" "Sell" "USD" 1 0 (2 ^ 62).

Definition instrumentA : SearchInstrument.t :=
  SearchInstrument.mk "FIGI-A" "AAA" "Instrument A" "USD".

(** A client that has candles by day only. *)
Definition account : TcfAccount :=
  {| Now := fun _ => 1000 * Hour + 25 * Minute;
     Candles := fun from to interval figi =>
       match interval with
       | CandleInterval1Day => inr [Candle.mk (900 * Hour) 110; Candle.mk (990 * Hour) 120]
       | _ => inr []
       end;
     SearchInstrumentByFIGI := fun figi => inr instrumentA;
     Operations := fun from to figi => inr [buyA];
     Portfolio := inr [] |}.

Definition request : Request.t := Request.mk 0 (1000 * Hour) EmptyString false [].

(** A second instrument, whose candles the client fails to fetch. *)
Definition buyB : Operation.t :=
  Operation.mk "FIGI-B" "Done" "Buy" "USD" (-50) (-1) 2.

Definition fetchFailed : error := ClientError "candles: deadline exceeded".

Definition accountB : TcfAccount :=
  {| Now := Now account;
     Candles := fun from to interval figi =>
       if String.eqb figi "FIGI-B" then inl fetchFailed
       else Candles account from to interval figi;
     SearchInstrumentByFIGI := SearchInstrumentByFIGI account;
     Operations := fun from to figi => inr [buyA; buyB];
     Portfolio := inr [] |}.

(** A client that has candles by the hour over seven days, and no other. *)
Definition accountHourly : TcfAccount :=
  {| Now := Now account;
     Candles := fun from to interval figi =>
       match interval with
       | CandleInterval1Hour =>
           if to - from =? 7 * 24 * Hour then inr [Candle.mk (990 * Hour) 120] else inr []
       | _ => inr []
       end;
     SearchInstrumentByFIGI := SearchInstrumentByFIGI account;
     Operations := Operations account;
     Portfolio := inr [] |}.

(** A client that has no candle at all. *)
Definition accountEmpty : TcfAccount :=
  {| Now := Now account;
     Candles := fun from to interval figi => inr [];
     SearchInstrumentByFIGI := SearchInstrumentByFIGI account;
     Operations := Operations account;
     Portfolio := inr [] |}.

(** A client whose candles by the minute end on one that closes at zero,
    after one that closes at 5. *)
Definition accountStale : TcfAccount :=
  {| Now := Now account;
     Candles := fun from to interval figi =>
       match interval with
       | CandleInterval1Min => inr [Candle.mk (999 * Hour) 5; Candle.mk (1000 * Hour) 0]
       | _ => inr [Candle.mk (990 * Hour) 7]
       end;
     SearchInstrumentByFIGI := SearchInstrumentByFIGI account;
     Operations := Operations account;
     Portfolio := inr [] |}.

(** An instrument quoted in a currency that is not seeded. *)
Definition accountGBP : TcfAccount :=
  {| Now := Now account;
     Candles := Candles account;
     SearchInstrumentByFIGI := fun figi =>
       inr (SearchInstrument.mk "FIGI-A" "AAA" "Instrument A" "GBP");
     Operations := Operations account;
     Portfolio := inr [] |}.

(** The client of the second scenario, with the first instrument quoted in
    a currency that is not seeded. *)
Definition accountGBPB : TcfAccount :=
  {| Now := Now accountB;
     Candles := Candles accountB;
     SearchInstrumentByFIGI := SearchInstrumentByFIGI accountGBP;
     Operations := Operations accountB;
     Portfolio := inr [] |}.

Definition lineA : TcfBalanceItem.t :=
  {| TcfBalanceItem.FIGI := "FIGI-A";
     TcfBalanceItem.Name := "Instrument A";
     TcfBalanceItem.Ticker := "AAA";
     TcfBalanceItem.Currency := "USD";
     TcfBalanceItem.OperationAmount := 1000;
     TcfBalanceItem.BrokerCommissionAmount := 5;
     TcfBalanceItem.CurrentPrice := 120;
     TcfBalanceItem.PortfolioAmount := 1200;
     TcfBalanceItem.PortfolioQuantity := 10;
     TcfBalanceItem.DividendAmount := 0;
     TcfBalanceItem.DividendTaxAmount := 0;
     TcfBalanceItem.ServiceCommissionAmount := 0;
     TcfBalanceItem.BalanceAmount := 195 |}.

Definition lineGBP : TcfBalanceItem.t :=
  buildBalanceItem (SearchInstrument.mk "FIGI-A" "AAA" "Instrument A" "GBP") 120 [buyA].

Definition report : TcfPortfolioBalance.t :=
  TcfPortfolioBalance.mk [lineA]
    (<["EUR" := TcfTotal.mk 0 0 0 0]>
       (<["USD" := TcfTotal.mk 195 0 0 1200]>
          (<["RUB" := TcfTotal.mk 0 0 0 0]> ∅))).

(** A dividend of the first instrument, and a monthly service commission
    of the account, which carries no instrument. *)
Definition dividendA : Operation.t :=
  Operation.mk "FIGI-A" "Done" "Dividend" "USD" 12 0 0.

Definition commissionRUB : Operation.t :=
  Operation.mk EmptyString "Done" "ServiceCommission" "RUB" (-99) 0 0.

End Scenario.

(** ** A run with amounts that are not whole

    Two instruments in dollars, bought at prices and with commissions that
    have more than two decimals, a dividend and its tax, a service
    commission and a tax refund in dollars, a service commission in
    roubles.  Amounts with two decimals are written in hexadecimal, as the
    binary64 values nearest to them. *)
Module Cents.

Definition buyC : Operation.t :=
  Operation.mk "FIGI-C" "Done" "Buy" "USD" (-1000.0078125) (-5.005859375) 3.

Definition dividendC : Operation.t :=
  Operation.mk "FIGI-C" "Done" "Dividend" "USD" 12.34375 0 0.

Definition taxC : Operation.t :=
  Operation.mk "FIGI-C" "Done" "TaxDividend" "USD" (-1.60546875) 0 0.

Definition buyD : Operation.t :=
  Operation.mk "FIGI-D" "Done" "Buy" "USD" (-250.55078125) (-0.126953125) 7.

Definition commissionUSD : Operation.t :=
  Operation.mk EmptyString "Done" "ServiceCommission" "USD" (-0.33203125) 0 0.

Definition taxBackUSD : Operation.t :=
  Operation.mk EmptyString "Done" "TaxBack" "USD" 1.1171875 0 0.

Definition operations : list Operation.t :=
  [buyC; buyD; dividendC; commissionUSD; taxC; taxBackUSD; Scenario.commissionRUB].

Definition account : TcfAccount :=
  {| Now := Now Scenario.account;
     Candles := fun from to interval figi =>
       if String.eqb figi "FIGI-C" then inr [Candle.mk (999 * Hour) 401.109375]
       else inr [Candle.mk (999 * Hour) 35.7890625];
     SearchInstrumentByFIGI := fun figi =>
       if String.eqb figi "FIGI-C"
       then inr (SearchInstrument.mk "FIGI-C" "CCC" "Instrument C" "USD")
       else inr (SearchInstrument.mk "FIGI-D" "DDD" "Instrument D" "USD");
     Operations := fun from to figi => inr operations;
     Portfolio := inr [] |}.

(** 3 units at 401.109375: 1203.33 held, 1000.01 paid, 5.01 of commission,
    12.34 of dividend, 1.61 of tax on it, a balance of 209.04. *)
Definition lineC : TcfBalanceItem.t :=
  {| TcfBalanceItem.FIGI := "FIGI-C";
     TcfBalanceItem.Name := "Instrument C";
     TcfBalanceItem.Ticker := "CCC";
     TcfBalanceItem.Currency := "USD";
     TcfBalanceItem.OperationAmount := 0x1.f40147ae147aep+9;
     TcfBalanceItem.BrokerCommissionAmount := 0x1.40a3d70a3d70ap+2;
     TcfBalanceItem.CurrentPrice := 401.109375;
     TcfBalanceItem.PortfolioAmount := 0x1.2cd51eb851eb8p+10;
     TcfBalanceItem.PortfolioQuantity := 3;
     TcfBalanceItem.DividendAmount := 0x1.8ae147ae147aep+3;
     TcfBalanceItem.DividendTaxAmount := 0x1.9c28f5c28f5c3p+0;
     TcfBalanceItem.ServiceCommissionAmount := 0;
     TcfBalanceItem.BalanceAmount := 0x1.a2147ae147ae1p+7 |}.

(** 7 units at 35.7890625: 250.52 held, 250.55 paid, 0.13 of commission, a
    balance of -0.16. *)
Definition lineD : TcfBalanceItem.t :=
  {| TcfBalanceItem.FIGI := "FIGI-D";
     TcfBalanceItem.Name := "Instrument D";
     TcfBalanceItem.Ticker := "DDD";
     TcfBalanceItem.Currency := "USD";
     TcfBalanceItem.OperationAmount := 0x1.f51999999999ap+7;
     TcfBalanceItem.BrokerCommissionAmount := 0x1.0a3d70a3d70a4p-3;
     TcfBalanceItem.CurrentPrice := 35.7890625;
     TcfBalanceItem.PortfolioAmount := 0x1.f50a3d70a3d71p+7;
     TcfBalanceItem.PortfolioQuantity := 7;
     TcfBalanceItem.DividendAmount := 0;
     TcfBalanceItem.DividendTaxAmount := 0;
     TcfBalanceItem.ServiceCommissionAmount := 0;
     TcfBalanceItem.BalanceAmount := -0x1.47ae147ae147bp-3 |}.

(** In dollars: a balance of 209.67 (209.04 - 0.16 - 0.33203125
    + 1.1171875, rounded), 0.33 of service commission, 1.12 of tax refund,
    1453.85 held.  In roubles: the commission of 99. *)
Definition totalUSD : TcfTotal.t :=
  TcfTotal.mk 0x1.a3570a3d70a3dp+7 0x1.51eb851eb851fp-2 0x1.1eb851eb851ecp+0
              0x1.6b76666666666p+10.

Definition report : TcfPortfolioBalance.t :=
  TcfPortfolioBalance.mk [lineC; lineD]
    (<["EUR" := TcfTotal.mk 0 0 0 0]>
       (<["USD" := totalUSD]>
          (<["RUB" := TcfTotal.mk (-99) 99 0 0]> ∅))).

End Cents.

(** ** The totals of a currency, as sums *)

(** The currencies [createEmptyBalance] seeds. *)
Definition seededCurrencies : list string := ["RUB"; "USD"; "EUR"].

(** The elements of a list that carry the currency [c]. *)
Definition ofCurrency {A : Type} (currency : A -> string) (c : string) (l : list A) : list A :=
  List.filter (fun x => String.eqb (currency x) c) l.

Definition serviceCommissions (operations : list Operation.t) : list Operation.t :=
  filterOperations operations (Some (byOperationTypes ["ServiceCommission"])).

Definition taxBacks (operations : list Operation.t) : list Operation.t :=
  filterOperations operations (Some (byOperationTypes ["TaxBack"])).

(** The sum of the absolute payments of a list of operations, from [start],
    added or subtracted one at a time in list order. *)
Definition addPayments (l : list Operation.t) (start : float) : float :=
  fold_left (fun s operation => (s + abs (Operation.Payment operation))%float) l start.

Definition subPayments (l : list Operation.t) (start : float) : float :=
  fold_left (fun s operation => (s - abs (Operation.Payment operation))%float) l start.

Definition sumBalanceAmounts (l : list TcfBalanceItem.t) (start : float) : float :=
  fold_left (fun s b => (s + TcfBalanceItem.BalanceAmount b)%float) l start.

Definition sumPortfolioAmounts (l : list TcfBalanceItem.t) (start : float) : float :=
  fold_left (fun s b => (s + TcfBalanceItem.PortfolioAmount b)%float) l start.

(** The balance of the currency [c] before the final rounding: the balance
    amounts of its lines, less its service commissions, plus its tax
    refunds. *)
Definition currencyBalance (c : string) (items : list TcfBalanceItem.t)
    (operations : list Operation.t) : float :=
  addPayments (ofCurrency Operation.Currency c (taxBacks operations))
    (subPayments (ofCurrency Operation.Currency c (serviceCommissions operations))
       (sumBalanceAmounts (ofCurrency TcfBalanceItem.Currency c items) 0)).

(** The shape the three updates of the totals share: look the entry of the
    key up, panic when there is none, store the updated entry. *)
Definition updateAt {B : Type} (key : B -> string) (upd : TcfTotal.t -> B -> TcfTotal.t)
    (totals : gmap string TcfTotal.t) (x : B) : option (gmap string TcfTotal.t) :=
  match totals !! key x with
  | None => None
  | Some total => Some (<[key x := upd total x]> totals)
  end.

Definition updItem (total : TcfTotal.t) (balanceItem : TcfBalanceItem.t) : TcfTotal.t :=
  TcfTotal.mk
    (TcfTotal.BalanceAmount total + TcfBalanceItem.BalanceAmount balanceItem)%float
    (TcfTotal.ServiceCommissionAmount total)
    (TcfTotal.TaxBack total)
    (TcfTotal.PortfolioAmount total + TcfBalanceItem.PortfolioAmount balanceItem)%float.

Definition updServiceCommission (total : TcfTotal.t) (operation : Operation.t) : TcfTotal.t :=
  TcfTotal.mk
    (TcfTotal.BalanceAmount total - abs (Operation.Payment operation))%float
    (TcfTotal.ServiceCommissionAmount total + abs (Operation.Payment operation))%float
    (TcfTotal.TaxBack total)
    (TcfTotal.PortfolioAmount total).

Definition updTaxBack (total : TcfTotal.t) (operation : Operation.t) : TcfTotal.t :=
  TcfTotal.mk
    (TcfTotal.BalanceAmount total + abs (Operation.Payment operation))%float
    (TcfTotal.ServiceCommissionAmount total)
    (TcfTotal.TaxBack total + abs (Operation.Payment operation))%float
    (TcfTotal.PortfolioAmount total).

(** ** The collection loop against the clock

    Each goroutine is ready to send from some instant on.  A [select] that
    starts at [now] arms its own timer, [time.After(20 * time.Second)], and
    takes the sender that is ready first if that one is ready before the
    timer fires; the loop goes on at the instant of the receive. *)

Definition collectTimeout : Z := 20 * Second.

(** The position and the instant of the sender that is ready first (the
    first of them in the list when several are ready at once). *)
Fixpoint earliest (pending : list (Z * message)) : option (nat * Z) :=
  match pending with
  | [] => None
  | (ready, _) :: rest =>
      match earliest rest with
      | Some (k, ready') => if ready' <? ready then Some (S k, ready') else Some (O, ready)
      | None => Some (O, ready)
      end
  end.

(** What the [select] starting at [now] takes, and when. *)
Definition timedPick (now : Z) (pending : list (Z * message)) : option nat * Z :=
  match earliest pending with
  | Some (k, ready) =>
      if ready <? now + collectTimeout then (Some k, Z.max now ready)
      else (None, now + collectTimeout)
  | None => (None, now + collectTimeout)
  end.

(** The schedule the clock gives to a loop of [n] iterations that starts at
    [now], with the instant at which the loop ends. *)
Fixpoint timedSchedule (n : nat) (now : Z) (pending : list (Z * message))
    : list (option nat) * Z :=
  match n with
  | O => ([], now)
  | S n' =>
      match timedPick now pending with
      | (Some k, now') =>
          match pending !! k with
          | Some (_, ToBalanceItemCh _) =>
              let '(sched, finish) := timedSchedule n' now' (delete k pending) in
              (Some k :: sched, finish)
          | _ => ([Some k], now')
          end
      | (None, now') => ([None], now')
      end
  end.

(** The claim of a single timeout for the whole loop: if some goroutine is
    not ready within 20 seconds of the start of the loop, the loop returns
    the timeout error. *)
Definition globalTimeout : Prop :=
  forall (n : nat) (now : Z) (pending : list (Z * message)) (balance : TcfPortfolioBalance.t),
    length pending = n ->
    (exists ready m, (ready, m) ∈ pending /\ now + collectTimeout < ready) ->
    collect n (fst (timedSchedule n now pending)) (snd <$> pending) balance
    = inl (Failure TimeoutError).

(** ** The windows of the price resolver, as the specification lists them *)

(** Section 4.3: the last 60 minutes by the minute, the last 24 hours by
    the hour, the last 7 days by the hour; each a granularity and a
    lookback. *)
Definition specWindows : list (CandleInterval * Z) :=
  [ (CandleInterval1Min, 60 * Minute);
    (CandleInterval1Hour, 24 * Hour);
    (CandleInterval1Hour, 7 * 24 * Hour) ].

(** The windows the requests of the source describe. *)
Definition requestWindows : list (CandleInterval * Z) :=
  (fun rq => (Interval rq, - DurationFn rq)) <$> requests.

(** A window has no price: no candle, or a latest candle that closes at
    zero. *)
Definition noPrice (candles : list Candle.t) : Prop :=
  match candleLatest candles with
  | Some candle => (Candle.ClosePrice candle =? 0)%float = true
  | None => True
  end.

(** The error names the window of a call: its arguments are those of the
    call. *)
Definition namesWindow (err : error) (call : candlesCall) : Prop :=
  err = PriceUnavailable (callFigi call) (callFrom call) (callTo call) (callInterval call).

(** The three calls of a run of [GetCurrentPrice] that goes through all its
    requests. *)
Definition call1 (acc : TcfAccount) (figi : string) : candlesCall :=
  let now := Truncate (Now acc 0) Minute in
  mkCall (now - 60 * Minute) now CandleInterval1Min figi.

Definition call2 (acc : TcfAccount) (figi : string) : candlesCall :=
  let now := Truncate (Now acc 1) Hour in
  mkCall (now - 24 * Hour) now CandleInterval1Hour figi.

Definition call3 (acc : TcfAccount) (figi : string) : candlesCall :=
  let now := Truncate (Now acc 2) Hour in
  mkCall (now - 7 * 24 * Hour) now CandleInterval1Day figi.

(** The answer of the client to a call. *)
Definition answer (acc : TcfAccount) (call : candlesCall) : error + list Candle.t :=
  Candles acc (callFrom call) (callTo call) (callInterval call) (callFigi call).

(** The senders that hold a balance line. *)
Definition isItem (m : message) : bool :=
  match m with
  | ToBalanceItemCh _ => true
  | ToErrorCh _ => false
  end.

Definition countItems (pending : list message) : nat :=
  length (List.filter isItem pending).

(** The totals have an entry for exactly the seeded currencies. *)
Definition seededOnly (totals : gmap string TcfTotal.t) : Prop :=
  forall c, is_Some (totals !! c) <-> c ∈ seededCurrencies.

(** The granularity and the length of the window of each call. *)
Definition windowsOf (calls : list candlesCall) : list (CandleInterval * Z) :=
  (fun call => (callInterval call, callTo call - callFrom call)) <$> calls.

(** The two statements of the specification about the resolver that the
    code does not bear out: a result that is not empty and does not close at
    zero throughout is never passed over, and the error of an exhausted
    resolver names every window tried. *)
Definition allZeroClose (candles : list Candle.t) : Prop :=
  Forall (fun candle => (Candle.ClosePrice candle =? 0)%float = true) candles.

Definition advancesOnlyOnAllZero : Prop :=
  forall acc figi candles,
    answer acc (call1 acc figi) = inr candles ->
    ~ allZeroClose candles ->
    fst (GetCurrentPriceCalls acc figi) = [call1 acc figi].

Definition namesWindowsTried : Prop :=
  forall acc figi calls err,
    GetCurrentPriceCalls acc figi = (calls, inl err) ->
    length calls = 3%nat ->
    Forall (namesWindow err) calls.

(** ** Definitions for the further properties *)

(** The operations of a list that carry the instrument [figi], in order;
    none for the empty identifier. *)
Definition groupOf (figi : string) (operations : list Operation.t) : list Operation.t :=
  if String.eqb figi EmptyString then []
  else List.filter (fun oper => String.eqb (Operation.FIGI oper) figi) operations.

(** The body of the loop of [aggOperationsByFigi]. *)
Definition aggStep (agg : gmap string (list Operation.t)) (oper : Operation.t)
    : gmap string (list Operation.t) :=
  if String.eqb (Operation.FIGI oper) EmptyString then agg
  else <[Operation.FIGI oper := default [] (agg !! Operation.FIGI oper) ++ [oper]]> agg.

(** No candle of the sorted slice is earlier than one that follows it. *)
Definition notEarlier (c d : Candle.t) : Prop := Candle.TS d <= Candle.TS c.

(** The window a request describes: its granularity and its lookback. *)
Definition windowOf (rq : candleRq) : CandleInterval * Z := (Interval rq, - DurationFn rq).

(** What holds of a run of the loop of [GetCurrentPrice] over the requests
    [rqs]: the calls it made and the result it returned. *)
Definition resolved (acc : TcfAccount) (figi : string) (rqs : list candleRq)
    (calls : list candlesCall) (res : error + float) : Prop :=
  (length calls <= length rqs)%nat
  /\ (rqs <> [] -> calls <> [])
  /\ Forall (fun call => callFigi call = figi) calls
  /\ windowsOf calls `prefix_of` (windowOf <$> rqs)
  /\ forall price, res = inr price ->
       (price =? 0)%float = false
       /\ exists call candles candle,
            last calls = Some call
            /\ answer acc call = inr candles
            /\ candleLatest candles = Some candle
            /\ price = Candle.ClosePrice candle.

(** The criteria [GetOperations] filters with. *)
Definition operationsCriteria (request : Request.t) (positions : list string)
    : filterOperationsCriteria :=
  mkCriteria (if Request.ForPortfolio request then EmptyString :: positions else [])
             "Done" [] (Request.ExcludeFIGIs request).

(** The kinds of operation the builder reads. *)
Definition builderTypes : list string := tradeTypes ++ ["Dividend"; "TaxDividend"].

Definition ofTypes (types : list string) (oper : Operation.t) : bool :=
  contains types (Operation.OperationType oper).

(** The position of a rational [num / den] against the integer [m]:
    at [m], in the lower half of [[m, m+1)], at its middle, in its upper
    half. *)
Definition located (m num den : Z) (l : location) : Prop :=
  0 < den /\
  match l with
  | loc_Exact => num = m * den
  | loc_Inexact Lt => m * den < num /\ 2 * num < (2 * m + 1) * den
  | loc_Inexact Eq => 2 * num = (2 * m + 1) * den
  | loc_Inexact Gt => (2 * m + 1) * den < 2 * num /\ num < (m + 1) * den
  end.

(** The mantissa of [100] is [100 * 2^46], its exponent [-46]. *)
Definition m100 : positive := 7036874417766400.

(** The float [math.Round] builds from a sign and an integer. *)
Definition intFloat (s : bool) (n : Z) : float :=
  SF2Prim (binary_normalize prec emax (cond_Zopp s n) 0 s).

(** The claim of the specification: the error of a failed computation is
    what the call returns. *)
Definition returnsTheError : Prop :=
  forall (acc : TcfAccount) (sched : list (option nat)) (operations : list Operation.t)
         (err : error),
    ToErrorCh err ∈ launch acc (aggOperationsByFigi operations) ->
    aggregate acc sched operations = Failure err.

(** The claim of the specification: the rounding is idempotent on every
    input. *)
Definition round2Idempotent : Prop := forall x : float, round2 (round2 x) = round2 x.

(* ===================================================================== *)
(** * Proofs *)

(** ** Operation filter *)

Lemma contains_elem_of (slice : list string) (item : string) :
  contains slice item = true <-> item ∈ slice.
Proof.
  induction slice as [|elem rest IH]; simpl.
  - split; [discriminate | intros H; inversion H].
  - destruct (String.eqb_spec elem item) as [->|Hne].
    + split; [left | reflexivity].
    + rewrite IH, elem_of_cons. split; [tauto | intros [Heq | H]; congruence].
Qed.

Lemma length_eqb_nil {A} (l : list A) : Nat.eqb (length l) 0 = true <-> l = [].
Proof. destruct l; simpl; split; congruence. Qed.

Lemma criteriaMatch_satisfies (criteria : filterOperationsCriteria) (oper : Operation.t) :
  criteriaMatch criteria oper = true <-> satisfies criteria oper.
Proof.
  unfold criteriaMatch, satisfies.
  rewrite !andb_true_iff, !orb_true_iff, negb_true_iff, !length_eqb_nil,
    !contains_elem_of, !String.eqb_eq.
  rewrite <- not_true_iff_false, contains_elem_of. tauto.
Qed.

Lemma fold_left_keep {A} (keep : A -> bool) (l res : list A) :
  fold_left (fun res x => if keep x then res ++ [x] else res) l res
  = res ++ List.filter keep l.
Proof.
  revert res. induction l as [|x l IH]; intros res; simpl.
  - now rewrite app_nil_r.
  - rewrite IH. destruct (keep x); [now rewrite <- app_assoc | reflexivity].
Qed.

Lemma filterOperations_filter (operations : list Operation.t) (c : filterOperationsCriteria) :
  filterOperations operations (Some c) = List.filter (criteriaMatch c) operations.
Proof. unfold filterOperations. now rewrite fold_left_keep. Qed.

Lemma filter_sublist {A} (keep : A -> bool) (l : list A) :
  List.filter keep l `sublist_of` l.
Proof.
  induction l as [|x l IH]; simpl; [constructor|].
  destruct (keep x); now constructor.
Qed.

(** C6: [filterOperations] returns a subsequence of its input in the input
    order; with a criteria value every operation it keeps satisfies the
    conjunction of the fields that are set, and it keeps every such
    operation; with a nil criteria it returns the empty list. *)
Theorem filterOperations_subsequence (operations : list Operation.t)
    (criteria : option filterOperationsCriteria) :
  filterOperations operations criteria `sublist_of` operations
  /\ match criteria with
     | Some c =>
         Forall (satisfies c) (filterOperations operations criteria)
         /\ filterOperations operations criteria
            = List.filter (criteriaMatch c) operations
     | None => filterOperations operations criteria = []
     end.
Proof.
  destruct criteria as [c|].
  - rewrite filterOperations_filter. split; [apply filter_sublist|].
    split; [|reflexivity].
    apply Forall_forall. intros oper Hin.
    apply list_elem_of_In, filter_In in Hin. now apply criteriaMatch_satisfies.
  - split; [apply sublist_nil_l | reflexivity].
Qed.

(** ** The scenario of section 8 *)

Example scenario_report :
  GetPortfolioBalance Scenario.account [Some 0%nat] Scenario.request
  = Report Scenario.report.
Proof. vm_compute. reflexivity. Qed.

(** ** Balance item builder *)

(** ** What the collection loop returns *)

Lemma select_item (pick : option nat) (pending pending' : list message)
    (balanceItem : TcfBalanceItem.t) :
  select pick pending = (FromBalanceItemsCh balanceItem, pending') ->
  exists k, pending !! k = Some (ToBalanceItemCh balanceItem) /\ pending' = delete k pending.
Proof.
  unfold select. destruct pick as [k|]; [|discriminate].
  destruct (pending !! k) as [[b|err]|] eqn:Hk; intros [= <- <-]. eauto.
Qed.

Lemma addBalanceItem_items (balance balance' : TcfPortfolioBalance.t)
    (balanceItem : TcfBalanceItem.t) :
  addBalanceItem balance balanceItem = Some balance' ->
  TcfPortfolioBalance.Items balance' = TcfPortfolioBalance.Items balance ++ [balanceItem].
Proof.
  unfold addBalanceItem.
  destruct (TcfPortfolioBalance.Total balance !! _); intros [= <-]; reflexivity.
Qed.

(** Every line the loop appends was sent by one of the goroutines. *)
Lemma collect_items (n : nat) :
  forall sched pending balance balance',
    collect n sched pending balance = inr balance' ->
    forall b, b ∈ TcfPortfolioBalance.Items balance' ->
      b ∈ TcfPortfolioBalance.Items balance \/ ToBalanceItemCh b ∈ pending.
Proof.
  induction n as [|n IH]; intros sched pending balance balance'; simpl.
  - intros [= <-] b Hb. now left.
  - destruct (select (hd None sched) pending) as [[balanceItem|err|] pending'] eqn:Hsel;
      [|discriminate..].
    apply select_item in Hsel as (k & Hk & ->).
    destruct (addBalanceItem balance balanceItem) as [balance1|] eqn:Hadd; [|discriminate].
    intros Hcollect b Hb.
    destruct (IH _ _ _ _ Hcollect b Hb) as [Hin|Hin].
    + rewrite (addBalanceItem_items _ _ _ Hadd) in Hin.
      apply elem_of_app in Hin as [Hin|Hin]; [now left|].
      apply list_elem_of_singleton in Hin as ->. right.
      eapply list_elem_of_lookup_2; eassumption.
    + right. eapply list_elem_of_delete_inv; eassumption.
Qed.

(** An early return of the loop is an error or a panic, never a report. *)
Lemma collect_early (n : nat) :
  forall sched pending balance early,
    collect n sched pending balance = inl early ->
    early = Panic \/ exists err, early = Failure err.
Proof.
  induction n as [|n IH]; intros sched pending balance early; simpl; [discriminate|].
  destruct (select (hd None sched) pending) as [[balanceItem|err|] pending'].
  - destruct (addBalanceItem balance balanceItem) as [balance1|]; [apply IH|].
    intros [= <-]. now left.
  - intros [= <-]. right. eauto.
  - intros [= <-]. right. eauto.
Qed.

Lemma rollUp_items (operations : list Operation.t) (balance report : TcfPortfolioBalance.t) :
  rollUp operations balance = Report report ->
  TcfPortfolioBalance.Items report = TcfPortfolioBalance.Items balance.
Proof.
  unfold rollUp.
  destruct (foldPanic addServiceCommission _ _) as [totals|]; [|discriminate].
  destruct (foldPanic addTaxBack _ _) as [totals'|]; [|discriminate].
  intros [= <-]. reflexivity.
Qed.

Lemma launch_elem_of (acc : TcfAccount) (aggOperations : gmap string (list Operation.t))
    (m : message) :
  m ∈ launch acc aggOperations ->
  exists figi operations, m = balanceItemToCh acc figi operations.
Proof.
  unfold launch. intros Hin. apply list_elem_of_fmap in Hin as ([figi operations] & -> & _).
  eauto.
Qed.

(** ** Machine integers *)

Lemma pow2_63 : 2 ^ 63 = 9223372036854775808.
Proof. reflexivity. Qed.

Lemma pow2_64 : 2 ^ 64 = 18446744073709551616.
Proof. reflexivity. Qed.

Lemma wrap64_range (z : Z) : - 2 ^ 63 <= wrap64 z < 2 ^ 63.
Proof.
  unfold wrap64. rewrite pow2_63, pow2_64.
  pose proof (Z.mod_pos_bound (z + 9223372036854775808) 18446744073709551616 eq_refl) as H.
  revert H. generalize ((z + 9223372036854775808) mod 18446744073709551616).
  intros r H. lia.
Qed.

Lemma wrap64_small (z : Z) : - 2 ^ 63 <= z < 2 ^ 63 -> wrap64 z = z.
Proof.
  unfold wrap64. rewrite pow2_63, pow2_64. intros H.
  rewrite Z.mod_small; lia.
Qed.

Lemma wrap64_add_r (a b : Z) : wrap64 (a + wrap64 b) = wrap64 (a + b).
Proof.
  unfold wrap64. f_equal.
  replace (a + ((b + 2 ^ 63) mod 2 ^ 64 - 2 ^ 63) + 2 ^ 63)
    with (a + (b + 2 ^ 63) mod 2 ^ 64) by lia.
  rewrite Zplus_mod_idemp_r. f_equal. lia.
Qed.

Lemma wrap64_add_l (a b : Z) : wrap64 (wrap64 a + b) = wrap64 (a + b).
Proof. rewrite (Z.add_comm (wrap64 a)), wrap64_add_r. f_equal. lia. Qed.

(** ** The quantity of a balance line *)

Lemma int_of_sign (operation : Operation.t) :
  int_of_float64 (sign operation) * Operation.Quantity operation = signedQuantity operation.
Proof.
  unfold sign, signedQuantity.
  destruct (String.eqb _ _).
  - change (int_of_float64 (-1)%float) with (-1). lia.
  - change (int_of_float64 1%float) with 1. lia.
Qed.

Lemma addTrade_quantity (l : list Operation.t) :
  forall a z, accQuantity a = wrap64 z ->
    accQuantity (fold_left addTrade l a)
    = wrap64 (z + fold_right Z.add 0 (signedQuantity <$> l)).
Proof.
  induction l as [|operation l IH]; intros a z Ha; simpl.
  - rewrite Ha. apply (f_equal wrap64). lia.
  - rewrite (IH _ (z + signedQuantity operation)).
    + apply (f_equal wrap64). rewrite <- Z.add_assoc. reflexivity.
    + simpl. rewrite int_of_sign, Ha, wrap64_add_r, wrap64_add_l. reflexivity.
Qed.

Lemma addDividend_quantity (l : list Operation.t) (a : accumulators) :
  accQuantity (fold_left addDividend l a) = accQuantity a.
Proof. revert a. induction l as [|operation l IH]; intros a; simpl; [|rewrite IH]; reflexivity. Qed.

Lemma addDividendTax_quantity (l : list Operation.t) (a : accumulators) :
  accQuantity (fold_left addDividendTax l a) = accQuantity a.
Proof. revert a. induction l as [|operation l IH]; intros a; simpl; [|rewrite IH]; reflexivity. Qed.

(** The quantity the loops leave is the net signed quantity, wrapped. *)
Lemma accumulate_quantity (figiOperations : list Operation.t) :
  accQuantity (accumulate figiOperations) = wrap64 (netQuantity figiOperations).
Proof.
  unfold accumulate, netQuantity.
  rewrite addDividendTax_quantity, addDividend_quantity.
  now rewrite (addTrade_quantity _ _ 0).
Qed.

Lemma clampQuantity_nonneg (q : Z) : 0 <= clampQuantity q.
Proof. unfold clampQuantity. destruct (Z.ltb_spec q 0); lia. Qed.

Lemma buildBalanceItem_quantity (instrument : SearchInstrument.t) (currentPrice : float)
    (figiOperations : list Operation.t) :
  TcfBalanceItem.PortfolioQuantity (buildBalanceItem instrument currentPrice figiOperations)
  = clampQuantity (wrap64 (netQuantity figiOperations)).
Proof. unfold buildBalanceItem; simpl. now rewrite accumulate_quantity. Qed.

(** Zero times a finite float is a zero. *)
Lemma mul_zero_finite (p : float) :
  finite64 p -> (0 * p = 0 \/ 0 * p = -0)%float.
Proof.
  unfold finite64. intros Hp.
  pose proof (mul_spec 0 p) as H.
  change (Prim2SF 0) with (S754_zero false) in H.
  rewrite <- (SF2Prim_Prim2SF (0 * p)), H.
  destruct (Prim2SF p) as [s|s| |s m e]; try contradiction;
    destruct s; simpl; auto.
Qed.

Lemma zero_amount (p : float) :
  finite64 p -> (round2 (float64_of_int 0 * p) =? 0)%float = true.
Proof.
  intros Hp. change (float64_of_int 0) with 0%float.
  destruct (mul_zero_finite p Hp) as [-> | ->]; reflexivity.
Qed.

(** C7: the quantity of a balance line is never negative; when the net
    signed quantity of the buys and sells is negative (as the [int] the code
    accumulates, which is the exact sum whenever that sum fits an [int]) the
    line reports the quantity 0, and the holding value is then zero for
    every finite price. *)
Theorem quantity_clamped (instrument : SearchInstrument.t) (currentPrice : float)
    (figiOperations : list Operation.t) :
  let b := buildBalanceItem instrument currentPrice figiOperations in
  0 <= TcfBalanceItem.PortfolioQuantity b
  /\ (wrap64 (netQuantity figiOperations) < 0 ->
      TcfBalanceItem.PortfolioQuantity b = 0
      /\ (finite64 currentPrice ->
          (TcfBalanceItem.PortfolioAmount b =? 0)%float = true))
  /\ (- 2 ^ 63 <= netQuantity figiOperations < 0 ->
      TcfBalanceItem.PortfolioQuantity b = 0).
Proof.
  intros b.
  assert (Hneg : wrap64 (netQuantity figiOperations) < 0 ->
                 TcfBalanceItem.PortfolioQuantity b = 0).
  { intros H. unfold b. rewrite buildBalanceItem_quantity.
    unfold clampQuantity. destruct (Z.ltb_spec (wrap64 (netQuantity figiOperations)) 0); lia. }
  split; [|split].
  - unfold b. rewrite buildBalanceItem_quantity. apply clampQuantity_nonneg.
  - intros H. split; [auto|]. intros Hp.
    specialize (Hneg H). unfold b in *. unfold buildBalanceItem in *; simpl in *.
    rewrite Hneg. now apply zero_amount.
  - intros H. apply Hneg. rewrite wrap64_small; [lia|]. rewrite pow2_63 in *. lia.
Qed.

Lemma quantity_clamped_witness :
  wrap64 (netQuantity [Scenario.buyA; Scenario.sellA; Scenario.sellA]) < 0
  /\ TcfBalanceItem.PortfolioQuantity
       (buildBalanceItem Scenario.instrumentA 120
          [Scenario.buyA; Scenario.sellA; Scenario.sellA]) = 0
  /\ (TcfBalanceItem.PortfolioAmount
        (buildBalanceItem Scenario.instrumentA 120
           [Scenario.buyA; Scenario.sellA; Scenario.sellA]) =? 0)%float = true.
Proof.
  assert (Hnet : wrap64 (netQuantity [Scenario.buyA; Scenario.sellA; Scenario.sellA]) < 0)
    by reflexivity.
  split; [exact Hnet|].
  destruct (quantity_clamped Scenario.instrumentA 120
              [Scenario.buyA; Scenario.sellA; Scenario.sellA]) as (_ & H & _).
  destruct (H Hnet) as [Hq Ha].
  split; [exact Hq|]. apply Ha. exact I.
Defined.

(** Where the running total leaves the range of [int], the quantity is
    that of the wrapped total: three sells of [2^62] units net to
    [-3 * 2^62], which an [int] holds as [2^62]. *)
Example quantity_wraps :
  TcfBalanceItem.PortfolioQuantity
    (buildBalanceItem Scenario.instrumentA 120
       [Scenario.sellHuge; Scenario.sellHuge; Scenario.sellHuge]) = 2 ^ 62.
Proof. reflexivity. Qed.

(** ** Currency totals *)

Lemma addServiceCommission_updateAt (totals : gmap string TcfTotal.t) (operation : Operation.t) :
  addServiceCommission totals operation
  = updateAt Operation.Currency updServiceCommission totals operation.
Proof. reflexivity. Qed.

Lemma addTaxBack_updateAt (totals : gmap string TcfTotal.t) (operation : Operation.t) :
  addTaxBack totals operation = updateAt Operation.Currency updTaxBack totals operation.
Proof. reflexivity. Qed.

Lemma addBalanceItem_updateAt (balance balance' : TcfPortfolioBalance.t)
    (balanceItem : TcfBalanceItem.t) :
  addBalanceItem balance balanceItem = Some balance' ->
  updateAt TcfBalanceItem.Currency updItem (TcfPortfolioBalance.Total balance) balanceItem
  = Some (TcfPortfolioBalance.Total balance').
Proof.
  unfold addBalanceItem, updateAt.
  destruct (TcfPortfolioBalance.Total balance !! _); intros [= <-]; reflexivity.
Qed.

Section UpdateAt.
Context {B : Type} (key : B -> string) (upd : TcfTotal.t -> B -> TcfTotal.t).

(** A loop of updates leaves, under each currency, the entry it found
    there updated with the elements of that currency, in order; it adds
    and removes no entry. *)
Lemma foldPanic_updateAt (l : list B) :
  forall totals totals',
    foldPanic (updateAt key upd) l totals = Some totals' ->
    forall c, totals' !! c
              = (fun total => fold_left upd (ofCurrency key c l) total) <$> (totals !! c).
Proof.
  induction l as [|x l IH]; intros totals totals'; simpl.
  - intros [= <-] c. now destruct (totals !! c).
  - unfold updateAt at 1. destruct (totals !! key x) as [total|] eqn:Hx; [|discriminate].
    intros Hfold c. rewrite (IH _ _ Hfold c).
    destruct (String.eqb_spec (key x) c) as [<-|Hne].
    + rewrite lookup_insert_eq, Hx. reflexivity.
    + now rewrite lookup_insert_ne.
Qed.

(** The loop panics exactly when an element has a currency with no
    entry. *)
Lemma foldPanic_updateAt_None (l : list B) :
  forall totals,
    foldPanic (updateAt key upd) l totals = None
    <-> exists x, x ∈ l /\ totals !! key x = None.
Proof.
  induction l as [|x l IH]; intros totals; simpl.
  - split; [discriminate|]. intros (x & Hx & _). inversion Hx.
  - unfold updateAt at 1. destruct (totals !! key x) as [total|] eqn:Hx.
    + rewrite IH. split.
      * intros (y & Hy & Hnone). exists y. split; [now right|].
        destruct (decide (key x = key y)) as [Heq|Hne].
        -- rewrite <- Heq, lookup_insert_eq in Hnone. discriminate.
        -- now rewrite lookup_insert_ne in Hnone.
      * intros (y & Hy & Hnone). apply elem_of_cons in Hy as [->|Hy]; [congruence|].
        exists y. split; [assumption|].
        rewrite lookup_insert_ne; [assumption|]. intros Heq. congruence.
    + split; [|reflexivity]. intros _. exists x. split; [now left | assumption].
Qed.
End UpdateAt.

Lemma fold_updItem (lines : list TcfBalanceItem.t) (t : TcfTotal.t) :
  fold_left updItem lines t
  = TcfTotal.mk (sumBalanceAmounts lines (TcfTotal.BalanceAmount t))
                (TcfTotal.ServiceCommissionAmount t) (TcfTotal.TaxBack t)
                (sumPortfolioAmounts lines (TcfTotal.PortfolioAmount t)).
Proof.
  revert t. induction lines as [|b lines IH]; intros t; simpl.
  - now destruct t.
  - now rewrite IH.
Qed.

Lemma fold_updServiceCommission (l : list Operation.t) (t : TcfTotal.t) :
  fold_left updServiceCommission l t
  = TcfTotal.mk (subPayments l (TcfTotal.BalanceAmount t))
                (addPayments l (TcfTotal.ServiceCommissionAmount t))
                (TcfTotal.TaxBack t) (TcfTotal.PortfolioAmount t).
Proof.
  revert t. induction l as [|operation l IH]; intros t; simpl.
  - now destruct t.
  - now rewrite IH.
Qed.

Lemma fold_updTaxBack (l : list Operation.t) (t : TcfTotal.t) :
  fold_left updTaxBack l t
  = TcfTotal.mk (addPayments l (TcfTotal.BalanceAmount t))
                (TcfTotal.ServiceCommissionAmount t)
                (addPayments l (TcfTotal.TaxBack t)) (TcfTotal.PortfolioAmount t).
Proof.
  revert t. induction l as [|operation l IH]; intros t; simpl.
  - now destruct t.
  - now rewrite IH.
Qed.

(** The loop appends the lines it takes, and updates the totals with them
    in the same order. *)
Lemma collect_totals (n : nat) :
  forall sched pending balance balance',
    collect n sched pending balance = inr balance' ->
    exists lines,
      TcfPortfolioBalance.Items balance' = TcfPortfolioBalance.Items balance ++ lines
      /\ foldPanic (updateAt TcfBalanceItem.Currency updItem) lines
                   (TcfPortfolioBalance.Total balance)
         = Some (TcfPortfolioBalance.Total balance').
Proof.
  induction n as [|n IH]; intros sched pending balance balance'; simpl.
  - intros [= <-]. exists []. split; [now rewrite app_nil_r | reflexivity].
  - destruct (select (hd None sched) pending) as [[balanceItem|err|] pending'];
      [|discriminate..].
    destruct (addBalanceItem balance balanceItem) as [balance1|] eqn:Hadd; [|discriminate].
    intros Hcollect. destruct (IH _ _ _ _ Hcollect) as (lines & Hitems & Hfold).
    exists (balanceItem :: lines). split.
    + rewrite Hitems, (addBalanceItem_items _ _ _ Hadd), <- app_assoc. reflexivity.
    + simpl. now rewrite (addBalanceItem_updateAt _ _ _ Hadd).
Qed.

Lemma createEmptyBalance_lookup (c : string) :
  TcfPortfolioBalance.Total createEmptyBalance !! c
  = if contains seededCurrencies c then Some (TcfTotal.mk 0 0 0 0) else None.
Proof.
  unfold createEmptyBalance, seededCurrencies. cbn [TcfPortfolioBalance.Total contains].
  destruct (String.eqb_spec "RUB" c) as [<-|Hrub]; [reflexivity|].
  destruct (String.eqb_spec "USD" c) as [<-|Husd]; [reflexivity|].
  destruct (String.eqb_spec "EUR" c) as [<-|Heur]; [reflexivity|].
  now rewrite !lookup_insert_ne, lookup_empty.
Qed.

(** The totals of a report, before the statement about their fields: the
    entry of a currency is the seeded zero entry updated with the lines,
    then the service commissions, then the tax refunds of that currency,
    and rounded. *)
Lemma aggregate_total (acc : TcfAccount) (sched : list (option nat))
    (operations : list Operation.t) (report : TcfPortfolioBalance.t) (c : string) :
  aggregate acc sched operations = Report report ->
  TcfPortfolioBalance.Total report !! c
  = (fun zero =>
       roundTotal
         (fold_left updTaxBack (ofCurrency Operation.Currency c (taxBacks operations))
            (fold_left updServiceCommission
               (ofCurrency Operation.Currency c (serviceCommissions operations))
               (fold_left updItem
                  (ofCurrency TcfBalanceItem.Currency c (TcfPortfolioBalance.Items report))
                  zero))))
    <$> (TcfPortfolioBalance.Total createEmptyBalance !! c).
Proof.
  unfold aggregate.
  destruct (collect _ _ _ _) as [early|balance] eqn:Hcollect.
  - intros ->. apply collect_early in Hcollect as [?|[err ?]]; discriminate.
  - destruct (collect_totals _ _ _ _ _ Hcollect) as (lines & Hitems & Hlines).
    unfold rollUp.
    destruct (foldPanic addServiceCommission _ _) as [totals1|] eqn:Hsc; [|discriminate].
    destruct (foldPanic addTaxBack _ _) as [totals2|] eqn:Htb; [|discriminate].
    intros [= <-]. cbn [TcfPortfolioBalance.Total TcfPortfolioBalance.Items].
    rewrite lookup_fmap.
    rewrite (foldPanic_updateAt _ _ _ _ _ Htb c).
    rewrite (foldPanic_updateAt _ _ _ _ _ Hsc c).
    rewrite (foldPanic_updateAt _ _ _ _ _ Hlines c).
    rewrite Hitems. cbn [TcfPortfolioBalance.Items createEmptyBalance app].
    now destruct (TcfPortfolioBalance.Total createEmptyBalance !! c).
Qed.

(** ** The currencies the totals are defined for *)

Lemma createEmptyBalance_seededOnly :
  seededOnly (TcfPortfolioBalance.Total createEmptyBalance).
Proof.
  intros c. rewrite createEmptyBalance_lookup, <- contains_elem_of.
  destruct (contains seededCurrencies c); split; intros H; try done.
Qed.

Lemma foldPanic_seededOnly {B : Type} (key : B -> string)
    (upd : TcfTotal.t -> B -> TcfTotal.t) (l : list B) (totals totals' : gmap string TcfTotal.t) :
  foldPanic (updateAt key upd) l totals = Some totals' ->
  seededOnly totals -> seededOnly totals'.
Proof.
  intros Hfold Hseeded c. rewrite (foldPanic_updateAt _ _ _ _ _ Hfold c), fmap_is_Some.
  apply Hseeded.
Qed.

(** A loop of updates over a map of the seeded currencies panics exactly
    when an element carries another currency. *)
Lemma foldPanic_seeded_None {B : Type} (key : B -> string)
    (upd : TcfTotal.t -> B -> TcfTotal.t) (l : list B) (totals : gmap string TcfTotal.t) :
  seededOnly totals ->
  foldPanic (updateAt key upd) l totals = None
  <-> exists x, x ∈ l /\ key x ∉ seededCurrencies.
Proof.
  intros Hseeded. rewrite foldPanic_updateAt_None.
  split; intros (x & Hx & H); exists x; (split; [assumption|]).
  - intros Hin. apply Hseeded in Hin as [total Htotal]. congruence.
  - apply eq_None_not_Some. intros Hsome. apply H, Hseeded, Hsome.
Qed.

Lemma collect_seeded (n : nat) :
  forall sched pending balance,
    seededOnly (TcfPortfolioBalance.Total balance) ->
    (forall b, ToBalanceItemCh b ∈ pending -> TcfBalanceItem.Currency b ∈ seededCurrencies) ->
    collect n sched pending balance <> inl Panic.
Proof.
  induction n as [|n IH]; intros sched pending balance Hseeded Hpending; simpl; [discriminate|].
  destruct (select (hd None sched) pending) as [[balanceItem|err|] pending'] eqn:Hsel;
    [|discriminate..].
  apply select_item in Hsel as (k & Hk & ->).
  assert (Hcur : TcfBalanceItem.Currency balanceItem ∈ seededCurrencies).
  { apply Hpending. eapply list_elem_of_lookup_2; eassumption. }
  destruct (addBalanceItem balance balanceItem) as [balance1|] eqn:Hadd.
  - apply IH.
    + apply addBalanceItem_updateAt in Hadd.
      eapply (foldPanic_seededOnly _ _ [balanceItem]); [|eassumption].
      simpl. now rewrite Hadd.
    + intros b Hb. apply Hpending. eapply list_elem_of_delete_inv; eassumption.
  - exfalso. unfold addBalanceItem in Hadd.
    apply Hseeded in Hcur as [total Htotal]. rewrite Htotal in Hadd. discriminate.
Qed.

(** C10: the totals are seeded with the entries of RUB, USD and EUR, all
    fields zero.  When every line the goroutines send and every service
    commission and tax refund carries one of the three, no update of the
    totals panics; a report is returned only if every line and every such
    operation carries one of the three; and each of the three updates,
    applied for any other currency, dereferences a nil entry. *)
Theorem totals_seeded_currencies (acc : TcfAccount) (sched : list (option nat))
    (operations : list Operation.t) :
  (forall c, TcfPortfolioBalance.Total createEmptyBalance !! c
             = if contains seededCurrencies c then Some (TcfTotal.mk 0 0 0 0) else None)
  /\ ((forall b, ToBalanceItemCh b ∈ launch acc (aggOperationsByFigi operations) ->
                 TcfBalanceItem.Currency b ∈ seededCurrencies) ->
      (forall operation, operation ∈ serviceCommissions operations ++ taxBacks operations ->
                         Operation.Currency operation ∈ seededCurrencies) ->
      aggregate acc sched operations <> Panic)
  /\ (forall report, aggregate acc sched operations = Report report ->
        Forall (fun b => TcfBalanceItem.Currency b ∈ seededCurrencies)
               (TcfPortfolioBalance.Items report)
        /\ Forall (fun operation => Operation.Currency operation ∈ seededCurrencies)
                  (serviceCommissions operations ++ taxBacks operations))
  /\ (forall balance b,
        seededOnly (TcfPortfolioBalance.Total balance) ->
        TcfBalanceItem.Currency b ∉ seededCurrencies ->
        addBalanceItem balance b = None)
  /\ (forall totals operation,
        seededOnly totals ->
        Operation.Currency operation ∉ seededCurrencies ->
        addServiceCommission totals operation = None
        /\ addTaxBack totals operation = None).
Proof.
  split; [apply createEmptyBalance_lookup|].
  split; [|split; [|split]].
  - intros Hlines Hops. unfold aggregate.
    destruct (collect _ _ _ _) as [early|balance] eqn:Hcollect.
    + intros ->. revert Hcollect.
      now apply collect_seeded; [apply createEmptyBalance_seededOnly|].
    + destruct (collect_totals _ _ _ _ _ Hcollect) as (lines & _ & Hfold).
      pose proof (foldPanic_seededOnly _ _ _ _ _ Hfold createEmptyBalance_seededOnly)
        as Hseeded.
      unfold rollUp.
      destruct (foldPanic addServiceCommission _ _) as [totals1|] eqn:Hsc.
      * destruct (foldPanic addTaxBack _ _) as [totals2|] eqn:Htb; [discriminate|].
        exfalso.
        apply (foldPanic_seeded_None _ _ _ totals1) in Htb as (x & Hx & Hcur).
        -- apply Hcur, Hops, elem_of_app. now right.
        -- exact (foldPanic_seededOnly _ _ _ _ _ Hsc Hseeded).
      * exfalso.
        apply (foldPanic_seeded_None _ _ _ _ Hseeded) in Hsc as (x & Hx & Hcur).
        apply Hcur, Hops, elem_of_app. now left.
  - intros report. unfold aggregate.
    destruct (collect _ _ _ _) as [early|balance] eqn:Hcollect.
    { intros ->. apply collect_early in Hcollect as [?|[err ?]]; discriminate. }
    destruct (collect_totals _ _ _ _ _ Hcollect) as (lines & Hitems & Hfold).
    pose proof (foldPanic_seededOnly _ _ _ _ _ Hfold createEmptyBalance_seededOnly)
      as Hseeded.
    unfold rollUp.
    destruct (foldPanic addServiceCommission _ _) as [totals1|] eqn:Hsc; [|discriminate].
    destruct (foldPanic addTaxBack _ _) as [totals2|] eqn:Htb; [|discriminate].
    intros [= <-]. cbn [TcfPortfolioBalance.Items]. rewrite Hitems.
    cbn [TcfPortfolioBalance.Items createEmptyBalance app].
    pose proof (foldPanic_seededOnly _ _ _ _ _ Hsc Hseeded) as Hseeded1.
    split; [|apply Forall_app; split]; apply Forall_forall; intros x Hx.
    + destruct (decide (TcfBalanceItem.Currency x ∈ seededCurrencies)) as [|Hcur]; [done|].
      assert (Hnone : foldPanic (updateAt TcfBalanceItem.Currency updItem) lines
                        (TcfPortfolioBalance.Total createEmptyBalance) = None).
      { apply foldPanic_seeded_None; [apply createEmptyBalance_seededOnly|]. eauto. }
      congruence.
    + destruct (decide (Operation.Currency x ∈ seededCurrencies)) as [|Hcur]; [done|].
      assert (Hnone : foldPanic addServiceCommission
                        (filterOperations operations
                           (Some (byOperationTypes ["ServiceCommission"])))
                        (TcfPortfolioBalance.Total balance) = None).
      { apply (foldPanic_seeded_None _ _ _ _ Hseeded). eauto. }
      congruence.
    + destruct (decide (Operation.Currency x ∈ seededCurrencies)) as [|Hcur]; [done|].
      assert (Hnone : foldPanic addTaxBack
                        (filterOperations operations (Some (byOperationTypes ["TaxBack"])))
                        totals1 = None).
      { apply (foldPanic_seeded_None _ _ _ _ Hseeded1). eauto. }
      congruence.
  - intros balance b Hseeded Hcur. unfold addBalanceItem.
    destruct (TcfPortfolioBalance.Total balance !! _) as [total|] eqn:Htotal; [|reflexivity].
    exfalso. apply Hcur, Hseeded. eauto.
  - intros totals operation Hseeded Hcur.
    unfold addServiceCommission, addTaxBack.
    destruct (totals !! _) as [total|] eqn:Htotal; [|done].
    exfalso. apply Hcur, Hseeded. eauto.
Qed.

Lemma totals_seeded_currencies_witness :
  aggregate Scenario.account [Some 0%nat] [Scenario.buyA] <> Panic
  /\ addBalanceItem createEmptyBalance Scenario.lineGBP = None.
Proof.
  destruct (totals_seeded_currencies Scenario.account [Some 0%nat] [Scenario.buyA])
    as (_ & Hok & _ & Hline & _).
  split.
  - apply Hok.
    + assert (Hl : launch Scenario.account (aggOperationsByFigi [Scenario.buyA])
                   = [ToBalanceItemCh Scenario.lineA]) by (vm_compute; reflexivity).
      rewrite Hl. intros b Hb. apply list_elem_of_singleton in Hb. injection Hb as ->.
      apply contains_elem_of. reflexivity.
    + assert (Hl : serviceCommissions [Scenario.buyA] ++ taxBacks [Scenario.buyA] = [])
        by reflexivity.
      rewrite Hl. intros operation Hin. inversion Hin.
  - apply Hline.
    + apply createEmptyBalance_seededOnly.
    + intros Hin. apply contains_elem_of in Hin. discriminate.
Defined.

(** An instrument quoted in pounds makes the aggregation panic. *)
Example unseeded_currency_panics :
  GetPortfolioBalance Scenario.accountGBP [Some 0%nat] Scenario.request = Panic.
Proof. vm_compute. reflexivity. Qed.

(** ** Fan-out: one failure aborts the aggregation *)

Lemma countItems_le (pending : list message) : (countItems pending <= length pending)%nat.
Proof.
  unfold countItems. induction pending as [|m pending IH]; simpl; [lia|].
  destruct (isItem m); simpl; lia.
Qed.

Lemma countItems_error (pending : list message) (err : error) :
  ToErrorCh err ∈ pending -> (countItems pending < length pending)%nat.
Proof.
  unfold countItems. induction pending as [|m pending IH]; intros Hin.
  - inversion Hin.
  - apply elem_of_cons in Hin as [<-|Hin]; simpl.
    + pose proof (countItems_le pending). unfold countItems in *. lia.
    + specialize (IH Hin). destruct (isItem m); simpl; lia.
Qed.

Lemma countItems_delete (pending : list message) :
  forall k b, pending !! k = Some (ToBalanceItemCh b) ->
    countItems pending = S (countItems (delete k pending)).
Proof.
  unfold countItems. induction pending as [|m pending IH]; intros k b Hk; [discriminate|].
  destruct k as [|k]; simpl in *.
  - injection Hk as ->. reflexivity.
  - destruct (isItem m); simpl; rewrite (IH _ _ Hk); reflexivity.
Qed.

(** A loop that runs to its end has taken a line at each iteration. *)
Lemma collect_takes (n : nat) :
  forall sched pending balance balance',
    collect n sched pending balance = inr balance' -> (n <= countItems pending)%nat.
Proof.
  induction n as [|n IH]; intros sched pending balance balance'; simpl; [lia|].
  destruct (select (hd None sched) pending) as [[balanceItem|err|] pending'] eqn:Hsel;
    [|discriminate..].
  apply select_item in Hsel as (k & Hk & ->).
  destruct (addBalanceItem balance balanceItem) as [balance1|]; [|discriminate].
  intros Hcollect. apply IH in Hcollect. rewrite (countItems_delete _ _ _ Hk). lia.
Qed.

(** The error the loop returns is the timeout or one a goroutine sent. *)
Lemma collect_failure (n : nat) :
  forall sched pending balance e,
    collect n sched pending balance = inl (Failure e) ->
    e = TimeoutError \/ ToErrorCh e ∈ pending.
Proof.
  induction n as [|n IH]; intros sched pending balance e; simpl; [discriminate|].
  destruct (select (hd None sched) pending) as [[balanceItem|err|] pending'] eqn:Hsel.
  - apply select_item in Hsel as (k & Hk & ->).
    destruct (addBalanceItem balance balanceItem) as [balance1|]; [|discriminate].
    intros Hcollect. apply IH in Hcollect as [->|Hin]; [now left|].
    right. eapply list_elem_of_delete_inv; eassumption.
  - intros [= <-]. right. unfold select in Hsel.
    destruct (hd None sched) as [k|]; [|discriminate].
    destruct (pending !! k) as [[b|err']|] eqn:Hk; try discriminate.
    injection Hsel as <- _. eapply list_elem_of_lookup_2; eassumption.
  - intros [= <-]. now left.
Qed.

Lemma length_launch (acc : TcfAccount) (aggOperations : gmap string (list Operation.t)) :
  length (launch acc aggOperations) = size aggOperations.
Proof. unfold launch. now rewrite length_fmap, length_map_to_list. Qed.

(** The line of the first instrument arrives, then the error of the second:
    the line is dropped and the error returned. *)
Example failure_after_line :
  GetPortfolioBalance Scenario.accountB [Some 0%nat; Some 0%nat] Scenario.request
  = Failure Scenario.fetchFailed.
Proof. vm_compute. reflexivity. Qed.

(** ** The timeout of the collection loop *)

Lemma earliest_Some (pending : list (Z * message)) :
  forall k ready, earliest pending = Some (k, ready) ->
    (exists m, pending !! k = Some (ready, m))
    /\ forall r m, (r, m) ∈ pending -> ready <= r.
Proof.
  induction pending as [|[ready0 m0] pending IH]; intros k ready; simpl; [discriminate|].
  destruct (earliest pending) as [[k' ready']|] eqn:He.
  - destruct (IH _ _ eq_refl) as [[m' Hm'] Hmin].
    destruct (Z.ltb_spec ready' ready0) as [Hlt|Hge]; intros [= <- <-].
    + split; [eauto|]. intros r m Hin.
      apply elem_of_cons in Hin as [[= -> ->]|Hin]; [lia | eauto].
    + split; [eauto|]. intros r m Hin.
      apply elem_of_cons in Hin as [[= -> ->]|Hin]; [lia|].
      specialize (Hmin _ _ Hin). lia.
  - intros [= <- <-]. split; [eauto|]. intros r m Hin.
    apply elem_of_cons in Hin as [[= -> ->]|Hin]; [lia|].
    destruct pending as [|[r1 m1] pending]; [inversion Hin|].
    simpl in He. destruct (earliest pending) as [[? ?]|]; [|discriminate].
    destruct (_ <? _); discriminate.
Qed.

Lemma earliest_None (pending : list (Z * message)) :
  earliest pending = None -> pending = [].
Proof.
  destruct pending as [|[ready m] pending]; [reflexivity|]. simpl.
  destruct (earliest pending) as [[k' ready']|]; [|discriminate].
  destruct (_ <? _); discriminate.
Qed.

(** The timer of a receive fires exactly when no sender is ready within
    20 seconds of the start of that receive. *)
Lemma timedPick_timeout (now : Z) (pending : list (Z * message)) :
  (forall ready m, (ready, m) ∈ pending -> now + collectTimeout <= ready)
  <-> timedPick now pending = (None, now + collectTimeout).
Proof.
  unfold timedPick. destruct (earliest pending) as [[k ready]|] eqn:He.
  - destruct (earliest_Some _ _ _ He) as [[m Hk] Hmin].
    destruct (Z.ltb_spec ready (now + collectTimeout)) as [Hlt|Hge].
    + split; [|discriminate]. intros Hall. exfalso.
      apply list_elem_of_lookup_2 in Hk. specialize (Hall _ _ Hk). lia.
    + split; [reflexivity|]. intros _ r m' Hin. specialize (Hmin _ _ Hin). lia.
  - apply earliest_None in He as ->. split; [reflexivity|].
    intros _ r m Hin. inversion Hin.
Qed.

(** A receive ends within 20 seconds of its start. *)
Lemma timedPick_bound (now : Z) (pending : list (Z * message)) :
  now <= snd (timedPick now pending) <= now + collectTimeout.
Proof.
  assert (0 < collectTimeout) by reflexivity.
  unfold timedPick. destruct (earliest pending) as [[k ready]|]; simpl; [|lia].
  destruct (Z.ltb_spec ready (now + collectTimeout)); simpl; lia.
Qed.

Lemma timedSchedule_bound (n : nat) :
  forall now pending,
    now <= snd (timedSchedule n now pending) <= now + Z.of_nat n * collectTimeout.
Proof.
  assert (0 < collectTimeout) by reflexivity.
  induction n as [|n IH]; intros now pending.
  - simpl. lia.
  - cbn [timedSchedule].
    pose proof (timedPick_bound now pending) as Hpick.
    destruct (timedPick now pending) as [[k|] now']; simpl in Hpick.
    + destruct (pending !! k) as [[ready [b|err]]|].
      * specialize (IH now' (delete k pending)).
        destruct (timedSchedule n now' (delete k pending)) as [sched finish].
        simpl in *. lia.
      * simpl. lia.
      * simpl. lia.
    + simpl. lia.
Qed.

(** C8, as the code has it: the timer is armed anew by each receive of the
    loop.  A receive that starts at [now] with no sender ready before
    [now + 20s] ends the aggregation with the timeout error at that
    instant, and only such a receive does; the loop as a whole ends within
    20 seconds per launched computation. *)
Theorem receive_timeout (n : nat) (now : Z) (pending : list (Z * message))
    (balance : TcfPortfolioBalance.t) :
  now <= snd (timedSchedule n now pending) <= now + Z.of_nat n * collectTimeout
  /\ ((forall ready m, (ready, m) ∈ pending -> now + collectTimeout <= ready) ->
      collect (S n) (fst (timedSchedule (S n) now pending)) (snd <$> pending) balance
      = inl (Failure TimeoutError)
      /\ snd (timedSchedule (S n) now pending) = now + collectTimeout)
  /\ (hd None (fst (timedSchedule (S n) now pending)) = None ->
      forall ready m, (ready, m) ∈ pending -> now + collectTimeout <= ready).
Proof.
  split; [apply timedSchedule_bound|]. split.
  - intros Hall. apply timedPick_timeout in Hall.
    cbn [timedSchedule]. rewrite Hall. split; reflexivity.
  - cbn [timedSchedule]. intros Hhd. apply timedPick_timeout.
    pose proof (timedPick_bound now pending) as Hb.
    unfold timedPick in *.
    destruct (earliest pending) as [[k ready]|]; [|reflexivity].
    destruct (ready <? now + collectTimeout); [|reflexivity].
    exfalso. destruct (pending !! k) as [[r [b|err]]|]; simpl in Hhd;
      [destruct (timedSchedule n _ _)|..]; discriminate.
Qed.

Lemma receive_timeout_witness :
  collect 2 (fst (timedSchedule 2 0 [(25 * Second, ToBalanceItemCh Scenario.lineA);
                                     (30 * Second, ToBalanceItemCh Scenario.lineA)]))
          [ToBalanceItemCh Scenario.lineA; ToBalanceItemCh Scenario.lineA]
          createEmptyBalance
  = inl (Failure TimeoutError).
Proof.
  refine (proj1 (proj1 (proj2 (receive_timeout 1 0
            [(25 * Second, ToBalanceItemCh Scenario.lineA);
             (30 * Second, ToBalanceItemCh Scenario.lineA)] createEmptyBalance)) _)).
  intros ready m Hin.
  apply elem_of_cons in Hin as [[= -> _]|Hin]; [discriminate|].
  apply list_elem_of_singleton in Hin as [= -> _]. discriminate.
Defined.

(** Two computations that report 15 and 30 seconds after the loop starts:
    the second is not in within 20 seconds of the start, and both lines are
    collected all the same, the loop ending at 30 seconds. *)
Lemma global_timeout_counterexample : ~ globalTimeout.
Proof.
  intros Hclaim.
  specialize (Hclaim 2%nat 0
                [(15 * Second, ToBalanceItemCh Scenario.lineA);
                 (30 * Second, ToBalanceItemCh Scenario.lineA)]
                createEmptyBalance eq_refl).
  assert (Hlate : exists ready m,
             (ready, m) ∈ [(15 * Second, ToBalanceItemCh Scenario.lineA);
                           (30 * Second, ToBalanceItemCh Scenario.lineA)]
             /\ 0 + collectTimeout < ready).
  { exists (30 * Second), (ToBalanceItemCh Scenario.lineA).
    split; [|reflexivity]. apply elem_of_cons. right. apply list_elem_of_singleton. reflexivity. }
  specialize (Hclaim Hlate). vm_compute in Hclaim. discriminate.
Qed.

Example two_lines_in_30_seconds :
  timedSchedule 2 0 [(15 * Second, ToBalanceItemCh Scenario.lineA);
                     (30 * Second, ToBalanceItemCh Scenario.lineA)]
  = ([Some 0%nat; Some 0%nat], 30 * Second).
Proof. reflexivity. Qed.

(** ** Price resolver *)

Lemma insertCandle_head (c : Candle.t) (sorted : list Candle.t) :
  exists d rest, insertCandle c sorted = d :: rest
    /\ (d = c \/ exists rest', sorted = d :: rest' /\ Candle.TS c < Candle.TS d)
    /\ (forall d' rest', sorted = d' :: rest' -> Candle.TS d' <= Candle.TS d)
    /\ Candle.TS c <= Candle.TS d.
Proof.
  destruct sorted as [|d sorted]; simpl.
  - exists c, []. repeat split; [now left | discriminate | lia].
  - destruct (Z.ltb_spec (Candle.TS c) (Candle.TS d)) as [Hlt|Hge].
    + exists d, (insertCandle c sorted). repeat split; [right; eauto | | lia].
      intros d' rest' [= <- <-]. lia.
    + exists c, (d :: sorted). repeat split; [now left | | lia].
      intros d' rest' [= <- <-]. lia.
Qed.

(** The head of the sorted slice is a candle of the slice with the latest
    timestamp. *)
Lemma sortStable_head (candles : list Candle.t) :
  match sortStable candles with
  | [] => candles = []
  | c :: _ => c ∈ candles /\ forall d, d ∈ candles -> Candle.TS d <= Candle.TS c
  end.
Proof.
  induction candles as [|x candles IH]; simpl; [reflexivity|].
  destruct (insertCandle_head x (sortStable candles)) as (c & rest & -> & Hc & Hhead & Hx).
  destruct (sortStable candles) as [|c0 sorted].
  - subst candles. destruct Hc as [->|(rest' & [=] & _)].
    split; [now left|]. intros d Hd. apply list_elem_of_singleton in Hd as ->. lia.
  - destruct IH as [Hin Hmax]. specialize (Hhead _ _ eq_refl). split.
    + destruct Hc as [->|(rest' & [= <- _] & _)]; [now left | now right].
    + intros d Hd. apply elem_of_cons in Hd as [->|Hd]; [assumption|].
      specialize (Hmax _ Hd). lia.
Qed.

Lemma candleLatest_Some (candles : list Candle.t) (candle : Candle.t) :
  candleLatest candles = Some candle ->
  candle ∈ candles /\ forall d, d ∈ candles -> Candle.TS d <= Candle.TS candle.
Proof.
  unfold candleLatest. pose proof (sortStable_head candles) as H.
  destruct (sortStable candles) as [|c rest]; [discriminate|].
  now intros [= <-].
Qed.

Lemma candleLatest_None (candles : list Candle.t) :
  candleLatest candles = None <-> candles = [].
Proof.
  unfold candleLatest. pose proof (sortStable_head candles) as H. split.
  - destruct (sortStable candles); [auto | discriminate].
  - now intros ->.
Qed.

(** One iteration of the loop of [GetCurrentPrice], by what the client
    answers. *)
Section PriceLoop.
Context (acc : TcfAccount) (figi : string) (rq : candleRq) (rest : list candleRq)
        (i : nat) (from to : Z) (interval : CandleInterval).

Let now' := Truncate (Now acc i) (TruncateFn rq).
Let call := mkCall (now' + DurationFn rq) now' (Interval rq) figi.

Lemma priceLoop_error (err : error) :
  answer acc call = inl err ->
  priceLoop acc figi (rq :: rest) i from to interval = ([call], inl err).
Proof. unfold answer, call, now'. simpl. now intros ->. Qed.

Lemma priceLoop_price (candles : list Candle.t) (candle : Candle.t) :
  answer acc call = inr candles ->
  candleLatest candles = Some candle ->
  (Candle.ClosePrice candle =? 0)%float = false ->
  priceLoop acc figi (rq :: rest) i from to interval
  = ([call], inr (Candle.ClosePrice candle)).
Proof. unfold answer, call, now'. simpl. now intros -> -> ->. Qed.

Lemma priceLoop_noPrice (candles : list Candle.t) :
  answer acc call = inr candles ->
  noPrice candles ->
  priceLoop acc figi (rq :: rest) i from to interval
  = (call :: fst (priceLoop acc figi rest (S i) (callFrom call) (callTo call) (Interval rq)),
     snd (priceLoop acc figi rest (S i) (callFrom call) (callTo call) (Interval rq))).
Proof.
  unfold answer, call, now', noPrice. simpl. intros ->.
  destruct (candleLatest candles) as [candle|].
  - intros ->. simpl. now destruct (priceLoop _ _ _ _ _ _ _).
  - intros _. now destruct (priceLoop _ _ _ _ _ _ _).
Qed.
End PriceLoop.

Lemma requestWindows_eq :
  requestWindows
  = [ (CandleInterval1Min, 60 * Minute);
      (CandleInterval1Hour, 24 * Hour);
      (CandleInterval1Day, 7 * 24 * Hour) ].
Proof. reflexivity. Qed.

(** C4, as the code has it: the resolver asks for the last 60 minutes by
    the minute, then the last 24 hours by the hour, then the last 7 days by
    the day (the bounds of the last two cut to the hour).  When the first
    two windows have no price and the latest candle of the third closes
    above or below zero, it returns that close and no error, after exactly
    these three calls; that candle has the latest timestamp of the
    window. *)
Theorem price_from_third_window (acc : TcfAccount) (figi : string)
    (candles1 candles2 candles3 : list Candle.t) (candle : Candle.t) :
  answer acc (call1 acc figi) = inr candles1 -> noPrice candles1 ->
  answer acc (call2 acc figi) = inr candles2 -> noPrice candles2 ->
  answer acc (call3 acc figi) = inr candles3 ->
  candleLatest candles3 = Some candle ->
  (Candle.ClosePrice candle =? 0)%float = false ->
  GetCurrentPriceCalls acc figi
  = ([call1 acc figi; call2 acc figi; call3 acc figi], inr (Candle.ClosePrice candle))
  /\ windowsOf [call1 acc figi; call2 acc figi; call3 acc figi] = requestWindows
  /\ candle ∈ candles3
  /\ (forall d, d ∈ candles3 -> Candle.TS d <= Candle.TS candle).
Proof.
  intros H1 Hn1 H2 Hn2 H3 Hlatest Hclose.
  split; [|split; [|now apply candleLatest_Some]].
  - unfold GetCurrentPriceCalls, requests.
    erewrite priceLoop_noPrice; [|exact H1|exact Hn1].
    erewrite priceLoop_noPrice; [|exact H2|exact Hn2].
    erewrite priceLoop_price; [|exact H3|exact Hlatest|exact Hclose].
    reflexivity.
  - unfold windowsOf, call1, call2, call3. cbn [fmap list_fmap callInterval callTo callFrom].
    rewrite requestWindows_eq. repeat f_equal; lia.
Qed.

Lemma price_from_third_window_witness :
  GetCurrentPriceCalls Scenario.account "FIGI-A"
  = ([call1 Scenario.account "FIGI-A"; call2 Scenario.account "FIGI-A";
      call3 Scenario.account "FIGI-A"], inr 120%float).
Proof.
  refine (proj1 (price_from_third_window Scenario.account "FIGI-A" [] []
                   [Candle.mk (900 * Hour) 110; Candle.mk (990 * Hour) 120]
                   (Candle.mk (990 * Hour) 120) _ _ _ _ _ _ _));
    try reflexivity; exact I.
Defined.

(** Candles by the hour over the last seven days are never asked for: a
    client that has only those gets three calls, the third by the day, and
    the error. *)
Lemma third_window_counterexample :
  windowsOf (fst (GetCurrentPriceCalls Scenario.accountHourly "FIGI-A")) <> specWindows
  /\ GetCurrentPrice Scenario.accountHourly "FIGI-A"
     = inl (PriceUnavailable "FIGI-A" (832 * Hour) (1000 * Hour) CandleInterval1Day).
Proof. split; [vm_compute; discriminate | vm_compute; reflexivity]. Qed.

(** C5, as the code has it: an error of the client ends the resolution at
    the call that met it, and is returned as it is; a window is passed over
    when it has no candle or its latest candle closes at zero; when the
    three windows are passed over, the error carries the instrument and the
    bounds and granularity of the third window. *)
Theorem price_errors (acc : TcfAccount) (figi : string) :
  (forall err,
     answer acc (call1 acc figi) = inl err ->
     GetCurrentPriceCalls acc figi = ([call1 acc figi], inl err))
  /\ (forall candles1 err,
        answer acc (call1 acc figi) = inr candles1 -> noPrice candles1 ->
        answer acc (call2 acc figi) = inl err ->
        GetCurrentPriceCalls acc figi = ([call1 acc figi; call2 acc figi], inl err))
  /\ (forall candles1 candles2 err,
        answer acc (call1 acc figi) = inr candles1 -> noPrice candles1 ->
        answer acc (call2 acc figi) = inr candles2 -> noPrice candles2 ->
        answer acc (call3 acc figi) = inl err ->
        GetCurrentPriceCalls acc figi
        = ([call1 acc figi; call2 acc figi; call3 acc figi], inl err))
  /\ (forall candles1 candles2 candles3,
        answer acc (call1 acc figi) = inr candles1 -> noPrice candles1 ->
        answer acc (call2 acc figi) = inr candles2 -> noPrice candles2 ->
        answer acc (call3 acc figi) = inr candles3 -> noPrice candles3 ->
        exists err,
          GetCurrentPriceCalls acc figi
          = ([call1 acc figi; call2 acc figi; call3 acc figi], inl err)
          /\ namesWindow err (call3 acc figi))
  /\ (forall candles1 candle,
        answer acc (call1 acc figi) = inr candles1 ->
        candleLatest candles1 = Some candle ->
        (Candle.ClosePrice candle =? 0)%float = false ->
        GetCurrentPriceCalls acc figi = ([call1 acc figi], inr (Candle.ClosePrice candle))).
Proof.
  unfold GetCurrentPriceCalls, requests. repeat split.
  - intros err H1. erewrite priceLoop_error; [reflexivity|exact H1].
  - intros candles1 err H1 Hn1 H2.
    erewrite priceLoop_noPrice; [|exact H1|exact Hn1].
    erewrite priceLoop_error; [reflexivity|exact H2].
  - intros candles1 candles2 err H1 Hn1 H2 Hn2 H3.
    erewrite priceLoop_noPrice; [|exact H1|exact Hn1].
    erewrite priceLoop_noPrice; [|exact H2|exact Hn2].
    erewrite priceLoop_error; [reflexivity|exact H3].
  - intros candles1 candles2 candles3 H1 Hn1 H2 Hn2 H3 Hn3.
    erewrite priceLoop_noPrice; [|exact H1|exact Hn1].
    erewrite priceLoop_noPrice; [|exact H2|exact Hn2].
    erewrite priceLoop_noPrice; [|exact H3|exact Hn3].
    eexists. split; reflexivity.
  - intros candles1 candle H1 Hlatest Hclose.
    erewrite priceLoop_price; [reflexivity|exact H1|exact Hlatest|exact Hclose].
Qed.

Lemma price_errors_witness :
  GetCurrentPriceCalls Scenario.accountB "FIGI-B"
  = ([call1 Scenario.accountB "FIGI-B"], inl Scenario.fetchFailed).
Proof.
  refine (proj1 (price_errors Scenario.accountB "FIGI-B") Scenario.fetchFailed _).
  reflexivity.
Defined.

(** A window by the minute whose latest candle closes at zero after one
    that closes at 5 is passed over; and the error of a client with no
    candle names the window by the day only, not the two tried before. *)
Lemma resolver_errors_counterexample :
  ~ advancesOnlyOnAllZero /\ ~ namesWindowsTried.
Proof.
  split.
  - intros Hclaim.
    specialize (Hclaim Scenario.accountStale "FIGI-A"
                  [Candle.mk (999 * Hour) 5; Candle.mk (1000 * Hour) 0] eq_refl).
    assert (Hnot : ~ allZeroClose [Candle.mk (999 * Hour) 5; Candle.mk (1000 * Hour) 0]).
    { intros Hall. inversion Hall as [|? ? Hfirst _]. discriminate Hfirst. }
    specialize (Hclaim Hnot). vm_compute in Hclaim. discriminate.
  - intros Hclaim.
    specialize (Hclaim Scenario.accountEmpty "FIGI-A" _ _ eq_refl eq_refl).
    inversion Hclaim as [|? ? Hfirst _]. vm_compute in Hfirst. discriminate.
Qed.

(** ** Operation aggregator *)

Lemma groupOf_cons (figi : string) (oper : Operation.t) (operations : list Operation.t) :
  groupOf figi (oper :: operations)
  = if String.eqb (Operation.FIGI oper) figi && negb (String.eqb figi EmptyString)
    then oper :: groupOf figi operations
    else groupOf figi operations.
Proof.
  unfold groupOf. simpl.
  destruct (String.eqb figi EmptyString); [now rewrite andb_false_r|].
  now rewrite andb_true_r.
Qed.

Lemma aggStep_fold (operations : list Operation.t) :
  forall (agg : gmap string (list Operation.t)) (figi : string),
    fold_left aggStep operations agg !! figi
    = match groupOf figi operations with
      | [] => agg !! figi
      | group => Some (default [] (agg !! figi) ++ group)
      end.
Proof.
  induction operations as [|oper operations IH]; intros agg figi.
  - unfold groupOf. simpl. now destruct (String.eqb figi EmptyString).
  - cbn [fold_left]. rewrite IH, groupOf_cons. unfold aggStep.
    destruct (String.eqb_spec (Operation.FIGI oper) EmptyString) as [Hempty|Hfigi].
    + destruct (String.eqb_spec (Operation.FIGI oper) figi) as [<-|Hne]; simpl.
      * rewrite Hempty. reflexivity.
      * reflexivity.
    + destruct (String.eqb_spec (Operation.FIGI oper) figi) as [<-|Hne]; simpl.
      * destruct (String.eqb_spec (Operation.FIGI oper) EmptyString); [contradiction|].
        simpl. rewrite lookup_insert_eq. simpl.
        destruct (groupOf (Operation.FIGI oper) operations); [reflexivity|].
        now rewrite <- app_assoc.
      * now rewrite lookup_insert_ne.
Qed.

Lemma aggOperationsByFigi_groupOf (operations : list Operation.t) (figi : string) :
  aggOperationsByFigi operations !! figi
  = match groupOf figi operations with
    | [] => None
    | group => Some group
    end.
Proof.
  unfold aggOperationsByFigi.
  change (fold_left _ operations ∅) with (fold_left aggStep operations ∅).
  rewrite aggStep_fold, lookup_empty. reflexivity.
Qed.

Lemma groupOf_elem_of (figi : string) (operations : list Operation.t) (oper : Operation.t) :
  oper ∈ groupOf figi operations
  <-> oper ∈ operations /\ Operation.FIGI oper = figi /\ figi <> EmptyString.
Proof.
  unfold groupOf. destruct (String.eqb_spec figi EmptyString) as [->|Hne].
  - split; [intros H; inversion H | intros (_ & _ & H); contradiction].
  - rewrite list_elem_of_In, filter_In, <- list_elem_of_In, String.eqb_eq. tauto.
Qed.

(** X1: [aggOperationsByFigi] maps an instrument to the operations that
    carry it, in their input order, and has no entry for an instrument no
    operation carries nor for the empty identifier: an operation with an
    identifier is in the group of that identifier and in no other, one
    without is in no group. *)
Theorem aggOperationsByFigi_groups (operations : list Operation.t) :
  (forall figi,
     aggOperationsByFigi operations !! figi
     = match groupOf figi operations with
       | [] => None
       | group => Some group
       end)
  /\ (forall figi group oper,
        aggOperationsByFigi operations !! figi = Some group ->
        (oper ∈ group
         <-> oper ∈ operations /\ Operation.FIGI oper = figi /\ figi <> EmptyString))
  /\ aggOperationsByFigi operations !! EmptyString = None.
Proof.
  split; [apply aggOperationsByFigi_groupOf|]. split.
  - intros figi group oper. rewrite aggOperationsByFigi_groupOf.
    rewrite <- groupOf_elem_of.
    destruct (groupOf figi operations); [discriminate|]. now intros [= <-].
  - now rewrite aggOperationsByFigi_groupOf.
Qed.

Lemma groupOf_filterOperations (figi : string) (operations : list Operation.t) :
  figi <> EmptyString ->
  filterOperations operations (Some (byFIGIs [figi])) = groupOf figi operations.
Proof.
  intros Hfigi. rewrite filterOperations_filter. unfold groupOf.
  destruct (String.eqb_spec figi EmptyString); [contradiction|].
  apply filter_ext. intros oper. unfold criteriaMatch, byFIGIs. simpl.
  rewrite String.eqb_sym. destruct (String.eqb _ _); reflexivity.
Qed.

Lemma filter_filter_same {A} (keep : A -> bool) (l : list A) :
  List.filter keep (List.filter keep l) = List.filter keep l.
Proof.
  induction l as [|x l IH]; simpl; [reflexivity|].
  destruct (keep x) eqn:Hx; simpl; [rewrite Hx, IH|]; auto.
Qed.

(** X2: the group a goroutine is launched with is not empty and is the
    whole of the operations of its instrument; the filter by instrument at
    the head of [balanceItemToCh] keeps all of it. *)
Theorem launched_group (operations group : list Operation.t) (figi : string) :
  aggOperationsByFigi operations !! figi = Some group ->
  figi <> EmptyString
  /\ group <> []
  /\ group = filterOperations operations (Some (byFIGIs [figi]))
  /\ filterOperations group (Some (byFIGIs [figi])) = group.
Proof.
  rewrite aggOperationsByFigi_groupOf. intros Hgroup.
  assert (Hfigi : figi <> EmptyString).
  { intros ->. unfold groupOf in Hgroup. simpl in Hgroup. discriminate. }
  assert (Heq : group = groupOf figi operations).
  { destruct (groupOf figi operations); [discriminate|]. now injection Hgroup. }
  split; [assumption|]. split.
  - rewrite Heq in *. now destruct (groupOf figi operations).
  - rewrite !groupOf_filterOperations by assumption. split; [assumption|].
    rewrite Heq. unfold groupOf. destruct (String.eqb figi EmptyString); [reflexivity|].
    apply filter_filter_same.
Qed.

(** ** The sort of the candles *)

Lemma insertCandle_Permutation (c : Candle.t) (sorted : list Candle.t) :
  insertCandle c sorted ≡ₚ c :: sorted.
Proof.
  induction sorted as [|d sorted IH]; simpl; [reflexivity|].
  destruct (Candle.TS c <? Candle.TS d); [|reflexivity].
  rewrite IH. apply Permutation_swap.
Qed.

Lemma insertCandle_elem_of (c x : Candle.t) (sorted : list Candle.t) :
  x ∈ insertCandle c sorted -> x = c \/ x ∈ sorted.
Proof.
  intros Hin. rewrite insertCandle_Permutation in Hin.
  apply elem_of_cons in Hin. exact Hin.
Qed.

Lemma insertCandle_sorted (c : Candle.t) (sorted : list Candle.t) :
  StronglySorted notEarlier sorted -> StronglySorted notEarlier (insertCandle c sorted).
Proof.
  induction 1 as [|d sorted Hsorted IH Hd]; simpl.
  - repeat constructor.
  - destruct (Z.ltb_spec (Candle.TS c) (Candle.TS d)) as [Hlt|Hge].
    + constructor; [assumption|].
      apply Forall_forall. intros x Hx.
      apply insertCandle_elem_of in Hx as [->|Hx].
      * unfold notEarlier. lia.
      * rewrite Forall_forall in Hd. now apply Hd.
    + constructor; [now constructor|].
      constructor; [exact Hge|].
      apply Forall_forall. intros x Hx. rewrite Forall_forall in Hd.
      specialize (Hd x Hx). unfold notEarlier in *. lia.
Qed.

Lemma insertCandle_same_ts (ts : Z) (c : Candle.t) (sorted : list Candle.t) :
  StronglySorted notEarlier sorted ->
  List.filter (fun d => Candle.TS d =? ts) (insertCandle c sorted)
  = List.filter (fun d => Candle.TS d =? ts) (c :: sorted).
Proof.
  induction 1 as [|d sorted Hsorted IH Hd]; [reflexivity|].
  cbn [insertCandle]. destruct (Z.ltb_spec (Candle.TS c) (Candle.TS d)) as [Hlt|Hge];
    [|reflexivity].
  cbn [List.filter] in *. rewrite IH.
  destruct (Z.eqb_spec (Candle.TS d) ts) as [Hdts|Hdts];
    destruct (Z.eqb_spec (Candle.TS c) ts) as [Hcts|Hcts]; try reflexivity.
  lia.
Qed.

Lemma sortStable_sorted (candles : list Candle.t) :
  StronglySorted notEarlier (sortStable candles).
Proof.
  induction candles as [|c candles IH]; simpl; [constructor|].
  now apply insertCandle_sorted.
Qed.

(** X4: the sort of [candleLatest] rearranges the candles by decreasing
    timestamp and keeps the candles of one timestamp in their input order. *)
Theorem sortStable_stable_sort (candles : list Candle.t) :
  sortStable candles ≡ₚ candles
  /\ StronglySorted notEarlier (sortStable candles)
  /\ forall ts, List.filter (fun d => Candle.TS d =? ts) (sortStable candles)
                = List.filter (fun d => Candle.TS d =? ts) candles.
Proof.
  split; [|split; [apply sortStable_sorted|]].
  - induction candles as [|c candles IH]; simpl; [reflexivity|].
    now rewrite insertCandle_Permutation, IH.
  - intros ts. induction candles as [|c candles IH]; [reflexivity|].
    cbn [sortStable fold_right].
    change (fold_right insertCandle [] candles) with (sortStable candles).
    rewrite insertCandle_same_ts by apply sortStable_sorted.
    cbn [List.filter]. now rewrite IH.
Qed.

Lemma sortStable_first (candles : list Candle.t) :
  forall c rest, sortStable candles = c :: rest ->
    exists before after,
      candles = before ++ c :: after
      /\ Forall (fun d => Candle.TS d < Candle.TS c) before
      /\ Forall (fun d => Candle.TS d <= Candle.TS c) after.
Proof.
  induction candles as [|x candles IH]; intros c rest; [discriminate|].
  cbn [sortStable fold_right].
  change (fold_right insertCandle [] candles) with (sortStable candles).
  destruct (sortStable candles) as [|d sorted] eqn:Hsorted.
  - pose proof (sortStable_head candles) as Hnil. rewrite Hsorted in Hnil. subst candles.
    simpl. intros [= <- <-]. exists [], []. repeat split; constructor.
  - destruct (IH d sorted eq_refl) as (before & after & Heq & Hbefore & Hafter).
    cbn [insertCandle]. destruct (Z.ltb_spec (Candle.TS x) (Candle.TS d)) as [Hlt|Hge].
    + intros [= <- <-]. exists (x :: before), after. rewrite Heq.
      split; [reflexivity|]. split; [now constructor | assumption].
    + intros [= <- <-]. exists [], candles. split; [reflexivity|].
      split; [constructor|]. rewrite Heq.
      apply Forall_app. split; [|constructor; [assumption|]].
      * eapply Forall_impl; [exact Hbefore|]. simpl. intros; lia.
      * eapply Forall_impl; [exact Hafter|]. simpl. intros; lia.
Qed.

(** X3: [candleLatest] returns nil for an empty slice only, and otherwise
    the first candle, in input order, of those with the latest timestamp:
    every candle before it is strictly earlier, none after it is later. *)
Theorem candleLatest_first_latest (candles : list Candle.t) :
  match candleLatest candles with
  | None => candles = []
  | Some candle =>
      exists before after,
        candles = before ++ candle :: after
        /\ Forall (fun d => Candle.TS d < Candle.TS candle) before
        /\ Forall (fun d => Candle.TS d <= Candle.TS candle) after
  end.
Proof.
  unfold candleLatest. destruct (sortStable candles) as [|c rest] eqn:Hsorted.
  - pose proof (sortStable_head candles) as H. now rewrite Hsorted in H.
  - eapply sortStable_first. eassumption.
Qed.

(** ** The calls of the price resolver, and the operations fetched *)

Lemma resolved_cons (acc : TcfAccount) (figi : string) (rq : candleRq)
    (rqs : list candleRq) (call : candlesCall) (calls : list candlesCall)
    (res : error + float) :
  callFigi call = figi ->
  (callInterval call, callTo call - callFrom call) = windowOf rq ->
  rqs <> [] ->
  resolved acc figi rqs calls res ->
  resolved acc figi (rq :: rqs) (call :: calls) res.
Proof.
  intros Hfigi Hwindow Hrqs (Hlen & Hne & Hall & Hprefix & Hprice).
  split; [simpl; lia|]. split; [discriminate|]. split; [now constructor|]. split.
  - unfold windowsOf in *. cbn [fmap list_fmap]. rewrite Hwindow.
    now apply prefix_cons.
  - intros price Hres. destruct (Hprice price Hres) as (Hnz & c & cs & cd & Hlast & H).
    split; [assumption|]. exists c, cs, cd. split; [|exact H].
    specialize (Hne Hrqs). destruct calls; [contradiction|]. exact Hlast.
Qed.

Lemma priceLoop_resolved (acc : TcfAccount) (figi : string) (rqs : list candleRq) :
  forall i from to interval,
    rqs <> [] ->
    resolved acc figi rqs (fst (priceLoop acc figi rqs i from to interval))
             (snd (priceLoop acc figi rqs i from to interval)).
Proof.
  induction rqs as [|rq rqs IH]; intros i from to interval Hrqs; [contradiction|].
  cbn [priceLoop].
  set (now := Truncate (Now acc i) (TruncateFn rq)).
  set (call := mkCall (now + DurationFn rq) now (Interval rq) figi).
  assert (Hwindow : (callInterval call, callTo call - callFrom call) = windowOf rq).
  { unfold windowOf, call. simpl. f_equal. lia. }
  assert (Hone : forall res, (forall price, res = inr price ->
                   (price =? 0)%float = false
                   /\ exists candles candle,
                        answer acc call = inr candles
                        /\ candleLatest candles = Some candle
                        /\ price = Candle.ClosePrice candle) ->
                 resolved acc figi (rq :: rqs) [call] res).
  { intros res Hres. split; [simpl; lia|]. split; [discriminate|].
    split; [now repeat constructor|]. split.
    - unfold windowsOf. cbn [fmap list_fmap]. rewrite Hwindow.
      apply prefix_cons, prefix_nil.
    - intros price Hp. destruct (Hres price Hp) as (Hnz & cs & cd & H).
      split; [assumption|]. exists call, cs, cd. split; [reflexivity|exact H]. }
  assert (Hnext : resolved acc figi (rq :: rqs)
                    (call :: fst (priceLoop acc figi rqs (S i) (now + DurationFn rq) now
                                            (Interval rq)))
                    (snd (priceLoop acc figi rqs (S i) (now + DurationFn rq) now
                                    (Interval rq)))).
  { destruct rqs as [|rq' rqs'].
    - simpl. split; [simpl; lia|]. split; [discriminate|].
      split; [now repeat constructor|]. split.
      + unfold windowsOf. cbn [fmap list_fmap]. rewrite Hwindow. reflexivity.
      + discriminate.
    - apply resolved_cons; [reflexivity | exact Hwindow | discriminate |].
      apply IH. discriminate. }
  destruct (Candles acc (now + DurationFn rq) now (Interval rq) figi)
    as [err|candles] eqn:Hanswer.
  - apply Hone. discriminate.
  - destruct (candleLatest candles) as [candle|] eqn:Hlatest.
    + destruct (Candle.ClosePrice candle =? 0)%float eqn:Hclose; cbn [negb].
      * destruct (priceLoop acc figi rqs (S i) _ _ _). exact Hnext.
      * apply Hone. intros price [= <-]. split; [assumption|].
        exists candles, candle. repeat split; assumption.
    + destruct (priceLoop acc figi rqs (S i) _ _ _). exact Hnext.
Qed.

(** X5: whatever the client answers, [GetCurrentPrice] makes one to three
    calls, all for the instrument asked and over the fixed windows in their
    order, and a price it returns is never zero: it is the close of the
    latest candle of the answer to the last call. *)
Theorem GetCurrentPrice_resolved (acc : TcfAccount) (figi : string) :
  let calls := fst (GetCurrentPriceCalls acc figi) in
  (1 <= length calls <= 3)%nat
  /\ Forall (fun call => callFigi call = figi) calls
  /\ windowsOf calls `prefix_of` requestWindows
  /\ forall price, GetCurrentPrice acc figi = inr price ->
       (price =? 0)%float = false
       /\ exists call candles candle,
            last calls = Some call
            /\ answer acc call = inr candles
            /\ candleLatest candles = Some candle
            /\ price = Candle.ClosePrice candle.
Proof.
  intros calls.
  destruct (priceLoop_resolved acc figi requests 0 0 0 CandleIntervalZero ltac:(discriminate))
    as (Hlen & Hne & Hall & Hprefix & Hprice).
  fold (GetCurrentPriceCalls acc figi) in *. fold calls in Hlen, Hne, Hall, Hprefix, Hprice.
  split; [|split; [assumption|split; [assumption|exact Hprice]]].
  split; [|exact Hlen].
  specialize (Hne ltac:(discriminate)). destruct calls; [contradiction|simpl; lia].
Qed.

(** X6: [GetOperations] returns the error of the client when fetching the
    operations fails, or, for a request scoped to the portfolio, when
    fetching the positions fails; otherwise the operations fetched that are
    done, not excluded and, for a request scoped to the portfolio, without
    instrument or of an instrument held, in the order fetched. *)
Theorem GetOperations_result (acc : TcfAccount) (request : Request.t) :
  match Operations acc (Request.PeriodFrom request) (Request.PeriodTo request)
                   (Request.Figi request) with
  | inl err => GetOperations acc request = inl err
  | inr fetched =>
      match Portfolio acc with
      | inl err =>
          if Request.ForPortfolio request then GetOperations acc request = inl err
          else exists operations,
                 GetOperations acc request = inr operations
                 /\ operations = List.filter (criteriaMatch (operationsCriteria request [])) fetched
      | inr positions =>
          exists operations,
            GetOperations acc request = inr operations
            /\ operations
               = List.filter (criteriaMatch (operationsCriteria request positions)) fetched
            /\ (operations `sublist_of` fetched)
            /\ Forall (fun oper =>
                         Operation.Status oper = "Done"
                         /\ (Operation.FIGI oper ∉ Request.ExcludeFIGIs request)
                         /\ (Request.ForPortfolio request = true ->
                             Operation.FIGI oper = EmptyString
                             \/ Operation.FIGI oper ∈ positions))
                      operations
      end
  end.
Proof.
  unfold GetOperations, operationsCriteria.
  destruct (Operations acc _ _ _) as [err|fetched]; [reflexivity|].
  destruct (Portfolio acc) as [err|positions].
  - destruct (Request.ForPortfolio request); [reflexivity|].
    eexists. split; [reflexivity|]. apply filterOperations_filter.
  - exists (List.filter
              (criteriaMatch
                 (mkCriteria (if Request.ForPortfolio request
                              then EmptyString :: positions else [])
                             "Done" [] (Request.ExcludeFIGIs request))) fetched).
    split.
    { destruct (Request.ForPortfolio request); cbn [FIGIs Status OperationTypes ExcludeFIGIs app];
        now rewrite filterOperations_filter. }
    split; [reflexivity|]. split; [apply filter_sublist|].
    apply Forall_forall. intros oper Hin.
    apply list_elem_of_In, filter_In in Hin as [_ Hmatch].
    apply criteriaMatch_satisfies in Hmatch as (Hfigis & Hstatus & _ & Hexcl).
    cbn [FIGIs Status OperationTypes ExcludeFIGIs] in *.
    split; [|split].
    + destruct Hstatus as [Hs|Hs]; [discriminate|assumption].
    + destruct Hexcl as [-> |Hexcl]; [|assumption]. intros H. inversion H.
    + intros Hfor. rewrite Hfor in Hfigis.
      destruct Hfigis as [Hnil|Hin]; [discriminate|].
      apply elem_of_cons in Hin. exact Hin.
Qed.

(** ** The kinds of operation a balance line reads *)

Lemma filterOperations_ofTypes (operations : list Operation.t) (types : list string) :
  types <> [] ->
  filterOperations operations (Some (byOperationTypes types))
  = List.filter (ofTypes types) operations.
Proof.
  intros Htypes. rewrite filterOperations_filter. apply filter_ext.
  intros oper. unfold criteriaMatch, byOperationTypes, ofTypes. simpl.
  destruct types; [contradiction|]. simpl. now rewrite andb_true_r.
Qed.

Lemma filter_filter_implied {A} (f g : A -> bool) (l : list A) :
  (forall x, f x = true -> g x = true) ->
  List.filter f (List.filter g l) = List.filter f l.
Proof.
  intros Himp. induction l as [|x l IH]; simpl; [reflexivity|].
  destruct (g x) eqn:Hg; simpl.
  - now rewrite IH.
  - destruct (f x) eqn:Hf; [|assumption]. apply Himp in Hf. congruence.
Qed.

Lemma ofTypes_incl (types types' : list string) (oper : Operation.t) :
  types ⊆ types' -> ofTypes types oper = true -> ofTypes types' oper = true.
Proof. unfold ofTypes. rewrite !contains_elem_of. auto. Qed.

(** X7: operations of a kind other than Buy, BuyCard, Sell, Dividend and
    TaxDividend have no part in a balance line: the line built from a list
    of operations is the one built from its operations of these kinds. *)
Theorem buildBalanceItem_kinds (instrument : SearchInstrument.t) (currentPrice : float)
    (figiOperations : list Operation.t) :
  buildBalanceItem instrument currentPrice figiOperations
  = buildBalanceItem instrument currentPrice
      (List.filter (ofTypes builderTypes) figiOperations).
Proof.
  unfold buildBalanceItem.
  assert (Hacc : accumulate (List.filter (ofTypes builderTypes) figiOperations)
                 = accumulate figiOperations).
  { unfold accumulate.
    rewrite !filterOperations_ofTypes by discriminate.
    rewrite !filter_filter_implied; [reflexivity|..];
      intros oper; apply ofTypes_incl; unfold builderTypes; intros x Hx;
      apply elem_of_app; [now left| |];
      apply list_elem_of_singleton in Hx as ->; right; repeat constructor. }
  rewrite Hacc. reflexivity.
Qed.

Lemma addDividend_fields (l : list Operation.t) (a : accumulators) :
  accBrokerCommission (fold_left addDividend l a) = accBrokerCommission a
  /\ accOperation (fold_left addDividend l a) = accOperation a
  /\ accDividendTax (fold_left addDividend l a) = accDividendTax a.
Proof.
  revert a. induction l as [|o l IH]; intros a; simpl; [auto|].
  apply (IH (addDividend a o)).
Qed.

Lemma addDividendTax_fields (l : list Operation.t) (a : accumulators) :
  accBrokerCommission (fold_left addDividendTax l a) = accBrokerCommission a
  /\ accOperation (fold_left addDividendTax l a) = accOperation a
  /\ accDividend (fold_left addDividendTax l a) = accDividend a.
Proof.
  revert a. induction l as [|o l IH]; intros a; simpl; [auto|].
  apply (IH (addDividendTax a o)).
Qed.

Lemma addTrade_fields (l : list Operation.t) (a : accumulators) :
  accDividend (fold_left addTrade l a) = accDividend a
  /\ accDividendTax (fold_left addTrade l a) = accDividendTax a.
Proof.
  revert a. induction l as [|o l IH]; intros a; simpl; [auto|].
  apply (IH (addTrade a o)).
Qed.

Lemma filter_none {A} (keep : A -> bool) (l : list A) :
  Forall (fun x => keep x = false) l -> List.filter keep l = [].
Proof.
  induction 1 as [|x l Hx _ IH]; simpl; [reflexivity|]. now rewrite Hx.
Qed.

(** X8: a line built from operations with no buy and no sell among them
    holds nothing and has paid nothing: quantity 0, operation amount and
    broker commission exactly zero, and a holding value of zero at every
    finite price.  Likewise without dividend the dividend amount is zero,
    and without dividend tax the tax is. *)
Theorem buildBalanceItem_absent_kinds (instrument : SearchInstrument.t)
    (currentPrice : float) (figiOperations : list Operation.t) :
  let b := buildBalanceItem instrument currentPrice figiOperations in
  (Forall (fun oper => ofTypes tradeTypes oper = false) figiOperations ->
   TcfBalanceItem.PortfolioQuantity b = 0
   /\ TcfBalanceItem.OperationAmount b = 0%float
   /\ TcfBalanceItem.BrokerCommissionAmount b = 0%float
   /\ (finite64 currentPrice -> (TcfBalanceItem.PortfolioAmount b =? 0)%float = true))
  /\ (Forall (fun oper => ofTypes ["Dividend"] oper = false) figiOperations ->
      TcfBalanceItem.DividendAmount b = 0%float)
  /\ (Forall (fun oper => ofTypes ["TaxDividend"] oper = false) figiOperations ->
      TcfBalanceItem.DividendTaxAmount b = 0%float).
Proof.
  intros b. unfold b, buildBalanceItem, accumulate.
  cbn [TcfBalanceItem.PortfolioQuantity TcfBalanceItem.OperationAmount
       TcfBalanceItem.BrokerCommissionAmount TcfBalanceItem.PortfolioAmount
       TcfBalanceItem.DividendAmount TcfBalanceItem.DividendTaxAmount].
  rewrite !filterOperations_ofTypes by discriminate.
  split; [|split].
  - intros Hnone. rewrite (filter_none _ _ Hnone). cbn [fold_left].
    rewrite addDividendTax_quantity, addDividend_quantity.
    destruct (addDividendTax_fields
                (List.filter (ofTypes ["TaxDividend"]) figiOperations)
                (fold_left addDividend (List.filter (ofTypes ["Dividend"]) figiOperations)
                           (mkAcc 0 0 0 0 0))) as (-> & -> & _).
    destruct (addDividend_fields
                (List.filter (ofTypes ["Dividend"]) figiOperations)
                (mkAcc 0 0 0 0 0)) as (-> & -> & _).
    cbn [accQuantity accOperation accBrokerCommission clampQuantity Z.ltb Z.compare].
    repeat split; try reflexivity. apply zero_amount.
  - intros Hnone. rewrite (filter_none _ _ Hnone). cbn [fold_left].
    destruct (addDividendTax_fields
                (List.filter (ofTypes ["TaxDividend"]) figiOperations)
                (fold_left addTrade (List.filter (ofTypes tradeTypes) figiOperations)
                           (mkAcc 0 0 0 0 0))) as (_ & _ & ->).
    destruct (addTrade_fields (List.filter (ofTypes tradeTypes) figiOperations)
                (mkAcc 0 0 0 0 0)) as (-> & _).
    reflexivity.
  - intros Hnone. rewrite (filter_none _ _ Hnone). cbn [fold_left].
    destruct (addDividend_fields (List.filter (ofTypes ["Dividend"]) figiOperations)
                (fold_left addTrade (List.filter (ofTypes tradeTypes) figiOperations)
                           (mkAcc 0 0 0 0 0))) as (_ & _ & ->).
    destruct (addTrade_fields (List.filter (ofTypes tradeTypes) figiOperations)
                (mkAcc 0 0 0 0 0)) as (_ & ->).
    reflexivity.
Qed.

(** X9: when the net signed quantity of the buys and sells fits an [int],
    the quantity of the line is that net quantity, or 0 when it is
    negative, even where the running total left the range of [int] on the
    way. *)
Theorem quantity_exact (instrument : SearchInstrument.t) (currentPrice : float)
    (figiOperations : list Operation.t) :
  - 2 ^ 63 <= netQuantity figiOperations < 2 ^ 63 ->
  TcfBalanceItem.PortfolioQuantity (buildBalanceItem instrument currentPrice figiOperations)
  = Z.max 0 (netQuantity figiOperations).
Proof.
  intros Hfit. rewrite buildBalanceItem_quantity, wrap64_small by assumption.
  unfold clampQuantity. destruct (Z.ltb_spec (netQuantity figiOperations) 0); lia.
Qed.

(** X12: a criteria with no field set keeps every operation; the filter
    works through a list piece by piece; and filtering again by the same
    criteria changes nothing. *)
Theorem filterOperations_algebra (criteria : filterOperationsCriteria)
    (operations more : list Operation.t) :
  filterOperations operations (Some (mkCriteria [] EmptyString [] [])) = operations
  /\ filterOperations (operations ++ more) (Some criteria)
     = filterOperations operations (Some criteria) ++ filterOperations more (Some criteria)
  /\ filterOperations (filterOperations operations (Some criteria)) (Some criteria)
     = filterOperations operations (Some criteria)
  /\ (length (filterOperations operations (Some criteria)) <= length operations)%nat.
Proof.
  rewrite !filterOperations_filter. repeat split.
  - induction operations as [|oper operations IH]; simpl; [reflexivity|].
    now rewrite IH.
  - apply List.filter_app.
  - apply filter_filter_implied. auto.
  - apply List.filter_length_le.
Qed.

(** ** The lines and the totals of a report *)

(** The loop takes its lines from distinct senders: the lines it appends
    and the senders it leaves make up the senders it started with. *)
Lemma collect_Permutation (n : nat) :
  forall sched pending balance balance',
    collect n sched pending balance = inr balance' ->
    exists taken rest,
      TcfPortfolioBalance.Items balance' = TcfPortfolioBalance.Items balance ++ taken
      /\ length taken = n
      /\ pending ≡ₚ (ToBalanceItemCh <$> taken) ++ rest.
Proof.
  induction n as [|n IH]; intros sched pending balance balance'; simpl.
  - intros [= <-]. exists [], pending. now rewrite app_nil_r.
  - destruct (select (hd None sched) pending) as [[balanceItem|err|] pending'] eqn:Hsel;
      [|discriminate..].
    apply select_item in Hsel as (k & Hk & ->).
    destruct (addBalanceItem balance balanceItem) as [balance1|] eqn:Hadd; [|discriminate].
    intros Hcollect. destruct (IH _ _ _ _ Hcollect) as (taken & rest & Hitems & Hlen & Hperm).
    exists (balanceItem :: taken), rest. split; [|split].
    + rewrite Hitems, (addBalanceItem_items _ _ _ Hadd), <- app_assoc. reflexivity.
    + simpl. now rewrite Hlen.
    + rewrite (delete_Permutation _ _ _ Hk), Hperm. reflexivity.
Qed.

(** X10: a report has one line for each instrument of the operations, and
    its lines are, in some order, the lines the launched goroutines built. *)
Theorem report_lines (acc : TcfAccount) (sched : list (option nat))
    (operations : list Operation.t) (report : TcfPortfolioBalance.t) :
  aggregate acc sched operations = Report report ->
  length (TcfPortfolioBalance.Items report) = size (aggOperationsByFigi operations)
  /\ ToBalanceItemCh <$> TcfPortfolioBalance.Items report
     ≡ₚ launch acc (aggOperationsByFigi operations).
Proof.
  unfold aggregate.
  destruct (collect _ _ _ _) as [early|balance] eqn:Hcollect.
  { intros ->. apply collect_early in Hcollect as [?|[err ?]]; discriminate. }
  intros Hroll. rewrite (rollUp_items _ _ _ Hroll).
  destruct (collect_Permutation _ _ _ _ _ Hcollect) as (taken & rest & Hitems & Hlen & Hperm).
  cbn [TcfPortfolioBalance.Items createEmptyBalance app] in Hitems. rewrite Hitems.
  split; [assumption|].
  assert (Hrest : rest = []).
  { apply Permutation_length in Hperm.
    rewrite length_launch, length_app, length_fmap, Hlen in Hperm.
    destruct rest; [reflexivity|simpl in Hperm; lia]. }
  rewrite Hperm, Hrest, app_nil_r. reflexivity.
Qed.

(** X11: a report has a total for each of RUB, USD and EUR and for no other
    currency; the total of a currency with no line, no service commission
    and no tax refund is zero in all its fields. *)
Theorem report_totals_seeded (acc : TcfAccount) (sched : list (option nat))
    (operations : list Operation.t) (report : TcfPortfolioBalance.t) :
  aggregate acc sched operations = Report report ->
  (forall c, is_Some (TcfPortfolioBalance.Total report !! c) <-> c ∈ seededCurrencies)
  /\ (forall c, c ∈ seededCurrencies ->
        ofCurrency TcfBalanceItem.Currency c (TcfPortfolioBalance.Items report) = [] ->
        ofCurrency Operation.Currency c (serviceCommissions operations) = [] ->
        ofCurrency Operation.Currency c (taxBacks operations) = [] ->
        TcfPortfolioBalance.Total report !! c = Some (TcfTotal.mk 0 0 0 0)).
Proof.
  intros Hreport. split.
  - intros c. rewrite (aggregate_total _ _ _ _ c Hreport), fmap_is_Some.
    apply createEmptyBalance_seededOnly.
  - intros c Hc Hlines Hsc Htb.
    rewrite (aggregate_total _ _ _ _ c Hreport), Hlines, Hsc, Htb.
    rewrite createEmptyBalance_lookup.
    apply contains_elem_of in Hc. rewrite Hc. reflexivity.
Qed.

Lemma aggOperationsByFigi_empty (operations : list Operation.t) :
  Forall (fun oper => Operation.FIGI oper = EmptyString) operations ->
  aggOperationsByFigi operations = ∅.
Proof.
  intros Hall. apply map_eq. intros figi.
  rewrite aggOperationsByFigi_groupOf, lookup_empty.
  assert (Hgroup : groupOf figi operations = []).
  { destruct (groupOf figi operations) as [|oper group] eqn:Hg; [reflexivity|exfalso].
    assert (Hin : oper ∈ groupOf figi operations) by (rewrite Hg; left).
    apply groupOf_elem_of in Hin as (Hin & Hfigi & Hne).
    rewrite Forall_forall in Hall. specialize (Hall _ Hin). congruence. }
  now rewrite Hgroup.
Qed.

(** X15: operations that carry no instrument launch no goroutine: the
    aggregation asks the client nothing, waits for nothing and goes
    straight to the roll-up of the seeded totals; with no operation at all
    it returns the report of no line and zero totals. *)
Theorem aggregate_no_instrument (acc : TcfAccount) (sched : list (option nat))
    (operations : list Operation.t) :
  (Forall (fun oper => Operation.FIGI oper = EmptyString) operations ->
   aggregate acc sched operations = rollUp operations createEmptyBalance)
  /\ aggregate acc sched [] = Report createEmptyBalance.
Proof.
  split.
  - intros Hall. unfold aggregate. rewrite (aggOperationsByFigi_empty _ Hall).
    rewrite map_size_empty. reflexivity.
  - reflexivity.
Qed.

(** ** A loop that ends in time *)

Lemma earliest_nonempty (pending : list (Z * message)) :
  pending <> [] -> exists k ready, earliest pending = Some (k, ready).
Proof.
  destruct pending as [|[ready m] pending]; [contradiction|]. intros _. simpl.
  destruct (earliest pending) as [[k' ready']|]; [|eauto].
  destruct (ready' <? ready); eauto.
Qed.

(** A loop over senders that are all ready by the instant [limit], itself
    within 20 seconds of the start: no timer fires. *)
Lemma timedSchedule_in_time (n : nat) :
  forall (now limit : Z) (pending : list (Z * message)) (balance : TcfPortfolioBalance.t),
    (n <= length pending)%nat ->
    now <= limit < now + collectTimeout ->
    (forall ready m, (ready, m) ∈ pending -> ready <= limit) ->
    Forall is_Some (fst (timedSchedule n now pending))
    /\ snd (timedSchedule n now pending) <= limit
    /\ forall e,
         collect n (fst (timedSchedule n now pending)) (snd <$> pending) balance
         = inl (Failure e) ->
         ToErrorCh e ∈ snd <$> pending.
Proof.
  induction n as [|n IH]; intros now limit pending balance Hlen Hlimit Hready.
  - simpl. split; [constructor|]. split; [lia|discriminate].
  - cbn [timedSchedule]. unfold timedPick.
    destruct (earliest_nonempty pending) as (k & ready & He).
    { destruct pending; [simpl in Hlen; lia|discriminate]. }
    rewrite He. destruct (earliest_Some _ _ _ He) as [[m Hk] Hmin].
    pose proof (Hready _ _ (list_elem_of_lookup_2 _ _ _ Hk)) as Hr.
    destruct (Z.ltb_spec ready (now + collectTimeout)) as [_|Hbad]; [|lia].
    rewrite Hk.
    assert (Hmsg : (snd <$> pending) !! k = Some m) by (now rewrite list_lookup_fmap, Hk).
    destruct m as [b|err].
    + specialize (IH (Z.max now ready) limit (delete k pending)).
      destruct (timedSchedule n (Z.max now ready) (delete k pending)) as [sched finish] eqn:Hs.
      cbn [fst snd] in *.
      assert (Hlen' : (n <= length (delete k pending))%nat).
      { rewrite length_delete by eauto. lia. }
      assert (Hready' : forall r m', (r, m') ∈ delete k pending -> r <= limit).
      { intros r m' Hin. apply (Hready r m'). eapply list_elem_of_delete_inv; eassumption. }
      split; [|split].
      * constructor; [eauto|]. apply (IH balance Hlen' ltac:(lia) Hready').
      * apply (IH balance Hlen' ltac:(lia) Hready').
      * intros e. cbn [collect hd tl]. unfold select. rewrite Hmsg.
        destruct (addBalanceItem balance b) as [balance1|]; [|discriminate].
        rewrite <- list_fmap_delete. intros Hfail.
        apply (IH balance1 Hlen' ltac:(lia) Hready') in Hfail.
        rewrite list_fmap_delete in Hfail.
        eapply list_elem_of_delete_inv; eassumption.
    + cbn [fst snd]. split; [repeat constructor; eauto|]. split; [lia|].
      intros e. cbn [collect hd]. unfold select. rewrite Hmsg. intros [= <-].
      eapply list_elem_of_lookup_2; eassumption.
Qed.

(** X13: when every launched computation is ready to report within 20
    seconds of the start of the loop, no timer fires: each receive takes a
    sender, the loop ends before the 20 seconds are over, and an error it
    returns is one a computation sent. *)
Theorem no_timeout_within_20s (now : Z) (pending : list (Z * message))
    (balance : TcfPortfolioBalance.t) :
  (forall ready m, (ready, m) ∈ pending -> ready < now + collectTimeout) ->
  let run := timedSchedule (length pending) now pending in
  Forall is_Some (fst run)
  /\ snd run < now + collectTimeout
  /\ forall e, collect (length pending) (fst run) (snd <$> pending) balance
               = inl (Failure e) ->
               ToErrorCh e ∈ snd <$> pending.
Proof.
  intros Hready run.
  destruct (timedSchedule_in_time (length pending) now (now + collectTimeout - 1)
              pending balance) as (Hpicks & Hfinish & Herr).
  - lia.
  - assert (0 < collectTimeout) by reflexivity. lia.
  - intros ready m Hin. specialize (Hready _ _ Hin). lia.
  - split; [assumption|]. split; [fold run in Hfinish; lia | assumption].
Qed.

(** ** The windows and the clock *)

Lemma Truncate_bounds (t d : Z) : 0 < d -> Truncate t d <= t < Truncate t d + d.
Proof.
  intros Hd. unfold Truncate. destruct (Z.leb_spec d 0) as [|_]; [lia|].
  pose proof (Z.mod_pos_bound t d Hd) as H. revert H. generalize (t mod d). intros r H. lia.
Qed.

Lemma Truncate_multiple (t d : Z) : 0 < d -> (d | Truncate t d).
Proof.
  intros Hd. unfold Truncate. destruct (Z.leb_spec d 0) as [|_]; [lia|].
  exists (t / d). pose proof (Z.div_mod t d ltac:(lia)) as H.
  revert H. generalize (t / d) (t mod d). intros q r H. lia.
Qed.

(** X16: the calls [GetCurrentPrice] makes are the first one, two or three
    of three fixed calls.  The window of each ends on the reading of the
    clock cut to the minute (first call) or to the hour (the other two), so
    never after the reading and less than that unit before it, and starts
    60 minutes, 24 hours and 7 days earlier. *)
Theorem GetCurrentPrice_calls (acc : TcfAccount) (figi : string) :
  fst (GetCurrentPriceCalls acc figi)
    `prefix_of` [call1 acc figi; call2 acc figi; call3 acc figi]
  /\ (callTo (call1 acc figi) <= Now acc 0 < callTo (call1 acc figi) + Minute
      /\ (Minute | callTo (call1 acc figi))
      /\ callFrom (call1 acc figi) = callTo (call1 acc figi) - 60 * Minute)
  /\ (callTo (call2 acc figi) <= Now acc 1 < callTo (call2 acc figi) + Hour
      /\ (Hour | callTo (call2 acc figi))
      /\ callFrom (call2 acc figi) = callTo (call2 acc figi) - 24 * Hour)
  /\ (callTo (call3 acc figi) <= Now acc 2 < callTo (call3 acc figi) + Hour
      /\ (Hour | callTo (call3 acc figi))
      /\ callFrom (call3 acc figi) = callTo (call3 acc figi) - 7 * 24 * Hour).
Proof.
  split.
  - unfold GetCurrentPriceCalls, requests. cbn [priceLoop Interval DurationFn TruncateFn].
    repeat match goal with
           | |- context [Candles ?a ?f ?t ?i ?g] =>
               destruct (Candles a f t i g) as [?err|?candles]
           | |- context [candleLatest ?c] => destruct (candleLatest c) as [?candle|]
           | |- context [negb ?b] => destruct b; cbn [negb]
           end;
      cbn [fst];
      first [ now exists [call2 acc figi; call3 acc figi]
            | now exists [call3 acc figi]
            | now exists [] ].
  - unfold call1, call2, call3. cbn [callTo callFrom].
    repeat split;
      try (apply Truncate_bounds; reflexivity);
      try (apply Truncate_multiple; reflexivity).
Qed.

(** ** The source of a line *)

Lemma balanceItemToCh_line (acc : TcfAccount) (figi : string)
    (group : list Operation.t) (balanceItem : TcfBalanceItem.t) :
  balanceItemToCh acc figi group = ToBalanceItemCh balanceItem ->
  exists price instrument,
    GetCurrentPrice acc figi = inr price
    /\ GetByFigi acc figi = inr instrument
    /\ balanceItem
       = buildBalanceItem instrument price (filterOperations group (Some (byFIGIs [figi]))).
Proof.
  unfold balanceItemToCh.
  destruct (GetCurrentPrice acc figi) as [err|price]; [discriminate|].
  destruct (GetByFigi acc figi) as [err|instrument]; [discriminate|].
  intros [= <-]. now exists price, instrument.
Qed.

Lemma aggregate_launched (acc : TcfAccount) (sched : list (option nat))
    (operations : list Operation.t) (report : TcfPortfolioBalance.t) :
  aggregate acc sched operations = Report report ->
  ToBalanceItemCh <$> TcfPortfolioBalance.Items report
  ≡ₚ launch acc (aggOperationsByFigi operations).
Proof.
  unfold aggregate.
  destruct (collect _ _ _ _) as [early|balance] eqn:Hcollect.
  { intros ->. apply collect_early in Hcollect as [?|[err ?]]; discriminate. }
  intros Hroll. rewrite (rollUp_items _ _ _ Hroll).
  destruct (collect_Permutation _ _ _ _ _ Hcollect) as (taken & rest & Hitems & Hlen & Hperm).
  cbn [TcfPortfolioBalance.Items createEmptyBalance app] in Hitems. rewrite Hitems.
  assert (Hrest : rest = []).
  { apply Permutation_length in Hperm.
    rewrite length_launch, length_app, length_fmap, Hlen in Hperm.
    destruct rest; [reflexivity|simpl in Hperm; lia]. }
  rewrite Hperm, Hrest, app_nil_r. reflexivity.
Qed.

Lemma group_filter_kept (operations group : list Operation.t) (figi : string) :
  aggOperationsByFigi operations !! figi = Some group ->
  filterOperations group (Some (byFIGIs [figi])) = group.
Proof.
  rewrite aggOperationsByFigi_groupOf. intros Hgroup.
  assert (Hfigi : figi <> EmptyString).
  { intros ->. unfold groupOf in Hgroup. simpl in Hgroup. discriminate. }
  assert (Heq : group = groupOf figi operations).
  { destruct (groupOf figi operations); [discriminate|]. now injection Hgroup. }
  rewrite !groupOf_filterOperations by assumption.
  rewrite Heq. unfold groupOf. destruct (String.eqb figi EmptyString); [reflexivity|].
  apply filter_filter_same.
Qed.

(** X17: a report is returned only when, for every instrument of the
    operations, both the price and the instrument were found; each of its
    lines is the line built for one such instrument from its group, with
    the identifier, ticker, name and currency the client gave for it, the
    price the resolver returned, which is not zero, and a service
    commission of zero. *)
Theorem report_line_source (acc : TcfAccount) (sched : list (option nat))
    (operations : list Operation.t) (report : TcfPortfolioBalance.t) :
  aggregate acc sched operations = Report report ->
  (forall figi, is_Some (aggOperationsByFigi operations !! figi) ->
     exists price instrument,
       GetCurrentPrice acc figi = inr price /\ GetByFigi acc figi = inr instrument)
  /\ Forall (fun balanceItem =>
       exists figi group instrument,
         aggOperationsByFigi operations !! figi = Some group
         /\ GetByFigi acc figi = inr instrument
         /\ GetCurrentPrice acc figi = inr (TcfBalanceItem.CurrentPrice balanceItem)
         /\ (TcfBalanceItem.CurrentPrice balanceItem =? 0)%float = false
         /\ balanceItem
            = buildBalanceItem instrument (TcfBalanceItem.CurrentPrice balanceItem) group
         /\ TcfBalanceItem.FIGI balanceItem = SearchInstrument.FIGI instrument
         /\ TcfBalanceItem.Ticker balanceItem = SearchInstrument.Ticker instrument
         /\ TcfBalanceItem.Name balanceItem = SearchInstrument.Name instrument
         /\ TcfBalanceItem.Currency balanceItem = SearchInstrument.Currency instrument
         /\ TcfBalanceItem.ServiceCommissionAmount balanceItem = 0%float)
     (TcfPortfolioBalance.Items report).
Proof.
  intros Hreport. pose proof (aggregate_launched _ _ _ _ Hreport) as Hperm.
  split.
  - intros figi [group Hgroup].
    assert (Hin : balanceItemToCh acc figi group ∈ launch acc (aggOperationsByFigi operations)).
    { unfold launch. apply list_elem_of_fmap. exists (figi, group). split; [reflexivity|].
      now apply elem_of_map_to_list. }
    rewrite <- Hperm in Hin. apply list_elem_of_fmap in Hin as (balanceItem & Hmsg & _).
    apply balanceItemToCh_line in Hmsg as (price & instrument & Hprice & Hinstr & _).
    now exists price, instrument.
  - apply Forall_forall. intros balanceItem Hin.
    assert (Hmsg : ToBalanceItemCh balanceItem ∈ launch acc (aggOperationsByFigi operations)).
    { rewrite <- Hperm. apply list_elem_of_fmap. now exists balanceItem. }
    unfold launch in Hmsg. apply list_elem_of_fmap in Hmsg as ([figi group] & Hmsg & Hentry).
    apply elem_of_map_to_list in Hentry. cbn [fst snd] in Hmsg. symmetry in Hmsg.
    apply balanceItemToCh_line in Hmsg as (price & instrument & Hprice & Hinstr & Hline).
    rewrite (group_filter_kept _ _ _ Hentry) in Hline.
    assert (Hcur : TcfBalanceItem.CurrentPrice balanceItem = price) by now rewrite Hline.
    destruct (priceLoop_resolved acc figi requests 0 0 0 CandleIntervalZero
                ltac:(discriminate)) as (_ & _ & _ & _ & Hres).
    destruct (Hres price Hprice) as [Hnz _].
    exists figi, group, instrument. rewrite Hcur.
    repeat split; try assumption; rewrite Hline; reflexivity.
Qed.

(** ** A run that succeeds *)

(** The roll-up returns a report or panics; over totals of the seeded
    currencies it panics only on an operation of another currency. *)
Lemma rollUp_seeded (operations : list Operation.t) (balance : TcfPortfolioBalance.t) :
  seededOnly (TcfPortfolioBalance.Total balance) ->
  (forall operation, operation ∈ serviceCommissions operations ++ taxBacks operations ->
                     Operation.Currency operation ∈ seededCurrencies) ->
  exists report, rollUp operations balance = Report report.
Proof.
  intros Hseeded Hops. unfold rollUp.
  destruct (foldPanic addServiceCommission _ _) as [totals1|] eqn:Hsc.
  - destruct (foldPanic addTaxBack _ _) as [totals2|] eqn:Htb; [eauto|].
    exfalso.
    apply (foldPanic_seeded_None _ _ _ totals1) in Htb as (x & Hx & Hcur).
    + apply Hcur, Hops, elem_of_app. now right.
    + exact (foldPanic_seededOnly _ _ _ _ _ Hsc Hseeded).
  - exfalso.
    apply (foldPanic_seeded_None _ _ _ _ Hseeded) in Hsc as (x & Hx & Hcur).
    apply Hcur, Hops, elem_of_app. now left.
Qed.

(** X18: when the price and the instrument are found for every instrument
    of the operations, every currency met is one of RUB, USD and EUR, and
    every goroutine is ready to send within 20 seconds of the start of the
    loop, the aggregation returns a report. *)
Theorem aggregate_report (acc : TcfAccount) (operations : list Operation.t)
    (now : Z) (pending : list (Z * message)) :
  snd <$> pending = launch acc (aggOperationsByFigi operations) ->
  (forall ready m, (ready, m) ∈ pending -> ready < now + collectTimeout) ->
  (forall figi, is_Some (aggOperationsByFigi operations !! figi) ->
     exists price instrument,
       GetCurrentPrice acc figi = inr price
       /\ GetByFigi acc figi = inr instrument
       /\ SearchInstrument.Currency instrument ∈ seededCurrencies) ->
  (forall operation, operation ∈ serviceCommissions operations ++ taxBacks operations ->
                     Operation.Currency operation ∈ seededCurrencies) ->
  exists report,
    aggregate acc (fst (timedSchedule (length pending) now pending)) operations
    = Report report.
Proof.
  intros Hpending Hready Hfound Hops.
  assert (Hlines : forall m, m ∈ launch acc (aggOperationsByFigi operations) ->
                     exists b, m = ToBalanceItemCh b
                               /\ TcfBalanceItem.Currency b ∈ seededCurrencies).
  { intros m Hm. unfold launch in Hm.
    apply list_elem_of_fmap in Hm as ([figi group] & -> & Hentry).
    apply elem_of_map_to_list in Hentry. cbn [fst snd].
    destruct (Hfound figi (ex_intro _ group Hentry)) as (price & instrument & Hprice & Hinstr & Hcur).
    unfold balanceItemToCh. rewrite Hprice, Hinstr. eauto. }
  assert (Hsize : size (aggOperationsByFigi operations) = length pending).
  { now rewrite <- (length_launch acc), <- Hpending, length_fmap. }
  unfold aggregate. rewrite Hsize, <- Hpending.
  destruct (collect _ _ _ _) as [early|balance] eqn:Hcollect.
  - exfalso. destruct (collect_early _ _ _ _ _ Hcollect) as [->|[err ->]].
    + revert Hcollect. apply collect_seeded; [apply createEmptyBalance_seededOnly|].
      intros b Hb. rewrite Hpending in Hb.
      destruct (Hlines _ Hb) as (b' & [= <-] & Hcur). exact Hcur.
    + destruct (timedSchedule_in_time (length pending) now (now + collectTimeout - 1)
                  pending createEmptyBalance) as (_ & _ & Herr).
      * lia.
      * assert (0 < collectTimeout) by reflexivity. lia.
      * intros ready m Hin. specialize (Hready _ _ Hin). lia.
      * apply Herr in Hcollect. rewrite Hpending in Hcollect.
        destruct (Hlines _ Hcollect) as (b & Hb & _). discriminate.
  - destruct (collect_totals _ _ _ _ _ Hcollect) as (lines & _ & Hfold).
    apply rollUp_seeded; [|assumption].
    exact (foldPanic_seededOnly _ _ _ _ _ Hfold createEmptyBalance_seededOnly).
Qed.

(** ** A failed computation *)

Lemma elem_of_delete_other {A : Type} (l : list A) (k : nat) (x y : A) :
  x ∈ l -> l !! k = Some y -> x <> y -> x ∈ delete k l.
Proof.
  intros Hin Hk Hne. apply list_elem_of_lookup in Hin as [i Hi].
  destruct (Nat.lt_ge_cases i k) as [Hlt|Hge].
  - apply (list_elem_of_lookup_2 _ i). now rewrite list_lookup_delete_lt.
  - assert (i <> k) by (intros ->; congruence).
    destruct i as [|i]; [lia|].
    apply (list_elem_of_lookup_2 _ i). rewrite list_lookup_delete_ge by lia. exact Hi.
Qed.

(** A loop in which a failed computation is ready within 20 seconds of the
    start, over totals and lines of the seeded currencies: the lines ready
    before the first error are taken, then that error is returned. *)
Lemma timedSchedule_first_error (n : nat) :
  forall (now : Z) (pending : list (Z * message)) (balance : TcfPortfolioBalance.t)
         (ready : Z) (err : error),
    length pending = n ->
    (ready, ToErrorCh err) ∈ pending ->
    ready < now + collectTimeout ->
    seededOnly (TcfPortfolioBalance.Total balance) ->
    (forall r b, (r, ToBalanceItemCh b) ∈ pending ->
                 TcfBalanceItem.Currency b ∈ seededCurrencies) ->
    exists e first,
      (first, ToErrorCh e) ∈ pending
      /\ (forall r2 e2, (r2, ToErrorCh e2) ∈ pending -> first <= r2)
      /\ collect n (fst (timedSchedule n now pending)) (snd <$> pending) balance
         = inl (Failure e).
Proof.
  induction n as [|n IH]; intros now pending balance ready err Hlen Herr Hready Hseeded Hlines.
  - destruct pending; [inversion Herr|discriminate].
  - cbn [timedSchedule]. unfold timedPick.
    destruct (earliest_nonempty pending) as (k & r0 & He).
    { intros ->. inversion Herr. }
    rewrite He. destruct (earliest_Some _ _ _ He) as [[m Hk] Hmin].
    pose proof (Hmin _ _ Herr) as Hr0.
    destruct (Z.ltb_spec r0 (now + collectTimeout)) as [_|Hbad]; [|lia].
    rewrite Hk.
    assert (Hmsg : (snd <$> pending) !! k = Some m) by (now rewrite list_lookup_fmap, Hk).
    destruct m as [b|e].
    + assert (Hcur : TcfBalanceItem.Currency b ∈ seededCurrencies).
      { apply (Hlines r0). eapply list_elem_of_lookup_2; eassumption. }
      destruct (addBalanceItem balance b) as [balance1|] eqn:Hadd.
      2:{ exfalso. unfold addBalanceItem in Hadd.
          apply Hseeded in Hcur as [total Htotal]. rewrite Htotal in Hadd. discriminate. }
      assert (Hkeep : forall r2 e2, (r2, ToErrorCh e2) ∈ pending ->
                        (r2, ToErrorCh e2) ∈ delete k pending).
      { intros r2 e2 Hin. eapply elem_of_delete_other; [exact Hin|exact Hk|]. discriminate. }
      destruct (IH (Z.max now r0) (delete k pending) balance1 ready err)
        as (e & first & Hin & Hfirst & Hcollect).
      * rewrite length_delete by eauto. lia.
      * now apply Hkeep.
      * lia.
      * apply addBalanceItem_updateAt in Hadd.
        eapply (foldPanic_seededOnly _ _ [b]); [|eassumption].
        simpl. now rewrite Hadd.
      * intros r b' Hin. apply (Hlines r). eapply list_elem_of_delete_inv; eassumption.
      * exists e, first. split; [eapply list_elem_of_delete_inv; eassumption|].
        split; [intros r2 e2 Hin2; apply (Hfirst r2 e2), Hkeep, Hin2|].
        destruct (timedSchedule n (Z.max now r0) (delete k pending)) as [sched finish].
        cbn [fst snd collect hd tl] in *. unfold select. rewrite Hmsg, Hadd.
        rewrite <- list_fmap_delete. exact Hcollect.
    + exists e, r0. split; [eapply list_elem_of_lookup_2; eassumption|].
      split; [intros r2 e2 Hin2; exact (Hmin _ _ Hin2)|].
      cbn [fst collect hd]. unfold select. now rewrite Hmsg.
Qed.

(** C2, as the code has it: when one of the launched computations fails,
    the aggregation returns no report, whatever the order in which the
    results arrive, and an error it returns is the timeout or one a failed
    computation sent.  It returns the error of a failed computation when one
    is ready to send within 20 seconds of the start of the loop and the
    lines carry seeded currencies: the error of the failed computation that
    is ready first, which is that error when no other computation fails. *)
Theorem fan_out_abort (acc : TcfAccount) (sched : list (option nat))
    (operations : list Operation.t) (err : error) :
  ToErrorCh err ∈ launch acc (aggOperationsByFigi operations) ->
  (forall report, aggregate acc sched operations <> Report report)
  /\ (forall e, aggregate acc sched operations = Failure e ->
        e = TimeoutError \/ ToErrorCh e ∈ launch acc (aggOperationsByFigi operations))
  /\ (forall (now ready : Z) (pending : list (Z * message)),
        snd <$> pending = launch acc (aggOperationsByFigi operations) ->
        (ready, ToErrorCh err) ∈ pending ->
        ready < now + collectTimeout ->
        (forall b, ToBalanceItemCh b ∈ launch acc (aggOperationsByFigi operations) ->
                   TcfBalanceItem.Currency b ∈ seededCurrencies) ->
        let result :=
          aggregate acc (fst (timedSchedule (length pending) now pending)) operations in
        (exists e first,
           (first, ToErrorCh e) ∈ pending
           /\ (forall r2 e2, (r2, ToErrorCh e2) ∈ pending -> first <= r2)
           /\ result = Failure e)
        /\ ((forall e, ToErrorCh e ∈ launch acc (aggOperationsByFigi operations) -> e = err) ->
            result = Failure err)).
Proof.
  intros Herr. split; [|split].
  - intros report. unfold aggregate.
    destruct (collect _ _ _ _) as [early|balance] eqn:Hcollect.
    + pose proof (collect_early _ _ _ _ _ Hcollect) as [->|[e ->]]; discriminate.
    + exfalso. apply collect_takes in Hcollect.
      pose proof (countItems_error _ _ Herr) as Hlt.
      rewrite length_launch in Hlt. lia.
  - intros e. unfold aggregate.
    destruct (collect _ _ _ _) as [early|balance] eqn:Hcollect.
    + intros ->. exact (collect_failure _ _ _ _ _ Hcollect).
    + exfalso. apply collect_takes in Hcollect.
      pose proof (countItems_error _ _ Herr) as Hlt.
      rewrite length_launch in Hlt. lia.
  - intros now ready pending Hpending Hin Hready Hlines result.
    assert (Hsize : size (aggOperationsByFigi operations) = length pending).
    { now rewrite <- (length_launch acc), <- Hpending, length_fmap. }
    destruct (timedSchedule_first_error (length pending) now pending createEmptyBalance
                ready err eq_refl Hin Hready createEmptyBalance_seededOnly)
      as (e & first & Hfirst & Hmin & Hcollect).
    { intros r b Hb. apply Hlines. rewrite <- Hpending.
      apply list_elem_of_fmap. now exists (r, ToBalanceItemCh b). }
    assert (Hresult : result = Failure e).
    { unfold result, aggregate. now rewrite Hsize, <- Hpending, Hcollect. }
    split; [now exists e, first|].
    intros Honly. rewrite Hresult. f_equal. apply Honly. rewrite <- Hpending.
    apply list_elem_of_fmap. now exists (first, ToErrorCh e).
Qed.

Lemma fan_out_abort_witness :
  aggregate Scenario.accountB
    (fst (timedSchedule 2 0 [(5 * Second, ToBalanceItemCh Scenario.lineA);
                             (15 * Second, ToErrorCh Scenario.fetchFailed)]))
    [Scenario.buyA; Scenario.buyB]
  = Failure Scenario.fetchFailed.
Proof.
  assert (Hl : launch Scenario.accountB (aggOperationsByFigi [Scenario.buyA; Scenario.buyB])
               = [ToBalanceItemCh Scenario.lineA; ToErrorCh Scenario.fetchFailed])
    by (vm_compute; reflexivity).
  refine (proj2 (proj2 (proj2 (fan_out_abort Scenario.accountB [] [Scenario.buyA; Scenario.buyB]
                                 Scenario.fetchFailed _))
                   0 (15 * Second)
                   [(5 * Second, ToBalanceItemCh Scenario.lineA);
                    (15 * Second, ToErrorCh Scenario.fetchFailed)] _ _ _ _) _).
  - rewrite Hl. right. left.
  - rewrite Hl. reflexivity.
  - right. left.
  - reflexivity.
  - rewrite Hl. intros b Hb.
    apply elem_of_cons in Hb as [[= ->]|Hb]; [|apply list_elem_of_singleton in Hb; discriminate].
    apply contains_elem_of. reflexivity.
  - rewrite Hl. intros e He.
    apply elem_of_cons in He as [He|He]; [discriminate|].
    apply list_elem_of_singleton in He. now injection He.
Defined.

(** The error of the second instrument is ready 30 seconds after the line
    of the first was taken at 5 seconds: the timer of the second receive
    fires first, and the call returns the timeout, not the error.  And a
    line in pounds taken before the error makes the update of the totals
    panic. *)
Lemma fan_out_counterexample :
  ~ returnsTheError
  /\ timedSchedule 2 0 [(5 * Second, ToBalanceItemCh Scenario.lineA);
                        (35 * Second, ToErrorCh Scenario.fetchFailed)]
     = ([Some 0%nat; None], 25 * Second)
  /\ ToErrorCh Scenario.fetchFailed
     ∈ launch Scenario.accountGBPB (aggOperationsByFigi [Scenario.buyA; Scenario.buyB])
  /\ aggregate Scenario.accountGBPB [Some 0%nat; Some 0%nat] [Scenario.buyA; Scenario.buyB]
     = Panic.
Proof.
  split; [|split; [vm_compute; reflexivity|split; [|vm_compute; reflexivity]]].
  - intros Hclaim.
    specialize (Hclaim Scenario.accountB [Some 0%nat; None] [Scenario.buyA; Scenario.buyB]
                  Scenario.fetchFailed).
    assert (Hl : launch Scenario.accountB (aggOperationsByFigi [Scenario.buyA; Scenario.buyB])
                 = [ToBalanceItemCh Scenario.lineA; ToErrorCh Scenario.fetchFailed])
      by (vm_compute; reflexivity).
    assert (Hrun : aggregate Scenario.accountB [Some 0%nat; None]
                     [Scenario.buyA; Scenario.buyB]
                   = Failure TimeoutError) by (vm_compute; reflexivity).
    rewrite Hl, Hrun in Hclaim. specialize (Hclaim ltac:(right; left)).
    discriminate Hclaim.
  - assert (Hl : launch Scenario.accountGBPB
                   (aggOperationsByFigi [Scenario.buyA; Scenario.buyB])
                 = [ToBalanceItemCh Scenario.lineGBP; ToErrorCh Scenario.fetchFailed])
      by (vm_compute; reflexivity).
    rewrite Hl. right. left.
Qed.

(* ===================================================================== *)
(** * Rounding to two decimals, twice

    The specification of binary64 arithmetic ([SpecFloat]) rounds a
    mantissa by shifting bits out of it while it keeps track of where the
    exact value lies.  The lemmas below follow that value, as a rational
    [num / den], through a division by 100 and a multiplication by 100. *)

Lemma digits2_pos_bounds (p : positive) :
  2 ^ (Zpos (digits2_pos p) - 1) <= Zpos p < 2 ^ Zpos (digits2_pos p).
Proof.
  induction p as [p IH|p IH|]; simpl digits2_pos.
  - rewrite Pos2Z.inj_succ, Z.pow_succ_r by lia.
    replace (Z.succ (Zpos (digits2_pos p)) - 1) with (Z.succ (Zpos (digits2_pos p) - 1)) by lia.
    rewrite Z.pow_succ_r by lia. lia.
  - rewrite Pos2Z.inj_succ, Z.pow_succ_r by lia.
    replace (Z.succ (Zpos (digits2_pos p)) - 1) with (Z.succ (Zpos (digits2_pos p) - 1)) by lia.
    rewrite Z.pow_succ_r by lia. lia.
  - simpl. lia.
Qed.

Lemma digits2_pos_unique (p : positive) (d : Z) :
  2 ^ (d - 1) <= Zpos p < 2 ^ d -> Zpos (digits2_pos p) = d.
Proof.
  intros [Hlo Hhi]. pose proof (digits2_pos_bounds p) as [Hlo' Hhi'].
  set (d' := Zpos (digits2_pos p)) in *.
  assert (0 < d') by (unfold d'; lia).
  destruct (Z.lt_trichotomy d' d) as [Hlt|[Heq|Hgt]]; [exfalso| assumption | exfalso].
  - assert (2 ^ d' <= 2 ^ (d - 1)) by (apply Z.pow_le_mono_r; lia). lia.
  - destruct (Z.le_gt_cases 0 d) as [Hd|Hd].
    + assert (2 ^ d <= 2 ^ (d' - 1)) by (apply Z.pow_le_mono_r; lia). lia.
    + rewrite (Z.pow_neg_r 2 d) in Hhi by lia. lia.
Qed.

Lemma shr_1_located (mrs : shr_record) (num den : Z) :
  0 <= shr_m mrs ->
  located (shr_m mrs) num den (loc_of_shr_record mrs) ->
  let mrs' := shr_1 mrs in
  shr_m mrs' = shr_m mrs / 2
  /\ located (shr_m mrs') num (2 * den) (loc_of_shr_record mrs').
Proof.
  destruct mrs as [m r s]. simpl shr_m. intros Hm [Hden Hloc].
  destruct m as [|p|p]; [| |lia].
  - simpl. split; [reflexivity|]. split; [lia|].
    destruct r, s; simpl in *; lia.
  - destruct p as [p|p|].
    + simpl shr_1. simpl shr_m.
      assert (Hdiv : Z.pos p~1 / 2 = Zpos p).
      { rewrite Pos2Z.inj_xI. symmetry. apply (Z.div_unique _ 2 _ 1); lia. }
      rewrite Hdiv. split; [reflexivity|]. split; [lia|].
      rewrite Pos2Z.inj_xI in Hloc.
      destruct r, s; simpl in *; lia.
    + simpl shr_1. simpl shr_m.
      assert (Hdiv : Z.pos p~0 / 2 = Zpos p).
      { rewrite Pos2Z.inj_xO. symmetry. apply (Z.div_unique _ 2 _ 0); lia. }
      rewrite Hdiv. split; [reflexivity|]. split; [lia|].
      rewrite Pos2Z.inj_xO in Hloc.
      destruct r, s; simpl in *; lia.
    + simpl. split; [reflexivity|]. split; [lia|].
      destruct r, s; simpl in *; lia.
Qed.

Lemma iter_shr_located (p : positive) :
  forall (mrs : shr_record) (num den : Z),
    0 <= shr_m mrs ->
    located (shr_m mrs) num den (loc_of_shr_record mrs) ->
    let mrs' := SpecFloat.iter_pos shr_1 p mrs in
    shr_m mrs' = shr_m mrs / 2 ^ Zpos p
    /\ located (shr_m mrs') num (2 ^ Zpos p * den) (loc_of_shr_record mrs').
Proof.
  induction p as [p IH|p IH|]; intros mrs num den Hm Hloc; cbn [SpecFloat.iter_pos].
  - destruct (shr_1_located mrs num den Hm Hloc) as [Hm1 Hloc1].
    assert (H1 : 0 <= shr_m (shr_1 mrs)) by (rewrite Hm1; apply Z.div_pos; lia).
    destruct (IH _ _ _ H1 Hloc1) as [Hm2 Hloc2].
    assert (H2 : 0 <= shr_m (SpecFloat.iter_pos shr_1 p (shr_1 mrs)))
      by (rewrite Hm2; apply Z.div_pos; [|apply Z.pow_pos_nonneg]; lia).
    destruct (IH _ _ _ H2 Hloc2) as [Hm3 Hloc3].
    assert (Hpow : 2 ^ Z.pos p~1 = 2 ^ Zpos p * (2 ^ Zpos p * 2)).
    { replace (Z.pos p~1) with (Zpos p + (Zpos p + 1)) by lia.
      rewrite !Z.pow_add_r, Z.pow_1_r by lia. reflexivity. }
    split.
    + rewrite Hm3, Hm2, Hm1, Hpow.
      rewrite !Z.div_div by (try apply Z.pow_pos_nonneg; lia).
      f_equal. lia.
    + rewrite Hpow.
      replace (2 ^ Zpos p * (2 ^ Zpos p * 2) * den)
        with (2 ^ Zpos p * (2 ^ Zpos p * (2 * den))) by lia.
      exact Hloc3.
  - destruct (IH _ _ _ Hm Hloc) as [Hm2 Hloc2].
    assert (H2 : 0 <= shr_m (SpecFloat.iter_pos shr_1 p mrs))
      by (rewrite Hm2; apply Z.div_pos; [|apply Z.pow_pos_nonneg]; lia).
    destruct (IH _ _ _ H2 Hloc2) as [Hm3 Hloc3].
    assert (Hpow : 2 ^ Z.pos p~0 = 2 ^ Zpos p * 2 ^ Zpos p).
    { replace (Z.pos p~0) with (Zpos p + Zpos p) by lia.
      rewrite Z.pow_add_r by lia. reflexivity. }
    split.
    + rewrite Hm3, Hm2, Hpow.
      rewrite !Z.div_div by (try apply Z.pow_pos_nonneg; lia). reflexivity.
    + rewrite Hpow.
      replace (2 ^ Zpos p * 2 ^ Zpos p * den)
        with (2 ^ Zpos p * (2 ^ Zpos p * den)) by lia.
      exact Hloc3.
  - replace (2 ^ 1) with 2 by reflexivity.
    exact (shr_1_located mrs num den Hm Hloc).
Qed.

Lemma shr_record_of_loc_m (m : Z) (l : location) : shr_m (shr_record_of_loc m l) = m.
Proof. destruct l as [|[ | | ]]; reflexivity. Qed.

Lemma loc_of_shr_record_of_loc (m : Z) (l : location) :
  loc_of_shr_record (shr_record_of_loc m l) = l.
Proof. destruct l as [|[ | | ]]; reflexivity. Qed.

(** Shifting [k] bits out of a located mantissa. *)
Lemma shr_located (m : Z) (l : location) (e k num den : Z) :
  0 <= m -> 0 <= k ->
  located m num den l ->
  let '(mrs', e') := shr (shr_record_of_loc m l) e k in
  e' = e + k
  /\ shr_m mrs' = m / 2 ^ k
  /\ located (shr_m mrs') num (2 ^ k * den) (loc_of_shr_record mrs').
Proof.
  intros Hm Hk Hloc. unfold shr. destruct k as [|p|p]; [| |lia].
  - rewrite shr_record_of_loc_m, loc_of_shr_record_of_loc.
    replace (2 ^ 0) with 1 by reflexivity. rewrite Z.div_1_r, Z.mul_1_l. 
    repeat split; [lia | apply Hloc | apply Hloc].
  - pose proof (iter_shr_located p (shr_record_of_loc m l) num den) as H.
    rewrite shr_record_of_loc_m, loc_of_shr_record_of_loc in H.
    destruct (H Hm Hloc) as [H1 H2]. repeat split; [assumption | apply H2 | apply H2].
Qed.

(** Rounding to nearest, ties to even, moves to an integer within one half
    of the located rational. *)
Lemma round_nearest_even_located (m num den : Z) (l : location) :
  located m num den l ->
  let m' := round_nearest_even m l in
  m <= m' <= m + 1
  /\ - den <= 2 * (m' * den - num) <= den.
Proof.
  intros [Hden Hloc]. unfold round_nearest_even.
  destruct l as [|[ | | ]]; simpl in *.
  - split; lia.
  - destruct (Z.even m); split; lia.
  - split; lia.
  - split; lia.
Qed.

Lemma fexp_normal (e : Z) : -1021 <= e -> fexp prec emax e = e - 53.
Proof. intros H. unfold fexp, SpecFloat.emin, prec, emax. lia. Qed.

Lemma pow2_52 : 2 ^ 52 = 4503599627370496.
Proof. reflexivity. Qed.

Lemma pow2_53 : 2 ^ 53 = 9007199254740992.
Proof. reflexivity. Qed.

(** A mantissa of [d] digits loses [d - 53] of them and keeps 53. *)
Lemma div_pow2_digits (mx : positive) (k : Z) :
  0 <= k -> Zpos (digits2_pos mx) = 53 + k ->
  2 ^ 52 <= Zpos mx / 2 ^ k < 2 ^ 53.
Proof.
  intros Hk Hd. pose proof (digits2_pos_bounds mx) as [Hlo Hhi]. rewrite Hd in *.
  replace (53 + k - 1) with (52 + k) in Hlo by lia.
  rewrite Z.pow_add_r in Hlo, Hhi by lia.
  assert (0 < 2 ^ k) by (apply Z.pow_pos_nonneg; lia).
  split.
  - apply Z.div_le_lower_bound; lia.
  - apply Z.div_lt_upper_bound; lia.
Qed.

(** [binary_round_aux] on a located mantissa of at least 53 digits, away
    from the subnormal range and from overflow: the result is finite, its
    mantissa counted in units of [2^(ex + k)] is an integer [m2] of
    [[2^52, 2^53]] within one half of the located rational. *)
Lemma binary_round_aux_normal (sx : bool) (mx : positive) (ex : Z) (lx : location)
    (num den k : Z) :
  located (Zpos mx) num den lx ->
  0 <= k -> Zpos (digits2_pos mx) = 53 + k ->
  -1074 <= ex + k -> ex + k + 1 <= 971 ->
  exists (M : positive) (E m2 : Z),
    binary_round_aux prec emax sx (Zpos mx) ex lx = S754_finite sx M E
    /\ ex + k <= E <= ex + k + 1
    /\ Zpos M * 2 ^ (E - (ex + k)) = m2
    /\ 2 ^ 52 <= m2 <= 2 ^ 53
    /\ - (2 ^ k * den) <= 2 * (m2 * (2 ^ k * den) - num) <= 2 ^ k * den
    /\ 2 ^ 52 * (2 ^ k * den) <= num
    /\ Zpos (digits2_pos M) = 53
    /\ (m2 < 2 ^ 53 -> E = ex + k).
Proof.
  intros Hloc Hk Hd Hlo Hhi.
  unfold binary_round_aux, shr_fexp. cbn [Zdigits2]. rewrite Hd.
  rewrite fexp_normal by lia.
  replace (53 + k + ex - 53 - ex) with k by lia.
  pose proof (shr_located (Zpos mx) lx ex k num den ltac:(lia) Hk Hloc) as Hshr.
  destruct (shr (shr_record_of_loc (Zpos mx) lx) ex k) as [mrs' e'].
  destruct Hshr as (-> & Hm1 & Hloc1).
  pose proof (div_pow2_digits mx k Hk Hd) as Hm1b. rewrite <- Hm1 in Hm1b.
  pose proof (round_nearest_even_located _ _ _ _ Hloc1) as [Hm2 Herr].
  set (m2 := round_nearest_even (shr_m mrs') (loc_of_shr_record mrs')) in *.
  assert (Hnum : 2 ^ 52 * (2 ^ k * den) <= num).
  { destruct Hloc1 as [Hden Hl]. 
    assert (shr_m mrs' * (2 ^ k * den) <= num).
    { destruct (loc_of_shr_record mrs') as [|[ | | ]]; lia. }
    nia. }
  rewrite pow2_52, pow2_53 in *.
  destruct (Z.eq_dec m2 9007199254740992) as [Heq|Hne].
  - rewrite Heq. change (Zdigits2 9007199254740992) with 54.
    rewrite fexp_normal by lia.
    replace (54 + (ex + k) - 53 - (ex + k)) with 1 by lia.
    cbn [shr shr_record_of_loc SpecFloat.iter_pos shr_1 shr_m].
    destruct (Z.leb_spec (ex + k + 1) (emax - prec)) as [_|Hbad];
      [|unfold emax, prec in Hbad; lia].
    exists 4503599627370496%positive, (ex + k + 1), m2.
    split; [reflexivity|]. split; [lia|]. split.
    { replace (ex + k + 1 - (ex + k)) with 1 by lia. rewrite Heq. reflexivity. }
    repeat split; try lia; reflexivity.
  - destruct m2 as [|pm|pm] eqn:Hm2eq; [lia| |lia].
    cbn [Zdigits2].
    rewrite (digits2_pos_unique pm 53)
      by (change (2 ^ (53 - 1)) with 4503599627370496;
          change (2 ^ 53) with 9007199254740992; lia).
    rewrite fexp_normal by lia.
    replace (53 + (ex + k) - 53 - (ex + k)) with 0 by lia.
    cbn [shr shr_record_of_loc shr_m].
    destruct (Z.leb_spec (ex + k) (emax - prec)) as [_|Hbad];
      [|unfold emax, prec in Hbad; lia].
    exists pm, (ex + k), (Zpos pm).
    split; [reflexivity|]. split; [lia|]. split.
    { replace (ex + k - (ex + k)) with 0 by lia. rewrite Z.pow_0_r. lia. }
    repeat split; try lia.
    apply digits2_pos_unique.
    change (2 ^ (53 - 1)) with 4503599627370496.
    change (2 ^ 53) with 9007199254740992. lia.
Qed.

Lemma iter_xO_value (p d : positive) : Zpos (Pos.iter xO p d) = Zpos p * 2 ^ Zpos d.
Proof.
  induction d as [|d IH] using Pos.peano_ind.
  - simpl. lia.
  - rewrite Pos.iter_succ, Pos2Z.inj_succ, Z.pow_succ_r by lia.
    change (Zpos (Pos.iter xO p d)~0) with (2 * Zpos (Pos.iter xO p d)). lia.
Qed.

Lemma iter_xO_digits (p d : positive) :
  Zpos (digits2_pos (Pos.iter xO p d)) = Zpos (digits2_pos p) + Zpos d.
Proof.
  induction d as [|d IH] using Pos.peano_ind.
  - simpl. lia.
  - rewrite Pos.iter_succ. cbn [digits2_pos]. lia.
Qed.

(** The float of a positive integer below [2^53] holds it exactly, on 53
    digits. *)
Lemma binary_normalize_int (s : bool) (pn : positive) :
  Zpos pn < 2 ^ 53 ->
  exists (M : positive) (E : Z),
    binary_normalize prec emax (cond_Zopp s (Zpos pn)) 0 s = S754_finite s M E
    /\ Zpos (digits2_pos M) = 53
    /\ E = Zpos (digits2_pos pn) - 53
    /\ Zpos M = Zpos pn * 2 ^ (- E).
Proof.
  intros Hn.
  pose proof (digits2_pos_bounds pn) as [Hlo Hhi].
  set (d := Zpos (digits2_pos pn)) in *.
  assert (Hd : 1 <= d <= 53).
  { split; [unfold d; lia|].
    destruct (Z.le_gt_cases d 53) as [|Hgt]; [assumption|exfalso].
    assert (2 ^ 53 <= 2 ^ (d - 1)) by (apply Z.pow_le_mono_r; lia). lia. }
  assert (Hround : binary_normalize prec emax (cond_Zopp s (Zpos pn)) 0 s
                   = binary_round prec emax s pn 0) by (destruct s; reflexivity).
  rewrite Hround. unfold binary_round. fold d. rewrite Z.add_0_r.
  rewrite fexp_normal by lia. unfold shl_align.
  assert (Haux : forall (mz : positive) (ez : Z),
             Zpos (digits2_pos mz) = 53 -> ez = d - 53 -> Zpos mz = Zpos pn * 2 ^ (- ez) ->
             exists (M : positive) (E : Z),
               binary_round_aux prec emax s (Zpos mz) ez loc_Exact = S754_finite s M E
               /\ Zpos (digits2_pos M) = 53 /\ E = d - 53 /\ Zpos M = Zpos pn * 2 ^ (- E)).
  { intros mz ez Hdz Hez Hmz.
    destruct (binary_round_aux_normal s mz ez loc_Exact (Zpos mz) 1 0)
      as (M & E & m2 & Heq & HE & HM & Hm2 & Herr & _ & HdM & Hexact).
    - split; [lia|]. simpl. lia.
    - lia.
    - lia.
    - lia.
    - lia.
    - rewrite Z.pow_0_r in Herr.
      assert (Hm2eq : m2 = Zpos mz) by lia.
      pose proof (digits2_pos_bounds mz) as [_ Hmzhi]. rewrite Hdz in Hmzhi.
      rewrite Hm2eq in Hexact. specialize (Hexact Hmzhi).
      exists M, E. split; [assumption|]. split; [assumption|]. split; [lia|].
      rewrite Hexact in HM. replace (ez + 0 - (ez + 0)) with 0 in HM by lia.
      rewrite Z.pow_0_r in HM. rewrite Hexact.
      replace (- (ez + 0)) with (- ez) by lia. rewrite <- Hmz. lia. }
  destruct (d - 53 - 0) as [|p|p] eqn:Hshift; [|lia|].
  - apply Haux; [fold d; lia | lia |].
    replace (- 0) with 0 by lia. rewrite Z.pow_0_r. lia.
  - apply Haux; [|reflexivity|].
    + rewrite iter_xO_digits. fold d. lia.
    + rewrite iter_xO_value. f_equal. f_equal. lia.
Qed.

(** The remainder of a division locates the quotient. *)
Lemma new_location_located (q r den : Z) :
  0 < den -> 0 <= r < den ->
  located q (q * den + r) den (new_location den r).
Proof.
  intros Hden Hr. split; [assumption|].
  unfold new_location, new_location_even, new_location_odd.
  destruct (Z.even den) eqn:Heven.
  - destruct (Z.eqb_spec r 0) as [->|Hne]; [lia|].
    destruct (Z.compare_spec (2 * r) den); lia.
  - destruct (Z.eqb_spec r 0) as [->|Hne]; [lia|].
    assert (Hodd : Z.odd den = true) by (rewrite <- Z.negb_even, Heven; reflexivity).
    apply Z.odd_spec in Hodd as [h Hh].
    destruct (Z.compare_spec (2 * r + 1) den); lia.
Qed.

(** The integer [math.Round] computes from a mantissa [m] over [2^-e = d]:
    the quotient, plus one from the half on. *)
Lemma round_half_up (m d n : Z) :
  0 < d -> (2 * n - 1) * d <= 2 * m < (2 * n + 1) * d ->
  m / d + (if d <=? 2 * (m mod d) then 1 else 0) = n.
Proof.
  intros Hd Hm.
  pose proof (Z.div_mod m d ltac:(lia)) as Hdm.
  pose proof (Z.mod_pos_bound m d Hd) as Hr.
  revert Hdm Hr. generalize (m / d) (m mod d). intros q r Hdm Hr. subst m.
  destruct (Z.leb_spec d (2 * r)); nia.
Qed.

Lemma Prim2SF_100 : Prim2SF 100 = S754_finite false m100 (-46).
Proof. reflexivity. Qed.

Lemma m100_value : Zpos m100 = 100 * 2 ^ 46.
Proof. reflexivity. Qed.

Lemma pow2_46 : 2 ^ 46 = 70368744177664.
Proof. reflexivity. Qed.

Lemma digits_53_bounds (M : positive) :
  Zpos (digits2_pos M) = 53 -> 4503599627370496 <= Zpos M < 9007199254740992.
Proof.
  intros Hd. pose proof (digits2_pos_bounds M) as H. rewrite Hd in H.
  change (2 ^ (53 - 1)) with 4503599627370496 in H.
  change (2 ^ 53) with 9007199254740992 in H. exact H.
Qed.

(** A float of 53 digits divided by 100. *)
Lemma div100_spec (s : bool) (M : positive) (E : Z) :
  Zpos (digits2_pos M) = 53 -> -52 <= E <= -2 ->
  exists (My : positive) (Ey m2 k : Z),
    SFdiv prec emax (S754_finite s M E) (S754_finite false m100 (-46))
    = S754_finite s My Ey
    /\ (k = 0 \/ k = 1)
    /\ E - 7 + k <= Ey <= E - 7 + k + 1
    /\ Zpos My * 2 ^ (Ey - (E - 7 + k)) = m2
    /\ 2 ^ 52 <= m2 <= 2 ^ 53
    /\ Zpos (digits2_pos My) = 53
    /\ - (2 ^ k * Zpos m100) <= 2 * (m2 * (2 ^ k * Zpos m100) - Zpos M * 2 ^ 53)
       <= 2 ^ k * Zpos m100.
Proof.
  intros Hd HE. pose proof (digits_53_bounds M Hd) as HM.
  unfold SFdiv, SFdiv_core_binary. cbn [Zdigits2]. rewrite Hd.
  change (Zpos (digits2_pos m100)) with 53.
  replace (53 + E - (53 + -46)) with (E + 46) by lia.
  rewrite fexp_normal by lia.
  replace (Z.min (E + 46 - 53) (E - -46)) with (E - 7) by lia.
  replace (E - -46 - (E - 7)) with 53 by lia.
  rewrite Z.shiftl_mul_pow2 by lia.
  pose proof (Z.div_mod (Zpos M * 2 ^ 53) (Zpos m100) ltac:(lia)) as Hdm.
  pose proof (Z.mod_pos_bound (Zpos M * 2 ^ 53) (Zpos m100) ltac:(lia)) as Hr.
  unfold Z.div, Z.modulo in Hdm, Hr.
  destruct (Z.div_eucl (Zpos M * 2 ^ 53) (Zpos m100)) as [q r].
  assert (Hq : 2 ^ 52 <= q < 2 ^ 54).
  { rewrite pow2_52. change (2 ^ 54) with 18014398509481984.
    rewrite pow2_53 in Hdm. change (Zpos m100) with 7036874417766400 in *. lia. }
  destruct q as [|pq|pq]; [rewrite pow2_52 in Hq; lia| |rewrite pow2_52 in Hq; lia].
  assert (Hloc : located (Zpos pq) (Zpos M * 2 ^ 53) (Zpos m100) (new_location (Zpos m100) r)).
  { rewrite Hdm, (Z.mul_comm (Zpos m100)). apply new_location_located; lia. }
  assert (Hk : exists k, (k = 0 \/ k = 1) /\ Zpos (digits2_pos pq) = 53 + k).
  { destruct (Z.lt_ge_cases (Zpos pq) (2 ^ 53)) as [Hlt|Hge].
    - exists 0. split; [now left|]. apply digits2_pos_unique.
      change (53 + 0 - 1) with 52. change (53 + 0) with 53. lia.
    - exists 1. split; [now right|]. apply digits2_pos_unique.
      change (53 + 1 - 1) with 53. change (53 + 1) with 54. lia. }
  destruct Hk as (k & Hk01 & Hdq).
  destruct (binary_round_aux_normal (xorb s false) pq (E - 7)
              (new_location (Zpos m100) r) (Zpos M * 2 ^ 53) (Zpos m100) k Hloc)
    as (My & Ey & m2 & Heq & HEy & HMy & Hm2 & Herr & _ & HdMy & _); try lia.
  rewrite xorb_false_r in Heq |- *.
  exists My, Ey, m2, k. repeat (split; [assumption|]). assumption.
Qed.

(** 100 times a float of 53 digits. *)
Lemma mul100_spec (s : bool) (My : positive) (Ey : Z) :
  Zpos (digits2_pos My) = 53 -> -100 <= Ey <= 0 ->
  exists (Mc : positive) (Ec m2 k : Z),
    SFmul prec emax (S754_finite false m100 (-46)) (S754_finite s My Ey)
    = S754_finite s Mc Ec
    /\ (k = 52 \/ k = 53)
    /\ -46 + Ey + k <= Ec <= -46 + Ey + k + 1
    /\ Zpos Mc * 2 ^ (Ec - (-46 + Ey + k)) = m2
    /\ 2 ^ 52 <= m2 <= 2 ^ 53
    /\ Zpos (digits2_pos Mc) = 53
    /\ - 2 ^ k <= 2 * (m2 * 2 ^ k - Zpos m100 * Zpos My) <= 2 ^ k
    /\ 2 ^ 52 * 2 ^ k <= Zpos m100 * Zpos My.
Proof.
  intros Hd HE. pose proof (digits_53_bounds My Hd) as HM.
  unfold SFmul. cbn [xorb].
  assert (Hloc : located (Zpos (m100 * My)) (Zpos m100 * Zpos My) 1 loc_Exact).
  { split; [lia|]. rewrite Pos2Z.inj_mul. lia. }
  assert (Hk : exists k, (k = 52 \/ k = 53) /\ Zpos (digits2_pos (m100 * My)) = 53 + k).
  { rewrite Pos2Z.inj_mul in Hloc.
    destruct (Z.lt_ge_cases (Zpos (m100 * My)) (2 ^ 105)) as [Hlt|Hge].
    - exists 52. split; [now left|]. apply digits2_pos_unique.
      change (53 + 52 - 1) with 104. change (53 + 52) with 105.
      split; [|assumption]. rewrite Pos2Z.inj_mul.
      change (2 ^ 104) with 20282409603651670423947251286016.
      change (Zpos m100) with 7036874417766400. lia.
    - exists 53. split; [now right|]. apply digits2_pos_unique.
      change (53 + 53 - 1) with 105. change (53 + 53) with 106.
      split; [assumption|]. rewrite Pos2Z.inj_mul.
      change (2 ^ 106) with 81129638414606681695789005144064.
      change (Zpos m100) with 7036874417766400. lia. }
  destruct Hk as (k & Hk & Hdq).
  destruct (binary_round_aux_normal s (m100 * My) (-46 + Ey) loc_Exact
              (Zpos m100 * Zpos My) 1 k Hloc)
    as (Mc & Ec & m2 & Heq & HEc & HMc & Hm2 & Herr & Hnum & HdMc & _); try lia.
  rewrite Z.mul_1_r in Herr, Hnum.
  exists Mc, Ec, m2, k. repeat (split; [assumption|]). assumption.
Qed.

(** The arithmetic of the round trip: [pn] cents, held as [M = pn * 2^a]
    with [A2 = 2^(a-2)]; [m2] the rounded quotient by 100 and [m2'] the
    rounded product by 100, each in units of its own; [Mc] over
    [A2 * 2^c] is then within one half of [pn]. *)
Lemma round_trip_arith (pn A2 M My m2 Mc m2' k j k' j' : Z) :
  1 <= A2 -> 1 <= pn < 2 ^ 51 -> M = 4 * (pn * A2) ->
  (k = 0 \/ k = 1) -> (j = 0 \/ j = 1) -> (k' = 52 \/ k' = 53) -> (j' = 0 \/ j' = 1) ->
  My * 2 ^ j = m2 -> 2 ^ 52 <= My < 2 ^ 53 -> 2 ^ 52 <= m2 <= 2 ^ 53 ->
  - (2 ^ k * Zpos m100) <= 2 * (m2 * (2 ^ k * Zpos m100) - M * 2 ^ 53) <= 2 ^ k * Zpos m100 ->
  Mc * 2 ^ j' = m2' -> 2 ^ 52 <= Mc < 2 ^ 53 -> 2 ^ 52 <= m2' <= 2 ^ 53 ->
  - 2 ^ k' <= 2 * (m2' * 2 ^ k' - Zpos m100 * My) <= 2 ^ k' ->
  2 ^ 52 * 2 ^ k' <= Zpos m100 * My ->
  1 <= 55 - (k + j + k' + j')
  /\ (2 * pn - 1) * (A2 * 2 ^ (55 - (k + j + k' + j'))) <= 2 * Mc
     < (2 * pn + 1) * (A2 * 2 ^ (55 - (k + j + k' + j'))).
Proof.
  intros HA2 Hpn HM Hk Hj Hk' Hj' HMy HMyb Hm2 Hdiv HMc HMcb Hm2' Hmul Hnum.
  set (c := 55 - (k + j + k' + j')).
  replace ((2 * pn - 1) * (A2 * 2 ^ c)) with (2 * (pn * A2) * 2 ^ c - A2 * 2 ^ c) by ring.
  replace ((2 * pn + 1) * (A2 * 2 ^ c)) with (2 * (pn * A2) * 2 ^ c + A2 * 2 ^ c) by ring.
  assert (Hlo : A2 <= pn * A2) by nia.
  assert (Hhi : pn * A2 <= (2 ^ 51 - 1) * A2) by nia.
  revert Hlo Hhi HM. generalize (pn * A2). intros M4 Hlo Hhi ->.
  change (2 ^ 51) with 2251799813685248 in *.
  change (2 ^ 52) with 4503599627370496 in *.
  change (2 ^ 53) with 9007199254740992 in *.
  change (Zpos m100) with 7036874417766400 in *.
  subst c.
  destruct Hk as [-> | ->], Hj as [-> | ->], Hk' as [-> | ->], Hj' as [-> | ->];
    simpl (55 - _);
    change (2 ^ 0) with 1 in *; change (2 ^ 1) with 2 in *;
    change (2 ^ 2) with 4 in *; change (2 ^ 3) with 8 in *;
    change (2 ^ 52) with 4503599627370496 in *;
    change (2 ^ 53) with 9007199254740992 in *;
    lia.
Qed.

Lemma valid_53 (s : bool) (M : positive) (E : Z) :
  Zpos (digits2_pos M) = 53 -> -1074 <= E <= 971 ->
  valid_binary (S754_finite s M E) = true.
Proof.
  intros Hd HE. unfold SpecFloat.valid_binary, bounded, canonical_mantissa.
  rewrite Hd, fexp_normal by lia.
  apply andb_true_intro. split; [apply Z.eqb_eq; lia | apply Z.leb_le; unfold emax, prec; lia].
Qed.

(** Dividing a whole number of cents below [2^51] by 100, multiplying the
    quotient by 100 and rounding gives the cents back. *)
Lemma round_trip (s : bool) (pn : positive) :
  Zpos pn < 2 ^ 51 ->
  Round (100 * (intFloat s (Zpos pn) / 100)) = intFloat s (Zpos pn).
Proof.
  intros Hpn. unfold intFloat.
  assert (Hpn53 : Zpos pn < 2 ^ 53).
  { change (2 ^ 51) with 2251799813685248 in Hpn.
    change (2 ^ 53) with 9007199254740992. lia. }
  destruct (binary_normalize_int s pn Hpn53) as (M & E & Hbn & HdM & HE & HM).
  rewrite Hbn.
  pose proof (digits_53_bounds M HdM) as HMb.
  (* the exponent: at most -2, as the cents are below 2^51 *)
  assert (HEb : -52 <= E <= -2).
  { pose proof (digits2_pos_bounds pn) as [Hlo Hhi].
    set (d := Zpos (digits2_pos pn)) in *.
    assert (1 <= d) by (unfold d; lia).
    destruct (Z.le_gt_cases d 51) as [|Hgt]; [lia|exfalso].
    assert (2 ^ 51 <= 2 ^ (d - 1)) by (apply Z.pow_le_mono_r; lia). lia. }
  set (n := SF2Prim (S754_finite s M E)).
  assert (Hn : Prim2SF n = S754_finite s M E).
  { apply Prim2SF_SF2Prim, valid_53; [assumption | lia]. }
  (* the quotient *)
  destruct (div100_spec s M E HdM HEb)
    as (My & Ey & m2 & k & Hdiv & Hk & HEy & HMy & Hm2 & HdMy & Herr).
  assert (Hy : Prim2SF (n / 100) = S754_finite s My Ey).
  { rewrite div_spec, Hn, Prim2SF_100. exact Hdiv. }
  pose proof (digits_53_bounds My HdMy) as HMyb.
  (* the product *)
  destruct (mul100_spec s My Ey HdMy ltac:(lia))
    as (Mc & Ec & m2' & k' & Hmul & Hk' & HEc & HMc & Hm2' & HdMc & Herr' & Hnum).
  assert (Hc : Prim2SF (100 * (n / 100)) = S754_finite s Mc Ec).
  { rewrite mul_spec, Hy, Prim2SF_100. exact Hmul. }
  pose proof (digits_53_bounds Mc HdMc) as HMcb.
  (* the arithmetic *)
  set (j := Ey - (E - 7 + k)) in *.
  set (j' := Ec - (-46 + Ey + k')) in *.
  set (A2 := 2 ^ (- E - 2)).
  assert (HA2 : 1 <= A2).
  { unfold A2. pose proof (Z.pow_pos_nonneg 2 (- E - 2)). lia. }
  assert (HM4 : Zpos M = 4 * (Zpos pn * A2)).
  { rewrite HM. unfold A2. replace (- E) with (2 + (- E - 2)) at 1 by lia.
    rewrite Z.pow_add_r by lia. change (2 ^ 2) with 4. ring. }
  destruct (round_trip_arith (Zpos pn) A2 (Zpos M) (Zpos My) m2 (Zpos Mc) m2' k j k' j')
    as [Hcpos Hround]; try assumption; try lia.
  set (c := 55 - (k + j + k' + j')) in *.
  assert (HEc' : - Ec = (- E - 2) + c) by (unfold c, j, j'; lia).
  assert (Hd : 2 ^ (- Ec) = A2 * 2 ^ c).
  { rewrite HEc'. unfold A2. apply Z.pow_add_r; lia. }
  (* the rounding *)
  unfold Round. rewrite Hc.
  destruct (Z.leb_spec 0 Ec) as [Hbad|_]; [lia|].
  rewrite Hd.
  rewrite (round_half_up (Zpos Mc) (A2 * 2 ^ c) (Zpos pn)).
  - rewrite Hbn. reflexivity.
  - apply Z.mul_pos_pos; [lia|]. apply Z.pow_pos_nonneg; lia.
  - exact Hround.
Qed.

Lemma Prim2SF_2p51 : Prim2SF 0x1p51 = S754_finite false 4503599627370496 (-1).
Proof. reflexivity. Qed.

(** A float of 53 digits is below [2^51] only with an exponent below -1. *)
Lemma ltb_2p51 (y : float) (s : bool) (M : positive) (E : Z) :
  Prim2SF y = S754_finite s M E ->
  Zpos (digits2_pos M) = 53 ->
  (abs y <? 0x1p51)%float = true -> E < -1.
Proof.
  intros Hy Hd. rewrite ltb_spec, abs_spec, Hy, Prim2SF_2p51.
  unfold SFltb, SFcompare. cbn [SFabs].
  pose proof (digits_53_bounds M Hd) as HM.
  destruct (Z.compare_spec E (-1)) as [->|Hlt|Hgt]; [|intros _; exact Hlt|discriminate].
  rewrite Pos.compare_cont_spec.
  destruct (Pos.compare_spec M 4503599627370496) as [Heq|Hlt|Hgt];
    cbn [Pos.switch_Eq]; try discriminate.
  intros _. apply Pos2Z.pos_lt_pos in Hlt. exfalso.
  exact (Z.lt_irrefl _ (Z.lt_le_trans _ _ _ Hlt (proj1 HM))).
Qed.

Lemma valid_digits (s : bool) (m : positive) (e : Z) :
  valid_binary (S754_finite s m e) = true -> Zpos (digits2_pos m) <= 53.
Proof.
  unfold SpecFloat.valid_binary, bounded, canonical_mantissa.
  intros H. apply andb_prop in H as [H _]. apply Z.eqb_eq in H.
  unfold fexp, SpecFloat.emin, prec, emax in H. lia.
Qed.

(** What [math.Round] returns: its argument, or the float of an integer
    that is zero or positive. *)
Lemma Round_cases (c : float) :
  Round c = c
  /\ (match Prim2SF c with
      | S754_finite _ _ e => 0 <= e
      | _ => True
      end)
  \/ exists s n, Round c = intFloat s n /\ 0 <= n < 2 ^ 53.
Proof.
  unfold Round. pose proof (Prim2SF_valid c) as Hvalid.
  destruct (Prim2SF c) as [s0|s0| |s m e]; try (left; split; [reflexivity|exact I]).
  destruct (Z.leb_spec 0 e) as [He|He]; [left; split; [reflexivity|assumption]|].
  right. exists s. eexists. split; [reflexivity|].
  apply valid_digits in Hvalid.
  pose proof (digits2_pos_bounds m) as [_ Hm].
  assert (Hm53 : Zpos m < 2 ^ 53).
  { eapply Z.lt_le_trans; [exact Hm|]. apply Z.pow_le_mono_r; lia. }
  assert (Hd : 2 <= 2 ^ (- e)).
  { change 2 with (2 ^ 1) at 1. apply Z.pow_le_mono_r; lia. }
  change (2 ^ 53) with 9007199254740992 in *.
  pose proof (Z.div_mod (Zpos m) (2 ^ (- e)) ltac:(lia)) as Hdm.
  pose proof (Z.mod_pos_bound (Zpos m) (2 ^ (- e)) ltac:(lia)) as Hr.
  revert Hdm Hr. generalize (Zpos m / 2 ^ (- e)) (Zpos m mod 2 ^ (- e)).
  intros q r Hdm Hr.
  destruct (_ <=? _); nia.
Qed.

Lemma intFloat_zero (s : bool) : intFloat s 0 = if s then (-0)%float else 0%float.
Proof. destruct s; reflexivity. Qed.

(** Below [2^51] cents the quotient by 100 of a whole number of cents
    comes back to that number when it is multiplied by 100 and rounded. *)
Lemma round2_twice_bounded (x : float) :
  (abs (Round (100 * x)) <? 0x1p51)%float = true ->
  round2 (round2 x) = round2 x.
Proof.
  unfold round2. set (c := (100 * x)%float). intros Hlt.
  enough (H : Round (100 * (Round c / 100)) = Round c) by now rewrite H.
  destruct (Round_cases c) as [[Hsame Hshape]|(s & n & Hint & Hn)].
  - (* the rounding returned its argument *)
    rewrite Hsame in *.
    pose proof (SF2Prim_Prim2SF c) as Hc.
    destruct (Prim2SF c) as [s|s| |s m e] eqn:Hsf.
    + rewrite <- Hc. destruct s; reflexivity.
    + rewrite <- Hc in Hlt. destruct s; discriminate Hlt.
    + rewrite <- Hc in Hlt. discriminate Hlt.
    + exfalso. revert Hlt. rewrite ltb_spec, abs_spec, Hsf, Prim2SF_2p51.
      unfold SFltb, SFcompare. cbn [SFabs].
      destruct (Z.compare_spec e (-1)); [lia|lia|discriminate].
  - (* the rounding returned the float of an integer *)
    rewrite Hint in *.
    destruct n as [|pn|pn]; [| |lia].
    + rewrite intFloat_zero. destruct s; reflexivity.
    + apply round_trip.
      destruct (binary_normalize_int s pn ltac:(lia)) as (M & E & Hbn & HdM & HE & HM).
      assert (Hsf : Prim2SF (intFloat s (Zpos pn)) = S754_finite s M E).
      { unfold intFloat. rewrite Hbn.
        pose proof (digits2_pos_bounds pn) as [Hlo Hhi].
        assert (Zpos (digits2_pos pn) <= 53).
        { destruct (Z.le_gt_cases (Zpos (digits2_pos pn)) 53) as [|Hgt]; [assumption|exfalso].
          assert (2 ^ 53 <= 2 ^ (Zpos (digits2_pos pn) - 1))
            by (apply Z.pow_le_mono_r; lia). lia. }
        apply Prim2SF_SF2Prim, valid_53; [assumption | lia]. }
      pose proof (ltb_2p51 _ _ _ _ Hsf HdM Hlt) as HEneg.
      pose proof (digits2_pos_bounds pn) as [_ Hhi].
      eapply Z.lt_le_trans; [exact Hhi|]. apply Z.pow_le_mono_r; lia.
Qed.

(** X14: rounding to two decimals a second time changes nothing when the
    first rounding gives fewer than [2^51] cents in magnitude. *)
Theorem round2_idempotent_below_2p51 (x : float) :
  (abs (Round (100 * x)) <? 0x1p51)%float = true ->
  round2 (round2 x) = round2 x.
Proof. exact (round2_twice_bounded x). Qed.

(** There are values near [3.78e13] that a second rounding moves by one
    cent. *)
Example round2_not_idempotent :
  round2 (round2 0x1.12fcb5e953499p+45) <> round2 0x1.12fcb5e953499p+45.
Proof.
  intros H. apply Leibniz.eqb_spec in H. vm_compute in H. discriminate.
Qed.

Lemma SFeqb_finite_refl (s : bool) (m : positive) (e : Z) :
  SFeqb (S754_finite s m e) (S754_finite s m e) = true.
Proof.
  unfold SFeqb, SFcompare.
  destruct s; rewrite Z.compare_refl, Pos.compare_cont_refl; reflexivity.
Qed.

(** A float that is not finite is an infinity or NaN. *)
Lemma not_finite_cases (c : float) :
  is_finite c = false -> c = infinity \/ c = neg_infinity \/ c = nan.
Proof.
  intros Hc. pose proof (SF2Prim_Prim2SF c) as Heq.
  destruct (Prim2SF c) as [s|s| |s m e] eqn:Hsf.
  - exfalso. rewrite <- Heq in Hc. destruct s; discriminate Hc.
  - rewrite <- Heq. destruct s; auto.
  - rewrite <- Heq. auto.
  - exfalso. revert Hc. unfold is_finite, is_nan, is_infinity.
    rewrite !FloatAxioms.eqb_spec, abs_spec, Hsf, SFeqb_finite_refl.
    cbn. discriminate.
Qed.

Lemma round2_twice_not_finite (x : float) :
  is_finite (100 * x)%float = false -> round2 (round2 x) = round2 x.
Proof.
  intros Hc. unfold round2 at 2 3.
  destruct (not_finite_cases _ Hc) as [->|[->| ->]]; reflexivity.
Qed.

(** C9, as the arithmetic has it: rounding to two decimals a second time
    changes nothing when the first rounding gives fewer than [2^51] cents
    in magnitude, and when 100 times the value is an infinity or NaN. *)
Theorem round2_idempotence (x : float) :
  (abs (Round (100 * x)) <? 0x1p51)%float = true \/ is_finite (100 * x)%float = false ->
  round2 (round2 x) = round2 x.
Proof.
  intros [Hbound|Hc]; [exact (round2_twice_bounded x Hbound)|].
  exact (round2_twice_not_finite x Hc).
Qed.

Lemma round2_idempotence_witness :
  round2 (round2 5.005859375) = round2 5.005859375.
Proof. apply round2_idempotence. left. reflexivity. Defined.

(** Near [3.78e13] a second rounding moves the value by one cent. *)
Lemma round2_idempotent_counterexample : ~ round2Idempotent.
Proof. intros Hclaim. exact (round2_not_idempotent (Hclaim _)). Qed.

(** ** What the rounding computes *)

Lemma wholeValue_intFloat (s : bool) (k : Z) :
  0 <= k < 2 ^ 53 -> wholeValue (intFloat s k) s k.
Proof.
  intros Hk. destruct k as [|pn|pn]; [| |lia].
  - rewrite intFloat_zero. unfold wholeValue. destruct s; cbn; auto.
  - destruct (binary_normalize_int s pn ltac:(lia)) as (M & E & Hbn & HdM & HE & HM).
    pose proof (digits2_pos_bounds pn) as [Hlo Hhi].
    assert (Hd : Zpos (digits2_pos pn) <= 53).
    { destruct (Z.le_gt_cases (Zpos (digits2_pos pn)) 53) as [|Hgt]; [assumption|exfalso].
      assert (2 ^ 53 <= 2 ^ (Zpos (digits2_pos pn) - 1))
        by (apply Z.pow_le_mono_r; lia). lia. }
    unfold wholeValue, intFloat. rewrite Hbn.
    rewrite Prim2SF_SF2Prim by (apply valid_53; [assumption | lia]).
    split; [reflexivity|]. split; [lia|assumption].
Qed.

(** [math.Round] gives the nearest whole number, halves away from zero. *)
Lemma Round_nearestInteger (y : float) : nearestInteger y (Round y).
Proof.
  unfold nearestInteger, Round. pose proof (Prim2SF_valid y) as Hvalid.
  destruct (Prim2SF y) as [s0|s0| |s m e]; try reflexivity.
  destruct (Z.leb_spec 0 e) as [He|He]; [reflexivity|].
  apply valid_digits in Hvalid.
  pose proof (digits2_pos_bounds m) as [_ Hm].
  assert (Hm53 : Zpos m < 2 ^ 53).
  { eapply Z.lt_le_trans; [exact Hm|]. apply Z.pow_le_mono_r; lia. }
  assert (Hd : 2 <= 2 ^ (- e)).
  { change 2 with (2 ^ 1) at 1. apply Z.pow_le_mono_r; lia. }
  change (2 ^ 53) with 9007199254740992 in *.
  pose proof (Z.div_mod (Zpos m) (2 ^ (- e)) ltac:(lia)) as Hdm.
  pose proof (Z.mod_pos_bound (Zpos m) (2 ^ (- e)) ltac:(lia)) as Hr.
  set (n := Zpos m / 2 ^ (- e) + (if 2 ^ (- e) <=? 2 * (Zpos m mod 2 ^ (- e)) then 1 else 0)).
  assert (Hn : (2 * n - 1) * 2 ^ (- e) <= 2 * Zpos m < (2 * n + 1) * 2 ^ (- e)
               /\ 0 <= n < 9007199254740992).
  { unfold n. revert Hdm Hr Hd.
    generalize (Zpos m / 2 ^ (- e)) (Zpos m mod 2 ^ (- e)). generalize (2 ^ (- e)).
    intros d q r Hdm Hr Hd'.
    assert (Hq : 0 <= q).
    { destruct (Z.lt_ge_cases q 0) as [Hneg|]; [exfalso|assumption].
      assert (d * q <= - d) by nia. lia. }
    assert (Hq2 : 2 * q <= d * q) by nia.
    rewrite Hdm.
    destruct (Z.leb_spec d (2 * r)).
    - replace ((2 * (q + 1) - 1) * d) with (2 * (d * q) + d) by ring.
      replace ((2 * (q + 1) + 1) * d) with (2 * (d * q) + 3 * d) by ring. lia.
    - replace ((2 * (q + 0) - 1) * d) with (2 * (d * q) - d) by ring.
      replace ((2 * (q + 0) + 1) * d) with (2 * (d * q) + d) by ring. lia. }
  exists n. split; [apply Hn|].
  apply (wholeValue_intFloat s n). change (2 ^ 53) with 9007199254740992. apply Hn.
Qed.

Lemma round2_roundsTo2 (raw : float) : roundsTo2 raw (round2 raw).
Proof.
  exists (Round (100 * raw)). split; [apply Round_nearestInteger|reflexivity].
Qed.

Example cents_launch :
  launch Cents.account (aggOperationsByFigi Cents.operations)
  = [ToBalanceItemCh Cents.lineC; ToBalanceItemCh Cents.lineD].
Proof. vm_compute. reflexivity. Qed.

Example cents_report :
  GetPortfolioBalance Cents.account [Some 0%nat; Some 0%nat] Scenario.request
  = Report Cents.report.
Proof. vm_compute. reflexivity. Qed.

(** ** The invariant of a balance line *)

Lemma buildBalanceItem_invariant (instrument : SearchInstrument.t) (currentPrice : float)
    (figiOperations : list Operation.t) :
  balanceInvariant (buildBalanceItem instrument currentPrice figiOperations).
Proof.
  unfold balanceInvariant, rounded, buildBalanceItem.
  cbn [TcfBalanceItem.BalanceAmount TcfBalanceItem.PortfolioAmount
       TcfBalanceItem.DividendAmount TcfBalanceItem.DividendTaxAmount
       TcfBalanceItem.OperationAmount TcfBalanceItem.BrokerCommissionAmount
       TcfBalanceItem.PortfolioQuantity TcfBalanceItem.CurrentPrice].
  split; [reflexivity|].
  repeat split; try apply round2_roundsTo2; eexists; apply round2_roundsTo2.
Qed.

Lemma balanceItemToCh_invariant (acc : TcfAccount) (figi : string)
    (operations : list Operation.t) (balanceItem : TcfBalanceItem.t) :
  balanceItemToCh acc figi operations = ToBalanceItemCh balanceItem ->
  balanceInvariant balanceItem.
Proof.
  unfold balanceItemToCh.
  destruct (GetCurrentPrice acc figi) as [err|currentPrice]; [discriminate|].
  destruct (GetByFigi acc figi) as [err|instrument]; [discriminate|].
  intros [= <-]. apply buildBalanceItem_invariant.
Qed.

(** C1: in every balance line of a report, [BalanceAmount] is
    [PortfolioAmount + DividendAmount - DividendTaxAmount - OperationAmount
    - BrokerCommissionAmount] rounded to two decimals: the quotient by 100
    of the whole number nearest to 100 times the combination.  Each of the
    five amounts is itself such a rounded value, the portfolio amount that
    of the quantity held times the price. *)
Theorem balance_amount_invariant (acc : TcfAccount) (sched : list (option nat))
    (request : Request.t) (report : TcfPortfolioBalance.t) :
  GetPortfolioBalance acc sched request = Report report ->
  Forall balanceInvariant (TcfPortfolioBalance.Items report).
Proof.
  unfold GetPortfolioBalance, aggregate.
  destruct (GetOperations acc request) as [err|operations]; [discriminate|].
  destruct (collect _ _ _ _) as [early|balance] eqn:Hcollect.
  - intros ->. apply collect_early in Hcollect as [?|[err ?]]; discriminate.
  - intros Hroll. rewrite (rollUp_items _ _ _ Hroll).
    apply Forall_forall. intros b Hb.
    destruct (collect_items _ _ _ _ _ Hcollect b Hb) as [Hin|Hin].
    + inversion Hin.
    + apply launch_elem_of in Hin as (figi & ops & Heq).
      eapply balanceItemToCh_invariant. symmetry. eassumption.
Qed.

Lemma balance_amount_invariant_witness :
  Forall balanceInvariant [Cents.lineC; Cents.lineD].
Proof.
  apply (balance_amount_invariant Cents.account [Some 0%nat; Some 0%nat] Scenario.request
           Cents.report).
  vm_compute. reflexivity.
Defined.

(** ** The totals of a currency *)

(** C3: the lines of a report are the lines the goroutines built, each
    once.  The balance of a currency is the sum of the balance amounts of
    its lines, in the order of the report, less the absolute payments of
    its service commissions, plus the absolute payments of its tax refunds,
    rounded to two decimals once at the end; the service commission and tax
    refund totals are the rounded sums of the same absolute payments, and
    the portfolio total the rounded sum of the portfolio amounts of its
    lines.  Rounded is: the quotient by 100 of the whole number nearest to
    100 times the sum. *)
Theorem currency_totals (acc : TcfAccount) (sched : list (option nat))
    (request : Request.t) (operations : list Operation.t)
    (report : TcfPortfolioBalance.t) (c : string) (total : TcfTotal.t) :
  GetOperations acc request = inr operations ->
  GetPortfolioBalance acc sched request = Report report ->
  TcfPortfolioBalance.Total report !! c = Some total ->
  let lines := ofCurrency TcfBalanceItem.Currency c (TcfPortfolioBalance.Items report) in
  let commissions := ofCurrency Operation.Currency c (serviceCommissions operations) in
  let refunds := ofCurrency Operation.Currency c (taxBacks operations) in
  ToBalanceItemCh <$> TcfPortfolioBalance.Items report
  ≡ₚ launch acc (aggOperationsByFigi operations)
  /\ (TcfTotal.BalanceAmount total
      = round2 (currencyBalance c (TcfPortfolioBalance.Items report) operations)
      /\ roundsTo2 (addPayments refunds (subPayments commissions (sumBalanceAmounts lines 0)))
                   (TcfTotal.BalanceAmount total))
  /\ (TcfTotal.ServiceCommissionAmount total = round2 (addPayments commissions 0)
      /\ roundsTo2 (addPayments commissions 0) (TcfTotal.ServiceCommissionAmount total))
  /\ (TcfTotal.TaxBack total = round2 (addPayments refunds 0)
      /\ roundsTo2 (addPayments refunds 0) (TcfTotal.TaxBack total))
  /\ (TcfTotal.PortfolioAmount total = round2 (sumPortfolioAmounts lines 0)
      /\ roundsTo2 (sumPortfolioAmounts lines 0) (TcfTotal.PortfolioAmount total)).
Proof.
  intros Hops Hreport. unfold GetPortfolioBalance in Hreport. rewrite Hops in Hreport.
  rewrite (aggregate_total _ _ _ _ c Hreport), createEmptyBalance_lookup.
  destruct (contains seededCurrencies c); [|discriminate].
  intros [= <-].
  rewrite fold_updItem, fold_updServiceCommission, fold_updTaxBack.
  split; [exact (aggregate_launched _ _ _ _ Hreport)|].
  unfold currencyBalance. cbn.
  repeat split; apply round2_roundsTo2.
Qed.

Lemma currency_totals_witness :
  ToBalanceItemCh <$> [Cents.lineC; Cents.lineD]
  ≡ₚ launch Cents.account (aggOperationsByFigi Cents.operations)
  /\ (TcfTotal.BalanceAmount Cents.totalUSD
      = round2 (currencyBalance "USD" [Cents.lineC; Cents.lineD] Cents.operations)
      /\ roundsTo2 (addPayments [Cents.taxBackUSD]
                      (subPayments [Cents.commissionUSD]
                         (sumBalanceAmounts [Cents.lineC; Cents.lineD] 0)))
                   (TcfTotal.BalanceAmount Cents.totalUSD))
  /\ (TcfTotal.ServiceCommissionAmount Cents.totalUSD
      = round2 (addPayments [Cents.commissionUSD] 0)
      /\ roundsTo2 (addPayments [Cents.commissionUSD] 0)
                   (TcfTotal.ServiceCommissionAmount Cents.totalUSD))
  /\ (TcfTotal.TaxBack Cents.totalUSD = round2 (addPayments [Cents.taxBackUSD] 0)
      /\ roundsTo2 (addPayments [Cents.taxBackUSD] 0) (TcfTotal.TaxBack Cents.totalUSD))
  /\ (TcfTotal.PortfolioAmount Cents.totalUSD
      = round2 (sumPortfolioAmounts [Cents.lineC; Cents.lineD] 0)
      /\ roundsTo2 (sumPortfolioAmounts [Cents.lineC; Cents.lineD] 0)
                   (TcfTotal.PortfolioAmount Cents.totalUSD)).
Proof.
  refine (currency_totals Cents.account [Some 0%nat; Some 0%nat] Scenario.request
            Cents.operations Cents.report "USD" Cents.totalUSD _ _ _);
    vm_compute; reflexivity.
Defined.

Lemma round2_idempotent_witness :
  round2 (round2 0x1.0147ae147ae14p+0) = round2 0x1.0147ae147ae14p+0.
Proof. apply round2_idempotent_below_2p51. reflexivity. Defined.

(** ** The further properties at the scenario of section 8 *)

Lemma aggOperationsByFigi_groups_witness :
  Scenario.buyA ∈ [Scenario.buyA; Scenario.buyB]
  /\ Operation.FIGI Scenario.buyA = "FIGI-A"
  /\ "FIGI-A" <> EmptyString.
Proof.
  apply (proj1 (proj1 (proj2 (aggOperationsByFigi_groups [Scenario.buyA; Scenario.buyB]))
                  "FIGI-A" [Scenario.buyA] Scenario.buyA eq_refl)).
  left.
Defined.

Lemma launched_group_witness :
  "FIGI-B" <> EmptyString
  /\ [Scenario.buyB] <> []
  /\ [Scenario.buyB]
     = filterOperations [Scenario.buyA; Scenario.buyB] (Some (byFIGIs ["FIGI-B"]))
  /\ filterOperations [Scenario.buyB] (Some (byFIGIs ["FIGI-B"])) = [Scenario.buyB].
Proof.
  apply (launched_group [Scenario.buyA; Scenario.buyB] [Scenario.buyB] "FIGI-B").
  vm_compute. reflexivity.
Defined.

Lemma GetCurrentPrice_resolved_witness : (120 =? 0)%float = false.
Proof.
  refine (proj1 (proj2 (proj2 (proj2 (GetCurrentPrice_resolved Scenario.account "FIGI-A")))
                   120%float _)).
  vm_compute. reflexivity.
Defined.

Lemma GetOperations_result_witness :
  exists operations,
    GetOperations Scenario.accountB Scenario.request = inr operations
    /\ operations = [Scenario.buyA; Scenario.buyB].
Proof.
  pose proof (GetOperations_result Scenario.accountB Scenario.request) as H.
  cbn [Operations Portfolio Scenario.accountB] in H.
  destruct H as (operations & Heq & Hfilter & _).
  exists operations. split; [exact Heq|]. rewrite Hfilter. reflexivity.
Defined.

Lemma buildBalanceItem_absent_kinds_witness :
  TcfBalanceItem.PortfolioQuantity
    (buildBalanceItem Scenario.instrumentA 120 [Scenario.dividendA]) = 0
  /\ TcfBalanceItem.DividendTaxAmount
       (buildBalanceItem Scenario.instrumentA 120 [Scenario.dividendA]) = 0%float.
Proof.
  destruct (buildBalanceItem_absent_kinds Scenario.instrumentA 120 [Scenario.dividendA])
    as (Htrade & _ & Htax).
  split.
  - apply Htrade. repeat constructor.
  - apply Htax. repeat constructor.
Defined.

Lemma quantity_exact_witness :
  TcfBalanceItem.PortfolioQuantity
    (buildBalanceItem Scenario.instrumentA 120 [Scenario.buyA; Scenario.sellA])
  = Z.max 0 (netQuantity [Scenario.buyA; Scenario.sellA]).
Proof.
  apply quantity_exact. split; [vm_compute; discriminate | vm_compute; reflexivity].
Defined.

Lemma report_lines_witness :
  length (TcfPortfolioBalance.Items Scenario.report)
  = size (aggOperationsByFigi [Scenario.buyA])
  /\ ToBalanceItemCh <$> TcfPortfolioBalance.Items Scenario.report
     ≡ₚ launch Scenario.account (aggOperationsByFigi [Scenario.buyA]).
Proof.
  apply (report_lines Scenario.account [Some 0%nat]). vm_compute. reflexivity.
Defined.

Lemma report_totals_seeded_witness :
  TcfPortfolioBalance.Total Scenario.report !! "EUR" = Some (TcfTotal.mk 0 0 0 0).
Proof.
  refine (proj2 (report_totals_seeded Scenario.account [Some 0%nat] [Scenario.buyA]
                   Scenario.report _) "EUR" _ _ _ _).
  - vm_compute. reflexivity.
  - apply contains_elem_of. reflexivity.
  - reflexivity.
  - reflexivity.
  - reflexivity.
Defined.

Lemma no_timeout_within_20s_witness :
  Forall is_Some
    (fst (timedSchedule 2 0 [(5 * Second, ToBalanceItemCh Scenario.lineA);
                             (15 * Second, ToErrorCh Scenario.fetchFailed)])).
Proof.
  refine (proj1 (no_timeout_within_20s 0
            [(5 * Second, ToBalanceItemCh Scenario.lineA);
             (15 * Second, ToErrorCh Scenario.fetchFailed)] createEmptyBalance _)).
  intros ready m Hin.
  apply elem_of_cons in Hin as [[= -> _]|Hin]; [reflexivity|].
  apply list_elem_of_singleton in Hin as [= -> _]. reflexivity.
Defined.

Lemma aggregate_no_instrument_witness :
  aggregate Scenario.account [] [Scenario.commissionRUB]
  = rollUp [Scenario.commissionRUB] createEmptyBalance.
Proof.
  apply (proj1 (aggregate_no_instrument Scenario.account [] [Scenario.commissionRUB])).
  repeat constructor.
Defined.

Lemma report_line_source_witness :
  (forall figi, is_Some (aggOperationsByFigi [Scenario.buyA] !! figi) ->
     exists price instrument,
       GetCurrentPrice Scenario.account figi = inr price
       /\ GetByFigi Scenario.account figi = inr instrument)
  /\ Forall (fun balanceItem =>
       exists figi group instrument,
         aggOperationsByFigi [Scenario.buyA] !! figi = Some group
         /\ GetByFigi Scenario.account figi = inr instrument
         /\ GetCurrentPrice Scenario.account figi
            = inr (TcfBalanceItem.CurrentPrice balanceItem)
         /\ (TcfBalanceItem.CurrentPrice balanceItem =? 0)%float = false
         /\ balanceItem
            = buildBalanceItem instrument (TcfBalanceItem.CurrentPrice balanceItem) group
         /\ TcfBalanceItem.FIGI balanceItem = SearchInstrument.FIGI instrument
         /\ TcfBalanceItem.Ticker balanceItem = SearchInstrument.Ticker instrument
         /\ TcfBalanceItem.Name balanceItem = SearchInstrument.Name instrument
         /\ TcfBalanceItem.Currency balanceItem = SearchInstrument.Currency instrument
         /\ TcfBalanceItem.ServiceCommissionAmount balanceItem = 0%float)
     (TcfPortfolioBalance.Items Scenario.report).
Proof.
  apply (report_line_source Scenario.account [Some 0%nat] [Scenario.buyA]).
  vm_compute. reflexivity.
Defined.

Lemma aggregate_report_witness :
  exists report,
    aggregate Scenario.account
      (fst (timedSchedule 1 0 [(5 * Second, ToBalanceItemCh Scenario.lineA)]))
      [Scenario.buyA]
    = Report report.
Proof.
  apply (aggregate_report Scenario.account [Scenario.buyA] 0
           [(5 * Second, ToBalanceItemCh Scenario.lineA)]).
  - vm_compute. reflexivity.
  - intros ready m Hin. apply list_elem_of_singleton in Hin as [= -> _]. reflexivity.
  - intros figi [group Hgroup].
    destruct (decide (figi = "FIGI-A")) as [->|Hne].
    + exists 120%float, Scenario.instrumentA.
      split; [vm_compute; reflexivity|]. split; [reflexivity|].
      apply contains_elem_of. reflexivity.
    + exfalso. rewrite aggOperationsByFigi_groupOf in Hgroup.
      unfold groupOf in Hgroup.
      destruct (String.eqb figi EmptyString); [discriminate|].
      cbn [List.filter Operation.FIGI Scenario.buyA] in Hgroup.
      destruct (String.eqb_spec "FIGI-A" figi) as [<-|_]; [contradiction|].
      discriminate.
  - intros operation Hin. vm_compute in Hin. inversion Hin.
Defined.

(** The commission of the account comes off the total in roubles. *)
Example commission_only :
  aggregate Scenario.account [] [Scenario.commissionRUB]
  = Report (TcfPortfolioBalance.mk []
              (<["EUR" := TcfTotal.mk 0 0 0 0]>
                 (<["USD" := TcfTotal.mk 0 0 0 0]>
                    (<["RUB" := TcfTotal.mk (-99) 99 0 0]> ∅)))).
Proof. vm_compute. reflexivity. Qed.
